(** * LLMFusion: the model-orchestration controllers

    A shallow embedding of the two controller files of the repository:

    - [backend/controllers/mlcontroler.js] (module [MlControler]), the file
      the router mounts: [judgeAndGenerate], [callModelWithRetry],
      [callModel], [judgeResponses], [parseBestIndex], [selectOptimalModel],
      [analyzeWithGemini], [generateWithNvidia], [llmController];
    - the second controller file (module [JudgeController]), which exports
      [judgeAndGenerate] alone and holds the stricter variant of the judge
      pipeline: [judgeAndGenerate], [getModelResponses], [judgeResponses],
      [parseBestIndex], [weightedRandomSelect], [callModelWithRetry],
      [callModel].

    Data is modelled as JavaScript has it. A string is the sequence of its
    UTF-16 code units. A number is an IEEE binary64 float where the code
    computes with fractions (the benchmark scores), and an integer where it
    computes an index. [modelCache] is a finite map. Every effect of an
    [async] function (cache write, network request, timer, rate-limit
    token) is threaded through an explicit [world]; what the outside
    answers (the chat-completion service, the judge, the analysis, the
    draw of [Math.random()]) is a parameter of the controller.

    A handler is taken from the request to its reply with no other request
    in flight. Inside it the calls of a fan-out are in flight together:
    each runs from one [await] to the next, and the order in which the
    event loop resumes them, which the program does not choose, is a
    parameter too (the [schedule]). *)

From Stdlib Require Import ZArith QArith Qround List Floats Lia Bool Ascii String.
From stdpp Require Import gmap list.

#[local] Set Warnings "-inexact-float".
#[local] Open Scope Z_scope.

(** ** JavaScript strings *)

(** A string is the list of its UTF-16 code units. *)
Abbreviation jsstring := (list N).

Fixpoint js (s : string) : jsstring :=
  match s with
  | EmptyString => []
  | String a rest => N_of_ascii a :: js rest
  end.

(** [\d] without the [u] flag: the ASCII digits only. *)
Definition is_digit (c : N) : bool := ((48 <=? c) && (c <=? 57))%N.

(** The code units [String.prototype.trim] removes: WhiteSpace and
    LineTerminator of ECMA-262. *)
Definition is_space (c : N) : bool :=
  (((9 <=? c) && (c <=? 13)) || (c =? 32) || (c =? 160) || (c =? 5760)
   || ((8192 <=? c) && (c <=? 8202)) || (c =? 8232) || (c =? 8233)
   || (c =? 8239) || (c =? 8287) || (c =? 12288) || (c =? 65279))%N.

Fixpoint trimStart (s : jsstring) : jsstring :=
  match s with
  | [] => []
  | c :: rest => if is_space c then trimStart rest else s
  end.

Definition trimEnd (s : jsstring) : jsstring := rev (trimStart (rev s)).

Definition trim (s : jsstring) : jsstring := trimEnd (trimStart s).

(** Truthiness of a string: the empty string is the only falsy one. *)
Definition truthy_string (s : jsstring) : bool :=
  match s with [] => false | _ => true end.

(** The first [replace] of the strict parser: every double quote (code unit
    34) and every apostrophe (code unit 39) is removed. *)
Definition strip_quotes (s : jsstring) : jsstring :=
  filter (fun c => c ≠ 34%N ∧ c ≠ 39%N) s.

(** Case folding of the [i] flag. Without the [u] flag a code unit outside
    ASCII never folds to an ASCII letter, so against an ASCII pattern the
    comparison is exactly ASCII case-insensitive. *)
Definition fold_case (c : N) : N :=
  if ((97 <=? c) && (c <=? 122))%N then (c - 32)%N else c.

Fixpoint starts_with_ci (pat s : jsstring) : bool :=
  match pat, s with
  | [], _ => true
  | _ :: _, [] => false
  | p :: pat', c :: s' => (fold_case p =? fold_case c)%N && starts_with_ci pat' s'
  end.

(** [s.replace(/pat/gi, '')] for a non-empty literal pattern: one pass from
    the left, every match removed, scanning resumed after the match.
    [skip] counts the code units of the current match still to be dropped. *)
Fixpoint remove_ci_from (pat : jsstring) (skip : nat) (s : jsstring) : jsstring :=
  match s with
  | [] => []
  | c :: rest =>
      match skip with
      | S k => remove_ci_from pat k rest
      | O => if starts_with_ci pat s
             then remove_ci_from pat (length pat - 1)%nat rest
             else c :: remove_ci_from pat O rest
      end
  end.

Definition remove_ci (pat s : jsstring) : jsstring := remove_ci_from pat O s.

Fixpoint skip_to_digit (s : jsstring) : jsstring :=
  match s with
  | [] => []
  | c :: rest => if is_digit c then s else skip_to_digit rest
  end.

Fixpoint leading_digits (s : jsstring) : jsstring :=
  match s with
  | [] => []
  | c :: rest => if is_digit c then c :: leading_digits rest else []
  end.

(** [text.match(/\d+/)]: the first maximal run of digits, [None] for [null]. *)
Definition match_first_digits (text : jsstring) : option jsstring :=
  match leading_digits (skip_to_digit text) with
  | [] => None
  | run => Some run
  end.

(** [text.match(/^\d+$/)]: the whole text, when it is one run of digits. *)
Definition match_all_digits (text : jsstring) : option jsstring :=
  match text with
  | [] => None
  | _ => if forallb is_digit text then Some text else None
  end.

(** [parseInt] of a run of digits (radix 10). *)
Definition parseInt (digits : jsstring) : Z :=
  fold_left (fun acc c => 10 * acc + (Z.of_N c - 48)) digits 0.

(** [Buffer.from(s).toString('base64url')] of Node: the UTF-8 bytes of the
    string (a surrogate pair is one code point, a lone surrogate becomes
    U+FFFD), written in base 64 with the alphabet A-Z a-z 0-9 - _ and no
    padding. *)
Definition is_high_surrogate (c : N) : bool := ((55296 <=? c) && (c <=? 56319))%N.
Definition is_low_surrogate (c : N) : bool := ((56320 <=? c) && (c <=? 57343))%N.

Definition utf8_of_code_point (cp : N) : list N :=
  (if cp <? 128 then [cp]
   else if cp <? 2048 then [192 + cp / 64; 128 + cp mod 64]
   else if cp <? 65536
        then [224 + cp / 4096; 128 + (cp / 64) mod 64; 128 + cp mod 64]
        else [240 + cp / 262144; 128 + (cp / 4096) mod 64;
              128 + (cp / 64) mod 64; 128 + cp mod 64])%N.

Definition replacement_character : list N := [239; 191; 189]%N.

Fixpoint utf8 (s : jsstring) : list N :=
  match s with
  | [] => []
  | c :: rest =>
      if is_high_surrogate c then
        match rest with
        | lo :: rest' =>
            if is_low_surrogate lo
            then utf8_of_code_point (65536 + (c - 55296) * 1024 + (lo - 56320))%N
                   ++ utf8 rest'
            else replacement_character ++ utf8 rest
        | [] => replacement_character
        end
      else if is_low_surrogate c then replacement_character ++ utf8 rest
      else utf8_of_code_point c ++ utf8 rest
  end.

Definition base64url_digit (d : N) : N :=
  (if d <? 26 then 65 + d
   else if d <? 52 then 97 + (d - 26)
   else if d <? 62 then 48 + (d - 52)
   else if d =? 62 then 45 else 95)%N.

Fixpoint base64url_of_bytes (bytes : list N) : jsstring :=
  match bytes with
  | a :: b :: c :: rest =>
      [base64url_digit (a / 4); base64url_digit ((a mod 4) * 16 + b / 16);
       base64url_digit ((b mod 16) * 4 + c / 64); base64url_digit (c mod 64)]%N
      ++ base64url_of_bytes rest
  | [a; b] =>
      [base64url_digit (a / 4); base64url_digit ((a mod 4) * 16 + b / 16);
       base64url_digit ((b mod 16) * 4)]%N
  | [a] => [base64url_digit (a / 4); base64url_digit ((a mod 4) * 16)]%N
  | [] => []
  end.

Definition base64url (s : jsstring) : jsstring := base64url_of_bytes (utf8 s).

(** ** Numbers used as indices *)

(** [Math.max(0, Math.min(index, candidateCount - 1))]. *)
Definition clamp (index candidateCount : Z) : Z :=
  Z.max 0 (Z.min index (candidateCount - 1)).

(** [Math.floor(Math.random() * candidateCount)], for the draw [rnd] that
    [Math.random()] returns, taken at its exact value: the product is the
    rational one, where the code rounds it to the nearest binary64 (for a
    draw next below [k / candidateCount] the rounded product can be [k],
    and the index of the code one above the floor taken here). *)
Definition random_index (rnd : Q) (candidateCount : Z) : Z :=
  Qfloor (rnd * inject_Z candidateCount).

(** [xs[i]] for a number [i] that holds an integer: [None] is [undefined]. *)
Definition at_index {A} (xs : list A) (i : Z) : option A :=
  if i <? 0 then None else xs !! Z.to_nat i.

(** ** What a model call can observe *)

(** A value a model call hands back: a string, or [None] for [undefined]
    (and [null], which the code treats alike: falsy, and cached as it is). *)
Abbreviation jsvalue := (option jsstring).

(** The parsed body of a chat-completion response, as far as the code reads
    it: [data.choices[0].message.content].
    - [Malformed]: [data], [data.choices], [data.choices[0]] or its
      [message] is missing, so that reading [.content] throws a TypeError
      (and the optional chain [data?.choices?.[0]?.message?.content] gives
      [undefined]);
    - [Message content]: [message] is there, and [content] is a string or
      absent. *)
Inductive payload :=
  | Malformed
  | Message (content : jsvalue).

(** How one [fetch] of the chat-completion endpoint ends. A timeout is a
    rejection: the timer aborts the request and [fetch] rejects. *)
Inductive http :=
  | Rejects (reason : jsstring)
  | NotOk (status : Z) (body : jsstring)
  | OkJson (data : payload)
  | OkUnreadable (reason : jsstring).

(** The exceptions the controllers raise and pass on. [ApiError] stands for
    [new Error(`... ${status}: ${body.slice(0, n)}`)]. *)
Inductive error :=
  | Rejection (reason : jsstring)
  | ApiError (status : Z) (detail : jsstring)
  | TypeError
  | InvalidFormat.

(** How the call to the judge ends: anything that throws inside the [try]
    of [judgeResponses] (rejection, timeout, status not ok, unreadable
    body), or the reply text
    [data?.candidates?.[0]?.content?.parts?.[0]?.text || ''], a string. *)
Inductive judge_reply :=
  | JudgeFails (e : error)
  | JudgeReplies (text : jsstring).

(** ** Effects *)

Inductive channel := AnalysisChannel | ModelChannel | JudgeChannel.

(** The observable effects, in the order they happen. *)
Inductive event :=
  | Fetch (model prompt : jsstring)      (* POST .../chat/completions *)
  | Delay (ms : Z)                       (* setTimeout(resolve, ms) awaited *)
  | RemoveTokens (c : channel) (n : Z)   (* limiter.removeTokens(n) *)
  | AskGemini.                           (* POST ...:generateContent *)

(** The process-wide state: [modelCache] and the log of effects.
    The wall-clock reads ([Date.now()]: [timestamp], [responseTime]) are
    left out of the model. *)
Record world := World {
  modelCache : gmap jsstring jsvalue;
  trace : list event
}.

Definition is_fetch (e : event) : bool :=
  match e with Fetch _ _ => true | _ => false end.

(** The number of chat-completion requests in a log, and the number sent
    so far. *)
Definition requests (t : list event) : nat := length (List.filter is_fetch t).

Definition fetches (w : world) : nat := requests (trace w).

Definition delays (t : list event) : list Z :=
  flat_map (fun e => match e with Delay ms => [ms] | _ => [] end) t.

(** An [async] function: it may change the world, and settles with a value
    or an exception. *)
Definition async (A : Type) : Type := world -> (error + A) * world.

Definition resolve {A} (a : A) : async A := fun w => (inr a, w).

Definition throw {A} (e : error) : async A := fun w => (inl e, w).

Definition await {A B} (m : async A) (k : A -> async B) : async B :=
  fun w => match m w with
           | (inr a, w') => k a w'
           | (inl e, w') => (inl e, w')
           end.

Definition try_catch {A} (m : async A) (handler : error -> async A) : async A :=
  fun w => match m w with
           | (inl e, w') => handler e w'
           | settled => settled
           end.

#[global] Instance async_ret : MRet async := @resolve.
#[global] Instance async_bind : MBind async := fun A B k m => await m k.

Definition log (e : event) : async unit :=
  fun w => (inr tt, World (modelCache w) (trace w ++ [e])).

Definition cache_get (key : jsstring) : async (option jsvalue) :=
  fun w => (inr (modelCache w !! key), w).

Definition cache_set (key : jsstring) (v : jsvalue) : async unit :=
  fun w => (inr tt, World (<[key := v]> (modelCache w)) (trace w)).

(** How a promise settled, as [Promise.allSettled] reports it. *)
Inductive settlement :=
  | Fulfilled (value : jsvalue)
  | Rejected (reason : error).

Definition settlement_of (r : error + jsvalue) : settlement :=
  match r with inr v => Fulfilled v | inl e => Rejected e end.

(** ** The model invoker *)

(** The three invokers, [callModel] of either file and [generateWithNvidia],
    are one function written three times: look the key up in [modelCache]
    and return the hit; else send one request; [read] the response (status
    check and extraction of the text, the part in which they differ), and
    on success store the result under the key before returning it. The
    [catch] of each only logs and throws the error again. The invoker is
    taken here as one step from world to world: that is the call when
    nothing else runs between the lookup and the write, where the code
    awaits the response (see the calls in flight below for the call taken
    piecewise). *)
Section Invoker.

Variable backend : nat -> jsstring -> jsstring -> http.
Variable read : http -> error + jsvalue.

Definition fetch (model prompt : jsstring) : async http :=
  fun w => (inr (backend (fetches w) model prompt),
            World (modelCache w) (trace w ++ [Fetch model prompt])).

Definition cached_call (cacheKey model prompt : jsstring) : async jsvalue :=
  cached ← cache_get cacheKey;
  match cached with
  | Some value => resolve value
  | None =>
      response ← fetch model prompt;
      match read response with
      | inl e => throw e
      | inr result =>
          _ ← cache_set cacheKey result;
          resolve result
      end
  end.

End Invoker.

(** ** The retry wrapper *)

(** [callModelWithRetry] is the same loop in both files,
    [for (attempt = 0; attempt <= retries; attempt++)]: try the call; on an
    exception throw it on if [attempt === retries], else wait
    [delay * (attempt + 1)] milliseconds and go round again. [retry_loop]
    is the loop entered at [attempt], with [remaining = retries - attempt]
    further attempts allowed. *)
Section Retry.

Variable call : async jsvalue.
Variable delay : Z.

Fixpoint retry_loop (remaining attempt : nat) : async jsvalue :=
  try_catch call
    (fun e =>
       match remaining with
       | O => throw e
       | S remaining' =>
           _ ← log (Delay (delay * (Z.of_nat attempt + 1)));
           retry_loop remaining' (S attempt)
       end).

End Retry.

(** ** Calls in flight *)

(** The two functions above take a call as one step from world to world:
    that is the call when nothing else runs between its awaits. In a fan-out
    the calls are started together and the handler awaits
    [Promise.allSettled]: each call runs from one [await] to the next, and
    the event loop resumes the suspended calls in the order in which their
    awaited promises settle. A call of [callModelWithRetry] is suspended at
    the [await] of [fetch] in [callModel], the request of round [attempt]
    sent ([response] is what the service answers to it), or at the [await]
    of the timer after round [attempt] failed; or it has settled. (The
    awaits of [response.json()] and [response.text()] lie between the
    arrival of the response and the first effect that follows, so they
    add no state of their own.) *)
Inductive progress :=
  | AwaitsResponse (attempt : nat) (response : http)
  | AwaitsTimer (attempt : nat)
  | Settled (result : settlement).

(** A call of [callModelWithRetry(model, prompt, retries)] in flight. *)
Record call := Call {
  call_model : jsstring;
  call_prompt : jsstring;
  call_retries : nat;
  call_progress : progress
}.

Definition is_pending (c : call) : bool :=
  match call_progress c with Settled _ => false | _ => true end.

Definition settled (c : call) : option settlement :=
  match call_progress c with Settled result => Some result | _ => None end.

(** The positions of the calls that have not settled. *)
Definition pending (calls : list call) : list nat :=
  List.filter (fun i => match calls !! i with Some c => is_pending c | None => false end)
    (seq 0 (length calls)).

(** The awaits a call can still go through: two for each round left, one
    for the round under way. *)
Definition steps_left (c : call) : nat :=
  match call_progress c with
  | AwaitsResponse attempt _ => 2 * (call_retries c - attempt) + 1
  | AwaitsTimer attempt => 2 * (call_retries c - attempt)
  | Settled _ => 0
  end.

Section Calls.

Variable backend : nat -> jsstring -> jsstring -> http.
Variable read : http -> error + jsvalue.
(** The cache key of a model and a prompt, and the unit of the back-off. *)
Variable key : jsstring -> jsstring -> jsstring.
Variable delay : Z.

(** Round [attempt] of the loop, up to its first [await]: [callModel] looks
    the key up; a hit settles the call, a miss sends the request. *)
Definition attempt_call (model prompt : jsstring) (retries attempt : nat) (w : world)
  : call * world :=
  match modelCache w !! key model prompt with
  | Some value => (Call model prompt retries (Settled (Fulfilled value)), w)
  | None =>
      (Call model prompt retries
         (AwaitsResponse attempt (backend (fetches w) model prompt)),
       World (modelCache w) (trace w ++ [Fetch model prompt]))
  end.

(** What a suspended call does when the promise it awaits settles, up to
    its next [await]. With the response: a result is stored under the key
    and returned; an exception is thrown on if [attempt === retries], and
    else the timer of [delay * (attempt + 1)] ms is set. With the timer:
    the next round. *)
Definition resume (c : call) (w : world) : call * world :=
  match call_progress c with
  | AwaitsResponse attempt response =>
      match read response with
      | inr result =>
          (Call (call_model c) (call_prompt c) (call_retries c)
             (Settled (Fulfilled result)),
           World (<[key (call_model c) (call_prompt c) := result]> (modelCache w))
             (trace w))
      | inl e =>
          if (attempt =? call_retries c)%nat
          then (Call (call_model c) (call_prompt c) (call_retries c)
                  (Settled (Rejected e)), w)
          else (Call (call_model c) (call_prompt c) (call_retries c)
                  (AwaitsTimer attempt),
                World (modelCache w)
                  (trace w ++ [Delay (delay * (Z.of_nat attempt + 1))]))
      end
  | AwaitsTimer attempt =>
      attempt_call (call_model c) (call_prompt c) (call_retries c) (S attempt) w
  | Settled _ => (c, w)
  end.

(** [models.map(model => callModelWithRetry(model, prompt, retries))]: the
    calls are started one after the other, each up to its first [await]. *)
Fixpoint start_all (models : list jsstring) (prompt : jsstring) (retries : nat)
    (w : world) : list call * world :=
  match models with
  | [] => ([], w)
  | model :: rest =>
      let '(c, w1) := attempt_call model prompt retries 0 w in
      let '(cs, w2) := start_all rest prompt retries w1 in
      (c :: cs, w2)
  end.

(** The order in which the awaited promises settle is not the program's to
    choose: [schedule n] picks, among the calls pending at step [n] of the
    loop, the one that is resumed (counted round the pending ones). *)
Variable schedule : nat -> nat.

Fixpoint event_loop (fuel step : nat) (calls : list call) (w : world)
  : list call * world :=
  match fuel with
  | O => (calls, w)
  | S fuel' =>
      match pending calls with
      | [] => (calls, w)
      | first :: others =>
          let i := nth (schedule step mod length (first :: others))
                     (first :: others) first in
          match calls !! i with
          | Some c =>
              let '(c', w') := resume c w in
              event_loop fuel' (S step) (<[i := c']> calls) w'
          | None => (calls, w)
          end
      end
  end.

(** [await Promise.allSettled(calls)]: the loop runs until no call is
    pending (the awaits left bound the steps it takes), and the results come
    in the order of the calls, whatever the order in which they settled. *)
Definition allSettled (calls : list call) (w : world) : list settlement * world :=
  let '(calls', w') :=
    event_loop (foldr Nat.add 0%nat (map steps_left calls)) 0 calls w in
  (omap settled calls', w').

End Calls.

(** ** Responses *)

Record candidate := Candidate { model : jsstring; content : jsvalue }.

(** The benchmark table of a model and the requirements of a prompt;
    numbers are binary64 floats, a missing field reads as NaN. The fields
    [speed] and [efficiency], which one entry each carries and no code
    reads, are left out. *)
Record benchmarks := Benchmarks {
  reasoning : float; coding : float; math : float; context : float
}.

Record requirements := Requirements {
  req_coding : float; req_reasoning : float; req_math : float; req_context : float
}.

Record expert := Expert { expertise : jsstring; bench : benchmarks }.

Inductive body :=
  | ErrorBody (message : jsstring) (mitigation : option jsstring) (details : option error)
  | JudgeBody (bestResponse : jsvalue) (chosenModel : jsstring) (candidates : list jsstring)
  | LlmBody (response : jsvalue) (id : jsstring) (info : expert) (analysis : requirements).

Record reply := Reply { status : Z; json : body }.

Definition has_bestResponse (r : reply) : bool :=
  match json r with JudgeBody (Some _) _ _ => true | _ => false end.

(** The registry of the judge pipeline, the same in both files. *)
Definition MODEL_LIST : list jsstring :=
  [ js "meta/llama3-70b-instruct";
    js "google/gemma-7b";
    js "deepseek-ai/deepseek-r1-distill-llama-8b" ].

(** ** The strict judge controller (the second controller file) *)

Module JudgeController.
Section Controller.

(** The chat-completion service: the answer to the request sent after
    [n] earlier ones, for a model and a prompt. *)
Variable backend : nat -> jsstring -> jsstring -> http.
(** The order in which the calls of a fan-out are resumed. *)
Variable schedule : nat -> nat.
(** The judge service, and the draw of [Math.random()]. *)
Variable judge : jsstring -> list candidate -> judge_reply.
Variable rnd : Q.
(** [process.env.NODE_ENV === 'development']. *)
Variable development : bool.

(** [JUDGE_CONFIG]. *)
Definition maxRetries : nat := 3.
Definition retryDelay : Z := 2000.

Definition cacheKey (model prompt : jsstring) : jsstring :=
  model ++ js "-" ++ base64url prompt.

(** [callModel], from the response on: the status check, the format check
    (a missing or empty [content] is an error) and the extraction of the
    text. *)
Definition read_response (r : http) : error + jsvalue :=
  match r with
  | Rejects reason => inl (Rejection reason)
  | NotOk status body => inl (ApiError status (take 100 body))
  | OkUnreadable reason => inl (Rejection reason)
  | OkJson Malformed => inl InvalidFormat
  | OkJson (Message None) => inl InvalidFormat
  | OkJson (Message (Some text)) =>
      if truthy_string text then inr (Some text) else inl InvalidFormat
  end.

Definition callModel (model prompt : jsstring) : async jsvalue :=
  cached_call backend read_response (cacheKey model prompt) model prompt.

Definition callModelWithRetry (model prompt : jsstring) (retries : nat)
  : async jsvalue :=
  retry_loop (callModel model prompt) retryDelay retries 0.

(** The [.map((result, idx) => ...)] of [getModelResponses]; [None] is
    the [null] of a rejected call. *)
Definition to_candidate (idx : nat) (result : settlement) : option candidate :=
  match result with
  | Fulfilled value => Some (Candidate (nth idx MODEL_LIST []) value)
  | Rejected _ => None
  end.

(** [c?.content?.length >= 20]. *)
Definition long_enough (c : option candidate) : bool :=
  match c with
  | Some (Candidate _ (Some text)) => (20 <=? length text)%nat
  | _ => false
  end.

(** [MODEL_LIST.map(model => callModelWithRetry(model, prompt,
    JUDGE_CONFIG.maxRetries))], then [await Promise.allSettled(...)]. *)
Definition settle_all (prompt : jsstring) (w : world) : list settlement * world :=
  let '(calls, w1) := start_all backend cacheKey MODEL_LIST prompt maxRetries w in
  allSettled backend read_response cacheKey retryDelay schedule calls w1.

Definition getModelResponses (prompt : jsstring) (w : world)
  : list candidate * world :=
  let '(results, w') := settle_all prompt w in
  (omap id (List.filter long_enough (imap to_candidate results)), w').

Definition parseBestIndex (text : jsstring) (candidateCount : Z) : Z :=
  let cleanText := trim (remove_ci (js "option") (strip_quotes text)) in
  match match_all_digits cleanText with
  | None => random_index rnd candidateCount
  | Some numberMatch => clamp (parseInt numberMatch) candidateCount
  end.

Definition weightedRandomSelect (candidates : list candidate) : option candidate :=
  at_index candidates 0.

(** [judgeResponses] settles with a candidate, or with [undefined]
    ([None]) when the index read is outside the list. The token of the
    judge channel is taken before the [try]: [removeTokens(1)] waits for
    it, and throws only for a count above the bucket size, 5. *)
Definition judgeResponses (prompt : jsstring) (candidates : list candidate)
    (w : world) : option candidate * world :=
  let w' := World (modelCache w)
              (trace w ++ [RemoveTokens JudgeChannel 1; AskGemini]) in
  match judge prompt candidates with
  | JudgeReplies responseText =>
      (at_index candidates
         (parseBestIndex responseText (Z.of_nat (length candidates))), w')
  | JudgeFails _ => (weightedRandomSelect candidates, w')
  end.

Definition processing_error (e : error) : reply :=
  Reply 500 (ErrorBody (js "Processing error") None
               (if development then Some e else None)).

(** The handler; [prompt] is [req.body.prompt], a string, or [None] when
    the body has none. The [warning] field is left out: it copies
    [best.judgmentError], which no candidate carries. The [catch] of the
    handler is reached only if [best] is [undefined]. *)
Definition judgeAndGenerate (prompt : option jsstring) (w : world) : reply * world :=
  match prompt with
  | None => (Reply 400 (ErrorBody (js "Non-empty prompt is required") None None), w)
  | Some prompt =>
      if negb (truthy_string (trim prompt))
      then (Reply 400 (ErrorBody (js "Non-empty prompt is required") None None), w)
      else
        let '(candidates, w1) := getModelResponses prompt w in
        match candidates with
        | [] => (Reply 503 (ErrorBody (js "All model providers failed")
                              (Some (js "Try again with a different prompt")) None),
                 w1)
        | _ =>
            let '(best, w2) := judgeResponses prompt candidates w1 in
            match best with
            | Some best =>
                (Reply 200 (JudgeBody (content best) (model best)
                              (map model candidates)), w2)
            | None => (processing_error TypeError, w2)
            end
        end
  end.

End Controller.
End JudgeController.

(** ** The mounted controller, [mlcontroler.js] *)

(** How the analysis call ends: anything that throws inside the [try] of
    [analyzeWithGemini] (the call itself, or [JSON.parse]), or the parsed
    value, with its four fields read as numbers; [None] is the JSON value
    [null], which has no fields to read. *)
Inductive analysis_reply :=
  | AnalysisFails
  | AnalysisParsed (value : option requirements).

(** [x || fallback] on a number: 0, -0 and NaN are falsy. *)
Definition truthy_number (x : float) : bool :=
  negb (PrimFloat.is_nan x || PrimFloat.is_zero x).

(** [Math.min] of two numbers: NaN if either is, and -0 below +0. *)
Definition Math_min (a b : float) : float :=
  if PrimFloat.is_nan a || PrimFloat.is_nan b then nan
  else if (a <? b)%float then a
  else if (b <? a)%float then b
  else if PrimFloat.get_sign a then a else b.

Module MlControler.

Definition EXPERT_MODELS : list (jsstring * expert) :=
  [ (js "meta/llama3-70b-instruct",
     Expert (js "General Knowledge & Complex Reasoning")
       (Benchmarks 92.1 84.3 88.7 128000));
    (js "google/gemma-7b",
     Expert (js "Efficient Code Generation")
       (Benchmarks 85.4 89.2 82.1 8192));
    (js "deepseek-ai/deepseek-r1-distill-llama-8b",
     Expert (js "Technical Coding & Mathematics")
       (Benchmarks 91.6 94.2 93.4 128000)) ].

(** The body of the [forEach] callback of [selectOptimalModel], up to the
    comparison. *)
Definition score (requirements : requirements) (model : expert) : float :=
  let cap := if truthy_number (context (bench model))
             then context (bench model) else 4096%float in
  let ctxWeight := Math_min (req_context requirements / cap) 1 in
  (coding (bench model) * (req_coding requirements / 100) +
   reasoning (bench model) * (req_reasoning requirements / 100) +
   math (bench model) * (req_math requirements / 100) +
   ctxWeight * 25)%float.

(** One round of the [forEach]: the pair [(bestScore, bestModel)] after an
    entry, [None] for [null]. *)
Definition consider (requirements : requirements)
    (best : float * option jsstring) (entry : jsstring * expert)
  : float * option jsstring :=
  if (fst best <? score requirements (snd entry))%float
  then (score requirements (snd entry), Some (fst entry))
  else best.

Definition default_model : jsstring := js "meta/llama3-70b-instruct".

(** [selectOptimalModel] over a registry: [Object.entries] lists the
    models in the order they are declared. *)
Definition select_from (registry : list (jsstring * expert))
    (requirements : requirements) : jsstring :=
  match snd (fold_left (consider requirements) registry (neg_infinity, None)) with
  | Some bestModel => if truthy_string bestModel then bestModel else default_model
  | None => default_model
  end.

Definition selectOptimalModel (requirements : requirements) : jsstring :=
  select_from EXPERT_MODELS requirements.

Section Controller.

Variable backend : nat -> jsstring -> jsstring -> http.
(** The order in which the calls of a fan-out are resumed. *)
Variable schedule : nat -> nat.
Variable judge : jsstring -> list candidate -> judge_reply.
Variable analysis : jsstring -> analysis_reply.
Variable rnd : Q.
Variable development : bool.

(** The part [callModel] and [generateWithNvidia] share, from the
    response on; [n] is the length the error body is cut to. No check
    that [content] is there: [result] is whatever the field holds. *)
Definition read_response (n : nat) (r : http) : error + jsvalue :=
  match r with
  | Rejects reason => inl (Rejection reason)
  | NotOk status body => inl (ApiError status (take n body))
  | OkUnreadable reason => inl (Rejection reason)
  | OkJson Malformed => inl TypeError
  | OkJson (Message content) => inr content
  end.

Definition callModel (model prompt : jsstring) : async jsvalue :=
  cached_call backend (read_response 100) (model ++ js "-" ++ prompt) model prompt.

Definition generateWithNvidia (modelId prompt : jsstring) : async jsvalue :=
  cached_call backend (read_response 200)
    (modelId ++ js "-" ++ base64url prompt) modelId prompt.

Definition callModelWithRetry (model prompt : jsstring) (retries : nat)
  : async jsvalue :=
  retry_loop (callModel model prompt) 2000 retries 0.

(** [result.status === 'fulfilled' && result.value ? {...} : null]. *)
Definition to_candidate (idx : nat) (result : settlement) : option candidate :=
  match result with
  | Fulfilled (Some text) =>
      if truthy_string text
      then Some (Candidate (nth idx MODEL_LIST []) (Some text))
      else None
  | _ => None
  end.

(** [MODEL_LIST.map(model => callModelWithRetry(model, prompt, 2))], then
    [await Promise.allSettled(modelPromises)]. *)
Definition settle_all (prompt : jsstring) (w : world) : list settlement * world :=
  let '(calls, w1) :=
    start_all backend (fun model prompt => model ++ js "-" ++ prompt)
      MODEL_LIST prompt 2 w in
  allSettled backend (read_response 100) (fun model prompt => model ++ js "-" ++ prompt)
    2000 schedule calls w1.

(** Lines 21 to 30 of [judgeAndGenerate]: the fan-out, then
    [.map(...).filter(Boolean)]. *)
Definition fan_out (prompt : jsstring) (w : world) : list candidate * world :=
  let '(results, w') := settle_all prompt w in
  (omap id (imap to_candidate results), w').

Definition parseBestIndex (text : jsstring) (candidateCount : Z) : Z :=
  match match_first_digits text with
  | None => random_index rnd candidateCount
  | Some numberMatch => clamp (parseInt numberMatch) candidateCount
  end.

Definition judgeResponses (prompt : jsstring) (candidates : list candidate)
    (w : world) : option candidate * world :=
  let w' := World (modelCache w) (trace w ++ [AskGemini]) in
  match judge prompt candidates with
  | JudgeReplies responseText =>
      (at_index candidates
         (parseBestIndex responseText (Z.of_nat (length candidates))), w')
  | JudgeFails _ =>
      (at_index candidates (random_index rnd (Z.of_nat (length candidates))), w')
  end.

Definition processing_error (message : string) (e : error) : reply :=
  Reply 500 (ErrorBody (js message) None (if development then Some e else None)).

Definition judgeAndGenerate (prompt : option jsstring) (w : world) : reply * world :=
  match prompt with
  | None => (Reply 400 (ErrorBody (js "Prompt is required") None None), w)
  | Some prompt =>
      if negb (truthy_string prompt)
      then (Reply 400 (ErrorBody (js "Prompt is required") None None), w)
      else
        let '(candidates, w1) := fan_out prompt w in
        match candidates with
        | [] => (Reply 500 (ErrorBody (js "All model calls failed") None None), w1)
        | _ =>
            let '(best, w2) := judgeResponses prompt candidates w1 in
            match best with
            | Some best =>
                (Reply 200 (JudgeBody (content best) (model best)
                              (map model candidates)), w2)
            | None => (processing_error "Processing error" TypeError, w2)
            end
        end
  end.

(** [analyzeWithGemini] never throws: a failure is replaced by the
    neutral vector. *)
Definition analyzeWithGemini (prompt : jsstring) (w : world)
  : option requirements * world :=
  (match analysis prompt with
   | AnalysisFails => Some (Requirements 50 50 50 50)
   | AnalysisParsed value => value
   end,
   World (modelCache w) (trace w ++ [AskGemini])).

(** [EXPERT_MODELS[modelId]]. *)
Definition model_info (modelId : jsstring) : option expert :=
  snd <$> List.find (fun entry => bool_decide (fst entry = modelId)) EXPERT_MODELS.

Definition llmController (prompt : option jsstring) (w : world) : reply * world :=
  match prompt with
  | None => (Reply 400 (ErrorBody (js "Prompt required") None None), w)
  | Some prompt =>
      if negb (truthy_string (trim prompt))
      then (Reply 400 (ErrorBody (js "Prompt required") None None), w)
      else
        let w1 := World (modelCache w)
                    (trace w ++ [RemoveTokens AnalysisChannel 1]) in
        let '(requirements, w2) := analyzeWithGemini prompt w1 in
        match requirements with
        | None => (processing_error "Processing failed" TypeError, w2)
        | Some requirements =>
            let modelId := selectOptimalModel requirements in
            let modelInfo := model_info modelId in
            let w3 := World (modelCache w2)
                        (trace w2 ++ [RemoveTokens ModelChannel 1]) in
            match generateWithNvidia modelId prompt w3 with
            | (inl e, w4) => (processing_error "Processing failed" e, w4)
            | (inr response, w4) =>
                match modelInfo with
                | Some info => (Reply 200 (LlmBody response modelId info requirements), w4)
                | None => (processing_error "Processing failed" TypeError, w4)
                end
            end
        end
  end.

End Controller.
End MlControler.

(** * The vocabulary of the statements *)

(** ** Concrete inputs *)

(** The world at start-up: nothing cached, nothing done. *)
Definition fresh : world := World ∅ [].

Definition gemma : jsstring := js "google/gemma-7b".

Definition answer : jsstring := js "Bubble sort swaps adjacent items until sorted.".

(** A service that refuses every request. *)
Definition refusing : nat -> jsstring -> jsstring -> http :=
  fun _ _ _ => NotOk 500 (js "Internal Server Error").

(** A service that answers every request with the same text. *)
Definition answering : nat -> jsstring -> jsstring -> http :=
  fun _ _ _ => OkJson (Message (Some answer)).

(** A service whose answer has a [message] without [content]. *)
Definition contentless : nat -> jsstring -> jsstring -> http :=
  fun _ _ _ => OkJson (Message None).

(** A judge that cannot be reached. *)
Definition judge_down : jsstring -> list candidate -> judge_reply :=
  fun _ _ => JudgeFails (Rejection (js "The user aborted a request.")).

Definition two_candidates : list candidate :=
  [Candidate (js "a") (Some (js "x")); Candidate (js "b") (Some (js "y"))].



Definition scenario : requirements := Requirements 90 40 30 20.

(** ** The selection loop *)

(** [(bestScore, bestModel)] after the [forEach] has gone through a
    registry. *)
Definition loop_state (req : requirements) (registry : list (jsstring * expert))
  : float * option jsstring :=
  fold_left (MlControler.consider req) registry (neg_infinity, None).

(** What the loop maintains: either no entry so far has a score above
    -Infinity and the pair is still the initial one, or the pair names the
    entry at some position [k], whose score is above every earlier score and
    not below any score seen. *)
Inductive loop_invariant (req : requirements) (registry : list (jsstring * expert))
  : float * option jsstring -> Prop :=
  | no_leader :
      Forall (fun e => (neg_infinity <? MlControler.score req (snd e))%float = false)
        registry ->
      loop_invariant req registry (neg_infinity, None)
  | leader (k : nat) (entry : jsstring * expert) :
      registry !! k = Some entry ->
      (neg_infinity <? MlControler.score req (snd entry))%float = true ->
      (forall j e, (j < k)%nat -> registry !! j = Some e ->
         (MlControler.score req (snd entry) <=? MlControler.score req (snd e))%float
         = false) ->
      (forall e, e ∈ registry ->
         (MlControler.score req (snd entry) <? MlControler.score req (snd e))%float
         = false) ->
      loop_invariant req registry
        (MlControler.score req (snd entry), Some (fst entry)).

(** [entry], at position [k] of the registry, has the strictly highest
    score, ties going to the earlier model: it has a score (one above
    -Infinity, so not NaN), no model scores higher, and every earlier model
    scores strictly lower or has no score at all. *)
Definition highest_first (req : requirements) (registry : list (jsstring * expert))
    (k : nat) (entry : jsstring * expert) : Prop :=
  registry !! k = Some entry /\
  (neg_infinity <? MlControler.score req (snd entry))%float = true /\
  (forall e, e ∈ registry ->
     (MlControler.score req (snd entry) <? MlControler.score req (snd e))%float = false) /\
  (forall j e, (j < k)%nat -> registry !! j = Some e ->
     (MlControler.score req (snd e) <? MlControler.score req (snd entry))%float = true
     \/ PrimFloat.is_nan (MlControler.score req (snd e)) = true).

(** No model of the registry has a score: each is NaN or -Infinity. *)
Definition none_scores (req : requirements) (registry : list (jsstring * expert)) : Prop :=
  Forall (fun e => (neg_infinity <? MlControler.score req (snd e))%float = false) registry.

(** ** Retries *)

(** An attempt that ended in an exception. *)
Definition failing (r : error + jsvalue) : Prop :=
  match r with inl _ => True | inr _ => False end.

(** What a wrapper that runs out of attempts leaves in the log:
    [retries + 1] requests, and between two of them a wait of
    [delay * n], [n] the number of the attempt just failed, counted from
    [first + 1]. *)
Definition backoff_trace (model prompt : jsstring) (delay : Z) (first retries : nat)
  : list event :=
  flat_map (fun i => [Fetch model prompt; Delay (delay * (Z.of_nat i + 1))])
    (seq first retries)
  ++ [Fetch model prompt].

(** The retry bound of a wrapper [retrying], over an invoker that reads a
    response with [read] and caches under [key]: when the key is not cached
    and every attempt fails, the wrapper throws what the last attempt, the
    one numbered [retries + 1], threw; it has sent [retries + 1] requests,
    waited [delay * 1], ..., [delay * retries] in between, in that order,
    and stored nothing. *)
Definition retry_bound
    (read : http -> error + jsvalue) (key : jsstring -> jsstring -> jsstring)
    (delay : Z)
    (retrying : (nat -> jsstring -> jsstring -> http) ->
                jsstring -> jsstring -> nat -> async jsvalue) : Prop :=
  forall backend model prompt retries w,
    modelCache w !! key model prompt = None ->
    (forall k, failing (read (backend k model prompt))) ->
    failing (fst (retrying backend model prompt retries w)) /\
    fst (retrying backend model prompt retries w)
      = read (backend (fetches w + retries)%nat model prompt) /\
    trace (snd (retrying backend model prompt retries w))
      = trace w ++ backoff_trace model prompt delay 0 retries /\
    fetches (snd (retrying backend model prompt retries w))
      = (fetches w + (retries + 1))%nat /\
    delays (backoff_trace model prompt delay 0 retries)
      = map (fun n => delay * Z.of_nat n) (seq 1 retries) /\
    modelCache (snd (retrying backend model prompt retries w)) = modelCache w.

(** ** The cache *)

(** Two invocations in a row, and the requests they send between them. *)
Definition twice (invoke : async jsvalue) (w : world) : world :=
  snd (invoke (snd (invoke w))).

(** What holds of an invoker [invoke] that caches under [key]:
    - a hit returns the cached value and leaves the world as it is: no
      request, no cache write, no other effect;
    - an invocation that succeeds has stored its value, the next one
      returns that very value from the cache, and the two together have
      sent at most one request;
    - an invocation that fails has stored nothing, and the next one sends a
      request of its own. *)
Definition idempotent_once_cached (key : jsstring) (invoke : async jsvalue) : Prop :=
  (forall w value, modelCache w !! key = Some value -> invoke w = (inr value, w)) /\
  (forall w w1 value,
      invoke w = (inr value, w1) ->
      modelCache w1 !! key = Some value /\
      invoke w1 = (inr value, w1) /\
      (fetches (twice invoke w) <= fetches w + 1)%nat) /\
  (forall w w1 e,
      invoke w = (inl e, w1) ->
      modelCache w1 = modelCache w /\
      fetches (twice invoke w) = (fetches w + 2)%nat).

(** ** The fan-out *)

(** A cell of the mapped results, [null] or a candidate, carries the name
    at its position. *)
Definition named (name : jsstring) (cell : option candidate) : Prop :=
  forall c, cell = Some c -> model c = name.

(** The candidates are drawn from the registry and stand in its order:
    at most as many as there are models, each under the ID of a model of
    the registry, and their IDs a subsequence of [MODEL_LIST]. *)
Definition in_registry_order (candidates : list candidate) : Prop :=
  (length candidates <= length MODEL_LIST)%nat /\
  Forall (fun c => model c ∈ MODEL_LIST) candidates /\
  sublist (map model candidates) MODEL_LIST.

(** The candidates are the fulfilled calls whose text is [acceptable], each
    under the ID at the position of its call; a rejected call, or an
    unacceptable text, leaves no candidate and fails nothing. *)
Definition survivors (acceptable : jsstring -> Prop) (results : list settlement)
    (candidates : list candidate) : Prop :=
  forall c,
    c ∈ candidates <->
    exists idx text,
      results !! idx = Some (Fulfilled (Some text)) /\ acceptable text /\
      c = Candidate (nth idx MODEL_LIST []) (Some text).

(** ** Validation *)

(** A prompt that is missing, empty or blank. *)
Definition blank (prompt : option jsstring) : Prop :=
  match prompt with
  | None => True
  | Some text => trim text = []
  end.

(** ** Retries that end well *)

(** Recovery of a wrapper [retrying]: when the key is not cached, the next
    [k] attempts fail and the one after them is answered with [value], and
    [k] is within the allowed [retries], the wrapper returns [value]; it has
    sent [k + 1] requests, waited [delay * 1], ..., [delay * k] between
    them, and stored [value] under the key. *)
Definition retry_recovers
    (read : http -> error + jsvalue) (key : jsstring -> jsstring -> jsstring)
    (delay : Z)
    (retrying : (nat -> jsstring -> jsstring -> http) ->
                jsstring -> jsstring -> nat -> async jsvalue) : Prop :=
  forall backend model prompt (retries k : nat) value w,
    (k <= retries)%nat ->
    modelCache w !! key model prompt = None ->
    (forall i, (i < k)%nat -> failing (read (backend (fetches w + i)%nat model prompt))) ->
    read (backend (fetches w + k)%nat model prompt) = inr value ->
    retrying backend model prompt retries w
      = (inr value,
         World (<[key model prompt := value]> (modelCache w))
           (trace w ++ backoff_trace model prompt delay 0 k)) /\
    requests (backoff_trace model prompt delay 0 k) = (k + 1)%nat /\
    delays (backoff_trace model prompt delay 0 k)
      = map (fun n => delay * Z.of_nat n) (seq 1 k).

(** A wrapper [retrying] never asks for what is cached: the cached value is
    returned and the world is left as it was. *)
Definition retry_short_circuits (key : jsstring -> jsstring -> jsstring)
    (retrying : (nat -> jsstring -> jsstring -> http) ->
                jsstring -> jsstring -> nat -> async jsvalue) : Prop :=
  forall backend model prompt (retries : nat) value w,
    modelCache w !! key model prompt = Some value ->
    retrying backend model prompt retries w = (inr value, w).

(** A service that changes its answer after the first request. *)
Definition changing : nat -> jsstring -> jsstring -> http :=
  fun n _ _ => if (n =? 0)%nat
               then OkJson (Message (Some (js "An early answer, soon replaced.")))
               else OkJson (Message (Some answer)).

(** A service that refuses the first two requests and answers from the
    third on. *)
Definition recovering : nat -> jsstring -> jsstring -> http :=
  fun n _ _ => if (n <? 2)%nat then NotOk 500 (js "Internal Server Error")
               else OkJson (Message (Some answer)).

(** ** What a request leaves behind *)

(** [w'] comes after [w]: every cache entry of [w] is still there with the
    value it had, and the log of [w] is the beginning of the log of [w']. *)
Definition extends (w w' : world) : Prop :=
  modelCache w ⊆ modelCache w' /\ trace w `prefix_of` trace w'.

(** The back-off timers of a log, added up, in milliseconds: the time
    spent waiting by calls that run one at a time, and a bound on it when
    their timers run together. *)
Definition waited (t : list event) : Z := foldr Z.add 0 (delays t).

(** A computation that sends at most [n] requests and waits at most [ms]
    milliseconds, from whatever world it starts. *)
Definition spends {A} (m : world -> A * world) (n : nat) (ms : Z) : Prop :=
  forall w,
    (fetches (snd (m w)) <= fetches w + n)%nat /\
    waited (trace (snd (m w))) <= waited (trace w) + ms.

(** The waits of a wrapper entered at [attempt] with [remaining] retries
    left, all taken. *)
Fixpoint backoff_budget (delay : Z) (remaining attempt : nat) : Z :=
  match remaining with
  | O => 0
  | S remaining' =>
      delay * (Z.of_nat attempt + 1) + backoff_budget delay remaining' (S attempt)
  end.

(** ** A request repeated *)

(** A call fulfilled in one pass is fulfilled with the same value in the
    other. *)
Definition persists (first second : settlement) : Prop :=
  forall value, first = Fulfilled value -> second = Fulfilled value.

Definition is_rejected (r : settlement) : bool :=
  match r with Rejected _ => true | Fulfilled _ => false end.

(** The number of rejected calls among the results of a fan-out. *)
Definition rejections (results : list settlement) : nat :=
  length (List.filter is_rejected results).

(** A pass run from the world another pass left. *)
Definition again {A} (first pass : world -> A * world) (w : world) : A * world :=
  pass (snd (first w)).

(** ** Calls in flight, seen from outside *)

(** A schedule: the first of the pending calls is always the one resumed,
    so that the calls settle in the order of the registry. *)
Definition in_turn : nat -> nat := fun _ => 0%nat.

(** The requests of a log, numbered from [n], each with the answer of the
    service. *)
Fixpoint answered (backend : nat -> jsstring -> jsstring -> http) (n : nat)
    (t : list event) : list (jsstring * jsstring * http) :=
  match t with
  | [] => []
  | Fetch model prompt :: rest =>
      (model, prompt, backend n model prompt) :: answered backend (S n) rest
  | _ :: rest => answered backend n rest
  end.

Definition answer_to (model prompt : jsstring) (a : jsstring * jsstring * http)
  : option http :=
  if decide (a.1.1 = model /\ a.1.2 = prompt) then Some a.2 else None.

(** What the service answered to the requests for [model] and [prompt]
    sent between [w] and [w'], in the order they were sent. *)
Definition responses (backend : nat -> jsstring -> jsstring -> http) (w w' : world)
    (model prompt : jsstring) : list http :=
  omap (answer_to model prompt)
    (answered backend (fetches w) (drop (length (trace w)) (trace w'))).

(** How the loop of [callModelWithRetry] ends, given what was cached for
    the pair when the call was made and the responses [got] to its
    requests. With a cached value: no request, and the value. Without: at
    least one request; every response but the last was read as a failure;
    the result is the reading of the last, fulfilled or rejected; the
    failures before it are at most [retries], and exactly [retries] when
    the call is rejected. *)
Definition settles_as (read : http -> error + jsvalue) (retries : nat)
    (cached : option jsvalue) (got : list http) (result : settlement) : Prop :=
  match cached with
  | Some value => got = [] /\ result = Fulfilled value
  | None =>
      exists failed last,
        got = failed ++ [last] /\
        Forall (fun r => failing (read r)) failed /\
        result = settlement_of (read last) /\
        (length failed <= retries)%nat /\
        (failing (read last) -> length failed = retries)
  end.

(** The call for [model] of a fan-out that took the world from [w] to [w']
    has run to its end, and [result] is how it ended. *)
Definition call_outcome (backend : nat -> jsstring -> jsstring -> http)
    (read : http -> error + jsvalue) (key : jsstring -> jsstring -> jsstring)
    (retries : nat) (prompt : jsstring) (w w' : world)
    (model : jsstring) (result : settlement) : Prop :=
  settles_as read retries (modelCache w !! key model prompt)
    (responses backend w w' model prompt) result.

(** *** What the event loop maintains *)

(** The round of a call under way is within its retries. *)
Definition in_budget (c : call) : Prop :=
  match call_progress c with
  | AwaitsResponse attempt _ => (attempt <= call_retries c)%nat
  | AwaitsTimer attempt => (attempt < call_retries c)%nat
  | Settled _ => True
  end.

Definition awaits_left (calls : list call) : nat :=
  foldr Nat.add 0%nat (map steps_left calls).

(** A call as [callModelWithRetry(model, prompt, retries)] made it. *)
Definition call_of (prompt : jsstring) (retries : nat) (model : jsstring) (c : call)
  : Prop :=
  call_model c = model /\ call_prompt c = prompt /\ call_retries c = retries.

(** The requests a call can still send. *)
Definition requests_left (c : call) : nat :=
  match call_progress c with
  | AwaitsResponse attempt _ | AwaitsTimer attempt => call_retries c - attempt
  | Settled _ => 0
  end.

Definition to_send (calls : list call) : nat :=
  foldr Nat.add 0%nat (map requests_left calls).

Section CallsInFlight.

Variable backend : nat -> jsstring -> jsstring -> http.
Variable read : http -> error + jsvalue.
Variable key : jsstring -> jsstring -> jsstring.
Variable delay : Z.
Variable schedule : nat -> nat.

Definition call_key (c : call) : jsstring := key (call_model c) (call_prompt c).

(** What holds of a call in flight in a world [w] reached from [w0], the
    world in which the fan-out began: while it is pending nothing is cached
    under its key, and the responses it got so far are the failures of the
    rounds before and, while it awaits one, the response to come; once
    settled, it has ended as its loop ends on the responses it got, and
    what it was fulfilled with is in the cache. *)
Definition call_inv (w0 w : world) (c : call) : Prop :=
  let got := responses backend w0 w (call_model c) (call_prompt c) in
  match call_progress c with
  | AwaitsResponse attempt response =>
      modelCache w0 !! call_key c = None /\ modelCache w !! call_key c = None /\
      (attempt <= call_retries c)%nat /\
      exists failed,
        got = failed ++ [response] /\ length failed = attempt /\
        Forall (fun r => failing (read r)) failed
  | AwaitsTimer attempt =>
      modelCache w0 !! call_key c = None /\ modelCache w !! call_key c = None /\
      (attempt < call_retries c)%nat /\
      length got = S attempt /\ Forall (fun r => failing (read r)) got
  | Settled result =>
      settles_as read (call_retries c) (modelCache w0 !! call_key c) got result /\
      (forall value, result = Fulfilled value ->
         modelCache w !! call_key c = Some value)
  end.

(** The calls of a fan-out are under distinct keys, and each is as above. *)
Definition calls_inv (w0 : world) (calls : list call) (w : world) : Prop :=
  trace w0 `prefix_of` trace w /\
  modelCache w0 ⊆ modelCache w /\
  NoDup (map call_key calls) /\
  forall i c, calls !! i = Some c -> call_inv w0 w c.

(** The fan-out of [models] for [prompt]: the calls are started, and
    [Promise.allSettled] is awaited. *)
Definition fan (prompt : jsstring) (retries : nat) (models : list jsstring) (w : world)
  : list settlement * world :=
  let '(calls, w1) := start_all backend key models prompt retries w in
  allSettled backend read key delay schedule calls w1.

(** The time a call can still wait. *)
Definition waits_left (c : call) : Z :=
  match call_progress c with
  | AwaitsResponse attempt _ =>
      backoff_budget delay (call_retries c - attempt) attempt
  | AwaitsTimer attempt =>
      backoff_budget delay (call_retries c - S attempt) (S attempt)
  | Settled _ => 0
  end.

Definition to_wait (calls : list call) : Z :=
  foldr Z.add 0 (map waits_left calls).

(** The calls are within their budgets, and with what they can still send
    and wait the log stays within [n] requests and [ms] milliseconds. *)
Definition within (n : nat) (ms : Z) (calls : list call) (w : world) : Prop :=
  Forall in_budget calls /\
  (fetches w + to_send calls <= n)%nat /\
  waited (trace w) + to_wait calls <= ms.

(** The models of a fan-out that have nothing cached for the prompt. *)
Definition misses (prompt : jsstring) (models : list jsstring) (w : world) : nat :=
  length (List.filter
            (fun m => bool_decide (modelCache w !! key m prompt = None)) models).

End CallsInFlight.

(** ** The analysis route *)

(** The requirements [analyzeWithGemini] hands to the selection, [None] for
    [null]. *)
Definition analysed (analysis : jsstring -> analysis_reply) (prompt : jsstring)
  : option requirements :=
  match analysis prompt with
  | AnalysisFails => Some (Requirements 50 50 50 50)
  | AnalysisParsed value => value
  end.

(** The world when [llmController] reaches [generateWithNvidia]: a token
    of the analysis channel taken, the analysis asked, a token of the model
    channel taken. *)
Definition before_generation (w : world) : world :=
  World (modelCache w)
    (trace w ++ [RemoveTokens AnalysisChannel 1; AskGemini;
                 RemoveTokens ModelChannel 1]).

(** An analysis service that is down. *)
Definition analysis_down : jsstring -> analysis_reply := fun _ => AnalysisFails.

(** ** Replies of the judge *)

(** A reply that is a number and nothing else. *)
Definition numeral (text : jsstring) : Prop :=
  text <> [] /\ Forall (fun c => is_digit c = true) text.

(** ** Prompts and their encoded text *)

(** [String.prototype.isWellFormed]: no lone surrogate; every element is a
    16-bit code unit. *)
Fixpoint isWellFormed (s : jsstring) : bool :=
  match s with
  | [] => true
  | c :: rest =>
      if is_high_surrogate c then
        match rest with
        | lo :: rest' => is_low_surrogate lo && isWellFormed rest'
        | [] => false
        end
      else negb (is_low_surrogate c) && (c <? 65536)%N && isWellFormed rest
  end.

(** The readers of the two encodings, used to show that the encoders lose
    nothing: the value of a base64url digit, the bytes of a base64url text,
    and the UTF-16 code units of a UTF-8 byte sequence. *)
Definition base64url_value (c : N) : N :=
  (if (65 <=? c) && (c <=? 90) then c - 65
   else if (97 <=? c) && (c <=? 122) then c - 97 + 26
   else if (48 <=? c) && (c <=? 57) then c - 48 + 52
   else if c =? 45 then 62 else 63)%N.

Fixpoint bytes_of_base64url (text : jsstring) : list N :=
  match text with
  | c0 :: c1 :: c2 :: c3 :: rest =>
      [base64url_value c0 * 4 + base64url_value c1 / 16;
       (base64url_value c1 mod 16) * 16 + base64url_value c2 / 4;
       (base64url_value c2 mod 4) * 64 + base64url_value c3]%N
      ++ bytes_of_base64url rest
  | [c0; c1; c2] =>
      [base64url_value c0 * 4 + base64url_value c1 / 16;
       (base64url_value c1 mod 16) * 16 + base64url_value c2 / 4]%N
  | [c0; c1] => [base64url_value c0 * 4 + base64url_value c1 / 16]%N
  | _ => []
  end.

Fixpoint utf16_of_utf8 (bytes : list N) : jsstring :=
  match bytes with
  | [] => []
  | b0 :: rest =>
      if (b0 <? 128)%N then b0 :: utf16_of_utf8 rest
      else if (b0 <? 224)%N then
        match rest with
        | b1 :: rest1 => ((b0 - 192) * 64 + (b1 - 128))%N :: utf16_of_utf8 rest1
        | _ => []
        end
      else if (b0 <? 240)%N then
        match rest with
        | b1 :: b2 :: rest2 =>
            ((b0 - 224) * 4096 + (b1 - 128) * 64 + (b2 - 128))%N
            :: utf16_of_utf8 rest2
        | _ => []
        end
      else
        match rest with
        | b1 :: b2 :: b3 :: rest3 =>
            let cp := ((b0 - 240) * 262144 + (b1 - 128) * 4096
                       + (b2 - 128) * 64 + (b3 - 128))%N in
            (55296 + (cp - 65536) / 1024)%N :: (56320 + (cp - 65536) mod 1024)%N
            :: utf16_of_utf8 rest3
        | _ => []
        end
  end.

(** * Properties *)

(** ** Indices *)

Lemma clamp_range (index n : Z) : 1 <= n -> 0 <= clamp index n <= n - 1.
Proof. unfold clamp. lia. Qed.

Lemma random_index_range (rnd : Q) (n : Z) :
  (0 <= rnd)%Q -> (rnd < 1)%Q -> 1 <= n -> 0 <= random_index rnd n <= n - 1.
Proof.
  intros Hlo Hhi Hn. unfold random_index.
  assert (Hn0 : (0 < inject_Z n)%Q) by (change (inject_Z 0 < inject_Z n)%Q; rewrite <- Zlt_Qlt; lia).
  split.
  - change 0 with (Qfloor 0). apply Qfloor_resp_le.
    apply Qmult_le_0_compat; [assumption | apply Qlt_le_weak, Hn0].
  - enough (Qfloor (rnd * inject_Z n) < n) by lia.
    rewrite Zlt_Qlt.
    apply Qle_lt_trans with (rnd * inject_Z n)%Q; [apply Qfloor_le |].
    apply Qlt_le_trans with (1 * inject_Z n)%Q;
      [apply Qmult_lt_compat_r; assumption | rewrite Qmult_1_l; apply Qle_refl].
Qed.

Lemma at_index_in_range {A} (xs : list A) (i : Z) :
  0 <= i <= Z.of_nat (length xs) - 1 -> exists x, at_index xs i = Some x /\ x ∈ xs.
Proof.
  intros Hi. unfold at_index.
  destruct (Z.ltb_spec i 0) as [|_]; [lia |].
  destruct (lookup_lt_is_Some_2 xs (Z.to_nat i)) as [x Hx]; [lia |].
  exists x. split; [exact Hx | eapply list_elem_of_lookup_2, Hx].
Qed.

Lemma length_pos_of_ne_nil {A} (xs : list A) : xs <> [] -> 1 <= Z.of_nat (length xs).
Proof. destruct xs; [congruence | cbn; lia]. Qed.

Lemma mounted_parseBestIndex_range (rnd : Q) (text : jsstring) (n : Z) :
  (0 <= rnd)%Q -> (rnd < 1)%Q -> 1 <= n ->
  0 <= MlControler.parseBestIndex rnd text n <= n - 1.
Proof.
  intros. unfold MlControler.parseBestIndex.
  destruct (match_first_digits text);
    [apply clamp_range | apply random_index_range]; assumption.
Qed.

Lemma strict_parseBestIndex_range (rnd : Q) (text : jsstring) (n : Z) :
  (0 <= rnd)%Q -> (rnd < 1)%Q -> 1 <= n ->
  0 <= JudgeController.parseBestIndex rnd text n <= n - 1.
Proof.
  intros. unfold JudgeController.parseBestIndex. cbv zeta.
  destruct (match_all_digits _);
    [apply clamp_range | apply random_index_range]; assumption.
Qed.

(** C1. For a list of n >= 1 candidates and any reply text of the judge
    (empty, without a number, or with a number out of range), the index
    [parseBestIndex] returns lies in [0, n-1], in both controllers, and
    [candidates[index]] is an element of the list. [rnd] is the draw of
    [Math.random()], a number in [0, 1). *)
Theorem parseBestIndex_in_range
    (rnd : Q) (text : jsstring) (candidates : list candidate) :
  (0 <= rnd)%Q -> (rnd < 1)%Q -> candidates <> [] ->
  let n := Z.of_nat (length candidates) in
  (0 <= MlControler.parseBestIndex rnd text n <= n - 1 /\
   exists c, at_index candidates (MlControler.parseBestIndex rnd text n) = Some c
             /\ c ∈ candidates) /\
  (0 <= JudgeController.parseBestIndex rnd text n <= n - 1 /\
   exists c, at_index candidates (JudgeController.parseBestIndex rnd text n) = Some c
             /\ c ∈ candidates).
Proof.
  intros Hlo Hhi Hne n.
  pose proof (length_pos_of_ne_nil _ Hne) as Hn.
  pose proof (mounted_parseBestIndex_range rnd text n Hlo Hhi Hn) as HA.
  pose proof (strict_parseBestIndex_range rnd text n Hlo Hhi Hn) as HB.
  repeat split; try apply HA; try apply HB; apply at_index_in_range; assumption.
Qed.

Lemma parseBestIndex_in_range_witness :
  (0 <= MlControler.parseBestIndex (1 # 2) (js "option 7") 2 <= 1 /\
   exists c, at_index two_candidates
               (MlControler.parseBestIndex (1 # 2) (js "option 7") 2) = Some c
             /\ c ∈ two_candidates) /\
  (0 <= JudgeController.parseBestIndex (1 # 2) (js "option 7") 2 <= 1 /\
   exists c, at_index two_candidates
               (JudgeController.parseBestIndex (1 # 2) (js "option 7") 2) = Some c
             /\ c ∈ two_candidates).
Proof.
  apply (parseBestIndex_in_range (1 # 2) (js "option 7") two_candidates);
    [discriminate | reflexivity | discriminate].
Defined.

(** ** The reply with wrapper text *)







(** ** The order on binary64 numbers *)

(** Comparisons of floats, through their specification on [spec_float]:
    [SFcompare] orders by sign, exponent and mantissa, and knows no order
    for NaN. *)

Lemma compare_cont_Eq (p q : positive) : Pos.compare_cont Eq p q = (p ?= q)%positive.
Proof. reflexivity. Qed.

Ltac sf_order :=
  repeat match goal with
  | s : bool |- _ => destruct s
  end; cbn; try congruence; try reflexivity;
  repeat match goal with
  | |- context [Pos.compare_cont Eq ?a ?b] => rewrite (compare_cont_Eq a b)
  | |- context [(?a ?= ?b)%Z] => destruct (Z.compare_spec a b); subst; cbn
  | |- context [(?a ?= ?b)%positive] => destruct (Pos.compare_spec a b); subst; cbn
  end; try congruence; try reflexivity; try lia.

Lemma SFltb_leb_trans (a b c : spec_float) :
  SFltb a b = true -> SFleb b c = true -> SFltb a c = true.
Proof.
  unfold SFltb, SFleb.
  destruct a as [sa|sa| |sa ma ea], b as [sb|sb| |sb mb eb], c as [sc|sc| |sc mc ec];
    cbn; try congruence; sf_order.
Qed.

Lemma SFltb_leb (a b : spec_float) : SFltb a b = true -> SFleb a b = true.
Proof. unfold SFltb, SFleb. destruct (SFcompare a b) as [[]|]; congruence. Qed.

Lemma SFltb_irrefl (a : spec_float) : SFltb a a = false.
Proof.
  unfold SFltb. destruct a as [sa|sa| |sa ma ea]; cbn; try reflexivity; sf_order.
Qed.

Lemma SFleb_false_ltb (a b : spec_float) :
  a <> S754_nan -> b <> S754_nan -> SFleb a b = false -> SFltb b a = true.
Proof.
  unfold SFltb, SFleb.
  destruct a as [sa|sa| |sa ma ea], b as [sb|sb| |sb mb eb];
    cbn; try congruence; sf_order.
Qed.

Section FloatOrder.
#[local] Open Scope float_scope.

Lemma ltb_leb_trans (x y z : float) :
  (x <? y) = true -> (y <=? z) = true -> (x <? z) = true.
Proof. rewrite !ltb_spec, leb_spec. apply SFltb_leb_trans. Qed.

Lemma ltb_leb (x y : float) : (x <? y) = true -> (x <=? y) = true.
Proof. rewrite ltb_spec, leb_spec. apply SFltb_leb. Qed.

Lemma ltb_irrefl (x : float) : (x <? x) = false.
Proof. rewrite ltb_spec. apply SFltb_irrefl. Qed.

Lemma ltb_trans (x y z : float) :
  (x <? y) = true -> (y <? z) = true -> (x <? z) = true.
Proof. intros Hxy Hyz. eapply ltb_leb_trans; [exact Hxy | apply ltb_leb, Hyz]. Qed.

Lemma not_nan_spec (x : float) : PrimFloat.is_nan x = false -> Prim2SF x <> S754_nan.
Proof.
  unfold PrimFloat.is_nan. rewrite FloatAxioms.eqb_spec. intros H Hnan.
  rewrite Hnan in H. discriminate H.
Qed.

Lemma ltb_not_nan_r (x y : float) : (x <? y) = true -> PrimFloat.is_nan y = false.
Proof.
  unfold PrimFloat.is_nan. rewrite ltb_spec, FloatAxioms.eqb_spec.
  unfold SFltb, SFeqb.
  destruct (Prim2SF x) as [sa|sa| |sa ma ea], (Prim2SF y) as [sb|sb| |sb mb eb];
    cbn; try congruence; sf_order.
Qed.

Lemma leb_false_ltb (x y : float) :
  PrimFloat.is_nan x = false -> PrimFloat.is_nan y = false ->
  (x <=? y) = false -> (y <? x) = true.
Proof.
  intros Hx Hy. rewrite ltb_spec, leb_spec.
  apply SFleb_false_ltb; apply not_nan_spec; assumption.
Qed.

End FloatOrder.

(** ** Heuristic selection *)

Section Selection.
#[local] Open Scope float_scope.

Variable req : requirements.

Abbreviation score_of entry := (MlControler.score req (snd entry)).

Lemma not_leb_of_not_ltb (b s x : float) :
  (b <? s) = true -> (b <? x) = false -> (s <=? x) = false.
Proof.
  intros Hbs Hbx. destruct (s <=? x) eqn:Hsx; [| reflexivity].
  rewrite (ltb_leb_trans b s x Hbs Hsx) in Hbx. discriminate.
Qed.

Lemma not_ltb_of_not_leb (s x : float) : (s <=? x) = false -> (s <? x) = false.
Proof.
  intros Hsx. destruct (s <? x) eqn:Hlt; [| reflexivity].
  rewrite (ltb_leb s x Hlt) in Hsx. discriminate.
Qed.

Lemma loop_invariant_holds (registry : list (jsstring * expert)) :
  loop_invariant req registry (loop_state req registry).
Proof.
  induction registry as [| x l IH] using rev_ind.
  - apply no_leader. constructor.
  - unfold loop_state. rewrite fold_left_app. cbn [fold_left].
    fold (loop_state req l). unfold MlControler.consider.
    destruct IH as [Hnone | k entry Hk Hpos Hearlier Hall]; cbn [fst snd].
    + destruct (neg_infinity <? score_of x) eqn:Hx.
      * apply (leader req _ (length l) x).
        -- apply list_lookup_middle. reflexivity.
        -- exact Hx.
        -- intros j e Hj He. rewrite lookup_app_l in He by exact Hj.
           apply (not_leb_of_not_ltb neg_infinity); [exact Hx |].
           rewrite Forall_forall in Hnone. apply Hnone.
           eapply list_elem_of_lookup_2, He.
        -- intros e He. apply elem_of_app in He as [He | He].
           ++ apply not_ltb_of_not_leb, (not_leb_of_not_ltb neg_infinity); [exact Hx |].
              rewrite Forall_forall in Hnone. apply Hnone, He.
           ++ apply list_elem_of_singleton in He. subst e. apply ltb_irrefl.
      * apply no_leader. apply Forall_app. split; [exact Hnone |].
        constructor; [exact Hx | constructor].
    + destruct (score_of entry <? score_of x) eqn:Hx.
      * apply (leader req _ (length l) x).
        -- apply list_lookup_middle. reflexivity.
        -- eapply ltb_trans; [exact Hpos | exact Hx].
        -- intros j e Hj He. rewrite lookup_app_l in He by exact Hj.
           apply (not_leb_of_not_ltb (score_of entry)); [exact Hx |].
           apply Hall. eapply list_elem_of_lookup_2, He.
        -- intros e He. apply elem_of_app in He as [He | He].
           ++ apply not_ltb_of_not_leb, (not_leb_of_not_ltb (score_of entry));
                [exact Hx | apply Hall, He].
           ++ apply list_elem_of_singleton in He. subst e. apply ltb_irrefl.
      * apply (leader req _ k entry).
        -- rewrite lookup_app_l; [exact Hk | eapply lookup_lt_Some, Hk].
        -- exact Hpos.
        -- intros j e Hj He. apply (Hearlier j e Hj).
           rewrite lookup_app_l in He; [exact He |].
           apply lookup_lt_Some in Hk. lia.
        -- intros e He. apply elem_of_app in He as [He | He]; [apply Hall, He |].
           apply list_elem_of_singleton in He. subst e. exact Hx.
Qed.

End Selection.

Lemma select_from_spec (req : requirements) (registry : list (jsstring * expert)) :
  (exists k entry,
      highest_first req registry k entry /\
      MlControler.select_from registry req =
        if truthy_string (fst entry) then fst entry else MlControler.default_model) \/
  (none_scores req registry /\
   MlControler.select_from registry req = MlControler.default_model).
Proof.
  unfold MlControler.select_from. fold (loop_state req registry).
  destruct (loop_invariant_holds req registry) as [Hnone | k entry Hk Hpos Hearlier Hall].
  - right. split; [exact Hnone | reflexivity].
  - left. exists k, entry. split; [| reflexivity].
    split; [exact Hk |]. split; [exact Hpos |]. split; [exact Hall |].
    intros j e Hj He.
    destruct (PrimFloat.is_nan (MlControler.score req (snd e))) eqn:Hnan;
      [right; reflexivity | left].
    apply leb_false_ltb;
      [eapply ltb_not_nan_r, Hpos | exact Hnan | eapply Hearlier; eassumption].
Qed.

Lemma EXPERT_MODELS_ids_truthy (k : nat) (entry : jsstring * expert) :
  MlControler.EXPERT_MODELS !! k = Some entry -> truthy_string (fst entry) = true.
Proof.
  destruct k as [| [| [| k]]]; cbn; intros H; try discriminate H;
    injection H as <-; reflexivity.
Qed.

(** C6. [selectOptimalModel] scores each model of the registry by
    coding * (req.coding / 100) + reasoning * (req.reasoning / 100) +
    math * (req.math / 100) + min(req.context / context, 1) * 25, in
    binary64 arithmetic, and returns the model with the strictly highest
    score, the earlier one on a tie; when no model has a score (each is NaN
    or -Infinity) it returns the fixed default meta/llama3-70b-instruct, as
    it does for a vector whose coding field is NaN. For the requirements
    (coding 90, reasoning 40, math 30, context 20) it returns
    deepseek-ai/deepseek-r1-distill-llama-8b, the model whose coding
    benchmark is 94.2. *)
Theorem selectOptimalModel_highest_score (req : requirements) :
  (forall entry, entry ∈ MlControler.EXPERT_MODELS ->
     MlControler.score req (snd entry) =
       (coding (bench (snd entry)) * (req_coding req / 100) +
        reasoning (bench (snd entry)) * (req_reasoning req / 100) +
        math (bench (snd entry)) * (req_math req / 100) +
        Math_min (req_context req / context (bench (snd entry))) 1 * 25)%float) /\
  ((exists k entry,
       highest_first req MlControler.EXPERT_MODELS k entry /\
       MlControler.selectOptimalModel req = fst entry) \/
   (none_scores req MlControler.EXPERT_MODELS /\
    MlControler.selectOptimalModel req = js "meta/llama3-70b-instruct")) /\
  MlControler.selectOptimalModel (Requirements nan 40 30 20)
    = js "meta/llama3-70b-instruct" /\
  MlControler.selectOptimalModel scenario
    = js "deepseek-ai/deepseek-r1-distill-llama-8b" /\
  (coding ∘ bench <$>
     MlControler.model_info (js "deepseek-ai/deepseek-r1-distill-llama-8b"))
    = Some 94.2%float.
Proof.
  split; [| split; [| split; [| split]]].
  - intros entry Hin. unfold MlControler.EXPERT_MODELS in Hin.
    repeat (apply elem_of_cons in Hin as [-> | Hin]); [reflexivity .. |].
    apply elem_of_nil in Hin. contradiction.
  - unfold MlControler.selectOptimalModel.
    destruct (select_from_spec req MlControler.EXPERT_MODELS)
      as [(k & entry & Hwin & Heq) | [Hnone Heq]].
    + left. exists k, entry. split; [exact Hwin |].
      rewrite Heq, (EXPERT_MODELS_ids_truthy k entry); [reflexivity | apply Hwin].
    + right. split; [exact Hnone | exact Heq].
  - vm_compute. reflexivity.
  - vm_compute. reflexivity.
  - vm_compute. reflexivity.
Qed.

(** ** The invoker and the cache *)

Lemma requests_app (t u : list event) : requests (t ++ u) = (requests t + requests u)%nat.
Proof. unfold requests. rewrite List.filter_app, length_app. reflexivity. Qed.

Lemma fetches_after_fetch (w : world) (model prompt : jsstring) cache :
  fetches (World cache (trace w ++ [Fetch model prompt])) = S (fetches w).
Proof. unfold fetches. cbn [trace]. rewrite requests_app. cbn. lia. Qed.

Section InvokerFacts.

Variable backend : nat -> jsstring -> jsstring -> http.
Variable read : http -> error + jsvalue.
Variables key model prompt : jsstring.

Abbreviation call := (cached_call backend read key model prompt).

(** The three ways a call can go. *)
Lemma cached_call_cases (w : world) :
  call w =
    match modelCache w !! key with
    | Some value => (inr value, w)
    | None =>
        match read (backend (fetches w) model prompt) with
        | inl e => (inl e, World (modelCache w) (trace w ++ [Fetch model prompt]))
        | inr result =>
            (inr result,
             World (<[key := result]> (modelCache w)) (trace w ++ [Fetch model prompt]))
        end
    end.
Proof.
  unfold cached_call, mbind, async_bind, await, cache_get, fetch, cache_set,
    resolve, throw.
  destruct (modelCache w !! key); [reflexivity |].
  destruct (read _); reflexivity.
Qed.

Lemma cached_call_hit (w : world) (value : jsvalue) :
  modelCache w !! key = Some value -> call w = (inr value, w).
Proof. intros H. rewrite cached_call_cases, H. reflexivity. Qed.

Lemma cached_call_success_stored (w w' : world) (value : jsvalue) :
  call w = (inr value, w') -> modelCache w' !! key = Some value.
Proof.
  rewrite cached_call_cases.
  destruct (modelCache w !! key) as [v|] eqn:Hk.
  - intros [= <- <-]. exact Hk.
  - destruct (read _); intros [= <- <-]. cbn. apply lookup_insert_eq.
Qed.

(** After a success, the same call again is a hit. *)
Lemma cached_call_again (w w' : world) (value : jsvalue) :
  call w = (inr value, w') -> call w' = (inr value, w').
Proof. intros H. apply cached_call_hit, (cached_call_success_stored w), H. Qed.

(** A call sends at most one request. *)
Lemma cached_call_fetches (w : world) :
  (fetches w <= fetches (snd (call w)) <= fetches w + 1)%nat.
Proof.
  rewrite cached_call_cases.
  destruct (modelCache w !! key); [cbn; lia |].
  destruct (read _); cbn [snd]; rewrite fetches_after_fetch; lia.
Qed.

(** A call that throws has missed the cache, sent one request, read an
    error from the response, and left the cache as it was. *)
Lemma cached_call_failure (w w' : world) (e : error) :
  call w = (inl e, w') ->
  modelCache w !! key = None /\
  read (backend (fetches w) model prompt) = inl e /\
  w' = World (modelCache w) (trace w ++ [Fetch model prompt]).
Proof.
  rewrite cached_call_cases.
  destruct (modelCache w !! key); [discriminate |].
  destruct (read _) eqn:Hr; intros [= <- <-]; auto.
Qed.

(** A call changes the cache only by storing its own result. *)
Lemma cached_call_cache (w : world) :
  modelCache (snd (call w)) = modelCache w \/
  exists result, fst (call w) = inr result /\
                 read (backend (fetches w) model prompt) = inr result /\
                 modelCache (snd (call w)) = <[key := result]> (modelCache w).
Proof.
  rewrite cached_call_cases.
  destruct (modelCache w !! key); [left; reflexivity |].
  destruct (read _) as [e | result]; [left; reflexivity |].
  right. exists result. auto.
Qed.

End InvokerFacts.

(** ** The retry wrapper *)

Lemma backoff_trace_requests (model prompt : jsstring) (delay : Z) (first retries : nat) :
  requests (backoff_trace model prompt delay first retries) = (retries + 1)%nat.
Proof.
  unfold backoff_trace. rewrite requests_app.
  change (requests [Fetch model prompt]) with 1%nat.
  revert first. induction retries as [| n IH]; intros first; [reflexivity |].
  cbn [seq flat_map].
  change (?a :: ?b :: ?t) with ([a; b] ++ t). rewrite requests_app.
  specialize (IH (S first)). cbn in *. lia.
Qed.

Lemma backoff_trace_delays (model prompt : jsstring) (delay : Z) (first retries : nat) :
  delays (backoff_trace model prompt delay first retries)
  = map (fun n => delay * Z.of_nat n) (seq (S first) retries).
Proof.
  unfold backoff_trace, delays. rewrite flat_map_app. cbn [flat_map].
  rewrite app_nil_r. revert first.
  induction retries as [| n IH]; intros first; [reflexivity |].
  cbn. rewrite IH. f_equal. f_equal. lia.
Qed.

Section RetryFacts.

Variable backend : nat -> jsstring -> jsstring -> http.
Variable read : http -> error + jsvalue.
Variables key model prompt : jsstring.
Variable delay : Z.

Hypothesis every_attempt_fails : forall k, failing (read (backend k model prompt)).

Lemma retry_loop_exhausted (remaining : nat) :
  forall (attempt : nat) (w : world),
    modelCache w !! key = None ->
    retry_loop (cached_call backend read key model prompt) delay remaining attempt w
    = (read (backend (fetches w + remaining)%nat model prompt),
       World (modelCache w)
         (trace w ++ backoff_trace model prompt delay attempt remaining)).
Proof.
  induction remaining as [| remaining IH]; intros attempt w Hmiss;
    cbn [retry_loop]; unfold try_catch; rewrite cached_call_cases, Hmiss;
    pose proof (every_attempt_fails (fetches w)) as Hfail;
    destruct (read (backend (fetches w) model prompt)) as [e |] eqn:He;
    try contradiction.
  - unfold throw. rewrite Nat.add_0_r, He. reflexivity.
  - unfold mbind, async_bind, await, log. cbn [modelCache trace].
    rewrite IH by exact Hmiss. cbn [modelCache trace].
    unfold fetches. cbn [trace]. rewrite !requests_app.
    change (requests [Fetch model prompt]) with 1%nat.
    change (requests [Delay _]) with 0%nat.
    replace (requests (trace w) + 1 + 0 + remaining)%nat
      with (requests (trace w) + S remaining)%nat by lia.
    f_equal. f_equal. unfold backoff_trace. cbn [seq flat_map].
    rewrite <- !app_assoc. reflexivity.
Qed.

End RetryFacts.

Lemma retry_loop_bound (read : http -> error + jsvalue)
    (key : jsstring -> jsstring -> jsstring) (delay : Z) :
  retry_bound read key delay
    (fun backend model prompt retries =>
       retry_loop (cached_call backend read (key model prompt) model prompt)
         delay retries 0).
Proof.
  intros backend model prompt retries w Hmiss Hfail. cbv beta.
  rewrite (retry_loop_exhausted backend read (key model prompt) model prompt
             delay Hfail retries 0%nat w Hmiss).
  cbn [fst snd trace modelCache].
  repeat split.
  - apply Hfail.
  - unfold fetches. cbn [trace].
    rewrite requests_app, backoff_trace_requests. reflexivity.
  - apply backoff_trace_delays.
Qed.

(** C5. In both files [callModelWithRetry] meets the retry bound with the
    base delay 2000 ms: a model whose every attempt fails is attempted
    exactly [retries + 1] times, the wrapper waits 2000 * n ms after the
    n-th failed attempt (linear, not exponential), and what it throws is the
    error of the last attempt, unchanged. *)
Theorem callModelWithRetry_retry_bound :
  retry_bound (MlControler.read_response 100)
    (fun model prompt => model ++ js "-" ++ prompt) 2000
    MlControler.callModelWithRetry /\
  retry_bound JudgeController.read_response JudgeController.cacheKey 2000
    JudgeController.callModelWithRetry.
Proof.
  split.
  - apply (retry_loop_bound (MlControler.read_response 100)
             (fun model prompt => model ++ js "-" ++ prompt) 2000).
  - apply (retry_loop_bound JudgeController.read_response
             JudgeController.cacheKey 2000).
Qed.

Lemma callModelWithRetry_retry_bound_witness :
  fst (JudgeController.callModelWithRetry refusing gemma (js "hi") 3 fresh)
    = inl (ApiError 500 (js "Internal Server Error")) /\
  trace (snd (JudgeController.callModelWithRetry refusing gemma (js "hi") 3 fresh))
    = [Fetch gemma (js "hi"); Delay 2000; Fetch gemma (js "hi"); Delay 4000;
       Fetch gemma (js "hi"); Delay 6000; Fetch gemma (js "hi")].
Proof.
  destruct (proj2 callModelWithRetry_retry_bound refusing gemma (js "hi") 3%nat fresh
              eq_refl (fun _ => I)) as (_ & Hthrown & Htrace & _).
  split; [exact Hthrown | exact Htrace].
Defined.

(** ** Cache idempotence *)

Lemma cached_call_idempotent (backend : nat -> jsstring -> jsstring -> http)
    (read : http -> error + jsvalue) (key model prompt : jsstring) :
  idempotent_once_cached key (cached_call backend read key model prompt).
Proof.
  split; [| split].
  - intros w value. apply cached_call_hit.
  - intros w w1 value H.
    pose proof (cached_call_again _ _ _ _ _ _ _ _ H) as Hagain.
    split; [eapply cached_call_success_stored, H |]. split; [exact Hagain |].
    unfold twice. rewrite H. cbn [snd]. rewrite Hagain. cbn [snd].
    pose proof (cached_call_fetches backend read key model prompt w) as Hle.
    rewrite H in Hle. cbn [snd] in Hle. lia.
  - intros w w1 e H.
    apply cached_call_failure in H as Hfail. destruct Hfail as (Hmiss & _ & ->).
    split; [reflexivity |].
    unfold twice. rewrite H. cbn [snd].
    rewrite (cached_call_cases backend read key model prompt (World _ _)).
    cbn [modelCache]. rewrite Hmiss.
    destruct (read _); cbn [snd]; unfold fetches; cbn [trace];
      rewrite !requests_app; cbn; lia.
Qed.

(** C4, as stated, fails: when the service refuses the request, two
    invocations of the same (model, prompt) pair send two requests, in
    either file. *)
Lemma two_invocations_two_requests :
  fetches (twice (JudgeController.callModel refusing gemma (js "hi")) fresh) = 2%nat /\
  fetches (twice (MlControler.callModel refusing gemma (js "hi")) fresh) = 2%nat /\
  ~ (fetches (twice (JudgeController.callModel refusing gemma (js "hi")) fresh) <= 1)%nat.
Proof. vm_compute. repeat split. lia. Qed.

(** C4, amended. Each of the three invokers ([callModel] of either file,
    [generateWithNvidia]) is idempotent once the pair is cached: it looks
    the key up first and on a hit returns the cached value with no request
    and no other effect; a first invocation that succeeds stores its value,
    and the second returns the identical value from the cache, one request
    at most for the two; a first invocation that fails stores nothing, and
    the second sends a request of its own. *)
Theorem model_call_idempotent_once_cached
    (backend : nat -> jsstring -> jsstring -> http) (model prompt : jsstring) :
  idempotent_once_cached (JudgeController.cacheKey model prompt)
    (JudgeController.callModel backend model prompt) /\
  idempotent_once_cached (model ++ js "-" ++ prompt)
    (MlControler.callModel backend model prompt) /\
  idempotent_once_cached (model ++ js "-" ++ base64url prompt)
    (MlControler.generateWithNvidia backend model prompt).
Proof. split; [| split]; apply cached_call_idempotent. Qed.

Lemma model_call_idempotent_once_cached_witness :
  JudgeController.callModel answering gemma (js "hi") fresh
    = (inr (Some answer),
       World {[ JudgeController.cacheKey gemma (js "hi") := Some answer ]}
         [Fetch gemma (js "hi")]) /\
  JudgeController.callModel answering gemma (js "hi")
    (World {[ JudgeController.cacheKey gemma (js "hi") := Some answer ]}
       [Fetch gemma (js "hi")])
    = (inr (Some answer),
       World {[ JudgeController.cacheKey gemma (js "hi") := Some answer ]}
         [Fetch gemma (js "hi")]).
Proof.
  assert (Hfirst : JudgeController.callModel answering gemma (js "hi") fresh
    = (inr (Some answer),
       World {[ JudgeController.cacheKey gemma (js "hi") := Some answer ]}
         [Fetch gemma (js "hi")])) by reflexivity.
  split; [exact Hfirst |].
  exact (proj1 (proj2 (proj1 (proj2 (proj1
           (model_call_idempotent_once_cached answering gemma (js "hi"))))
           _ _ _ Hfirst))).
Defined.

(** ** Cache writes and failed attempts *)

(** In the strict controller a failed attempt leaves the cache as it was,
    whatever made it fail. *)
Lemma strict_callModel_failure_keeps_cache
    (backend : nat -> jsstring -> jsstring -> http) (model prompt : jsstring)
    (w w' : world) (e : error) :
  JudgeController.callModel backend model prompt w = (inl e, w') ->
  modelCache w' = modelCache w.
Proof.
  intros H. apply cached_call_failure in H as (_ & _ & ->). reflexivity.
Qed.

(** In the strict controller the cache is written only with the non-empty
    text of a well-formed successful response. *)
Lemma strict_callModel_cache_write
    (backend : nat -> jsstring -> jsstring -> http) (model prompt : jsstring)
    (w : world) :
  modelCache (snd (JudgeController.callModel backend model prompt w)) = modelCache w \/
  exists text,
    text <> [] /\
    backend (fetches w) model prompt = OkJson (Message (Some text)) /\
    fst (JudgeController.callModel backend model prompt w) = inr (Some text) /\
    modelCache (snd (JudgeController.callModel backend model prompt w))
      = <[JudgeController.cacheKey model prompt := Some text]> (modelCache w).
Proof.
  unfold JudgeController.callModel.
  destruct (cached_call_cache backend JudgeController.read_response
              (JudgeController.cacheKey model prompt) model prompt w)
    as [Hsame | (result & Hfst & Hread & Hcache)]; [left; exact Hsame | right].
  destruct (backend (fetches w) model prompt) as [| | [| [text |]] |];
    cbn in Hread; try discriminate Hread.
  destruct text as [| c text]; cbn in Hread; [discriminate Hread |].
  injection Hread as <-. exists (c :: text).
  split; [discriminate |]. split; [reflexivity |]. split; assumption.
Qed.

(** C10 names a defect of [mlcontroler.js]. For a response whose message
    lacks [content], [generateWithNvidia] and [callModel] of that file do
    not fail: they store [undefined] under the key and return it, and the
    next caller is served [undefined] from the cache with no request sent;
    [callModel] of the strict controller throws on the same response and
    stores nothing. *)
Theorem missing_content_is_cached :
  MlControler.generateWithNvidia contentless gemma (js "hi") fresh
    = (inr None,
       World {[ gemma ++ js "-" ++ base64url (js "hi") := None ]}
         [Fetch gemma (js "hi")]) /\
  MlControler.generateWithNvidia contentless gemma (js "hi")
    (snd (MlControler.generateWithNvidia contentless gemma (js "hi") fresh))
    = (inr None,
       World {[ gemma ++ js "-" ++ base64url (js "hi") := None ]}
         [Fetch gemma (js "hi")]) /\
  MlControler.callModel contentless gemma (js "hi") fresh
    = (inr None,
       World {[ gemma ++ js "-" ++ js "hi" := None ]} [Fetch gemma (js "hi")]) /\
  JudgeController.callModel contentless gemma (js "hi") fresh
    = (inl InvalidFormat, World ∅ [Fetch gemma (js "hi")]).
Proof. repeat split; reflexivity. Qed.

(** ** The fan-out *)

(** *** The event loop *)

Lemma pending_spec (calls : list call) (i : nat) :
  i ∈ pending calls <-> exists c, calls !! i = Some c /\ is_pending c = true.
Proof.
  unfold pending. rewrite list_elem_of_In, filter_In, <- list_elem_of_In, elem_of_seq.
  split.
  - intros [_ H]. destruct (calls !! i) as [c |]; [| discriminate H].
    exists c. split; [reflexivity | exact H].
  - intros (c & Hc & Hp). rewrite Hc. split; [| exact Hp].
    apply lookup_lt_Some in Hc. lia.
Qed.

Lemma pending_nil_settled (calls : list call) :
  pending calls = [] -> Forall (fun c => is_pending c = false) calls.
Proof.
  intros Hnil. apply Forall_lookup. intros i c Hc.
  destruct (is_pending c) eqn:Hp; [| reflexivity].
  assert (i ∈ pending calls) as Hin by (apply pending_spec; eauto).
  rewrite Hnil in Hin. apply elem_of_nil in Hin. contradiction.
Qed.

Lemma settled_length (calls : list call) :
  Forall (fun c => is_pending c = false) calls ->
  map call_progress calls = map Settled (omap settled calls).
Proof.
  induction 1 as [| c calls Hc _ IH]; [reflexivity |].
  cbn [map]. rewrite IH. unfold is_pending in Hc.
  change (omap settled (c :: calls))
    with (match settled c with Some r => r :: omap settled calls
          | None => omap settled calls end).
  unfold settled at 2. destruct (call_progress c); try discriminate Hc. reflexivity.
Qed.

Section CallsInFlightFacts.

Variable backend : nat -> jsstring -> jsstring -> http.
Variable read : http -> error + jsvalue.
Variable key : jsstring -> jsstring -> jsstring.
Variable delay : Z.
Variable schedule : nat -> nat.

#[local] Abbreviation resume' := (resume backend read key delay).
#[local] Abbreviation loop := (event_loop backend read key delay schedule).
#[local] Abbreviation call_key := (call_key key).

Lemma resume_same_call (c : call) (w : world) :
  call_model (fst (resume' c w)) = call_model c /\
  call_prompt (fst (resume' c w)) = call_prompt c /\
  call_retries (fst (resume' c w)) = call_retries c.
Proof.
  unfold resume, attempt_call. destruct (call_progress c) as [a r | a | s].
  - destruct (read r); [destruct (a =? call_retries c)%nat |]; cbn; auto.
  - destruct (modelCache w !! _); cbn; auto.
  - cbn; auto.
Qed.

(** An invariant of the steps is an invariant of the loop. *)
Lemma event_loop_invariant (P : list call -> world -> Prop) :
  (forall calls w i c,
      P calls w -> calls !! i = Some c -> is_pending c = true ->
      P (<[i := fst (resume' c w)]> calls) (snd (resume' c w))) ->
  forall fuel step calls w,
    P calls w -> P (fst (loop fuel step calls w)) (snd (loop fuel step calls w)).
Proof.
  intros Hstep. induction fuel as [| fuel IH]; intros step calls w HP; [exact HP |].
  cbn [event_loop]. destruct (pending calls) as [| first others] eqn:Hpending; [exact HP |].
  set (i := nth _ _ _).
  assert (Hi : i ∈ pending calls).
  { rewrite Hpending. apply list_elem_of_In, nth_In, Nat.mod_upper_bound. discriminate. }
  apply pending_spec in Hi as (c & Hc & Hp). rewrite Hc.
  specialize (Hstep calls w i c HP Hc Hp).
  destruct (resume' c w) as [c' w']. apply IH, Hstep.
Qed.

(** *** Every call settles *)

Lemma awaits_left_insert (calls : list call) (i : nat) (c c' : call) :
  calls !! i = Some c ->
  (awaits_left (<[i := c']> calls) + steps_left c = awaits_left calls + steps_left c')%nat.
Proof.
  revert i. induction calls as [| x calls IH]; intros [| i] Hc; try discriminate Hc.
  - injection Hc as ->. unfold awaits_left.
    change (<[0%nat := c']> (c :: calls)) with (c' :: calls). cbn [map foldr]. lia.
  - change ((x :: calls) !! S i) with (calls !! i) in Hc. specialize (IH i Hc).
    change (<[S i := c']> (x :: calls)) with (x :: <[i := c']> calls).
    unfold awaits_left in *. cbn [map foldr]. lia.
Qed.

Lemma steps_left_le (calls : list call) (i : nat) (c : call) :
  calls !! i = Some c -> (steps_left c <= awaits_left calls)%nat.
Proof.
  revert i. induction calls as [| x calls IH]; intros [| i] Hc; try discriminate Hc;
    unfold awaits_left in *; cbn [map foldr].
  - injection Hc as ->. lia.
  - change ((x :: calls) !! S i) with (calls !! i) in Hc. specialize (IH i Hc). lia.
Qed.

Lemma resume_in_budget (c : call) (w : world) :
  in_budget c -> in_budget (fst (resume' c w)).
Proof.
  unfold in_budget, resume, attempt_call.
  destruct (call_progress c) as [a r | a | s] eqn:Hp; intros Hb.
  - destruct (read r); [destruct (a =? call_retries c)%nat eqn:E |]; cbn; auto.
    apply Nat.eqb_neq in E. lia.
  - destruct (modelCache w !! _); cbn; [exact I | lia].
  - cbn [fst]. rewrite Hp. exact I.
Qed.

Lemma resume_steps_left (c : call) (w : world) :
  in_budget c -> is_pending c = true ->
  (steps_left (fst (resume' c w)) < steps_left c)%nat.
Proof.
  unfold in_budget, is_pending, steps_left, resume, attempt_call.
  destruct (call_progress c) as [a r | a | s]; intros Hb Hp; [| | discriminate Hp].
  - destruct (read r); [destruct (a =? call_retries c)%nat eqn:E |]; cbn; lia.
  - destruct (modelCache w !! _); cbn; lia.
Qed.

Lemma start_all_length (models : list jsstring) (prompt : jsstring) (retries : nat) :
  forall w, length (fst (start_all backend key models prompt retries w)) = length models.
Proof.
  induction models as [| m rest IH]; intros w; [reflexivity |].
  cbn [start_all]. destruct (attempt_call _ _ _ _ _ _ w) as [c w1].
  specialize (IH w1). destruct (start_all _ _ rest _ _ w1) as [cs w2].
  cbn in *. lia.
Qed.

Lemma attempt_call_in_budget (model prompt : jsstring) (retries : nat) (w : world) :
  in_budget (fst (attempt_call backend key model prompt retries 0 w)).
Proof.
  unfold attempt_call, in_budget. destruct (modelCache w !! _); cbn; [exact I | lia].
Qed.

Lemma start_all_in_budget (models : list jsstring) (prompt : jsstring) (retries : nat) :
  forall w, Forall in_budget (fst (start_all backend key models prompt retries w)).
Proof.
  induction models as [| m rest IH]; intros w; [constructor |].
  cbn [start_all].
  pose proof (attempt_call_in_budget m prompt retries w) as Hc.
  destruct (attempt_call _ _ _ _ _ _ w) as [c w1].
  specialize (IH w1). destruct (start_all _ _ rest _ _ w1) as [cs w2].
  constructor; assumption.
Qed.

Lemma event_loop_in_budget (fuel step : nat) (calls : list call) (w : world) :
  Forall in_budget calls -> Forall in_budget (fst (loop fuel step calls w)).
Proof.
  apply (event_loop_invariant (fun calls _ => Forall in_budget calls)).
  intros cs w' i c Hall Hc _. apply Forall_insert; [exact Hall |].
  apply resume_in_budget. eapply Forall_lookup_1; eassumption.
Qed.

Lemma event_loop_length (fuel step : nat) (calls : list call) (w : world) :
  length (fst (loop fuel step calls w)) = length calls.
Proof.
  apply (event_loop_invariant (fun cs _ => length cs = length calls)); [| reflexivity].
  intros cs w' i c Hlen _ _. rewrite length_insert. exact Hlen.
Qed.

(** With the awaits left for fuel, the loop ends with no call pending. *)
Lemma event_loop_settles (fuel : nat) :
  forall step calls w,
    Forall in_budget calls -> (awaits_left calls <= fuel)%nat ->
    pending (fst (loop fuel step calls w)) = [].
Proof.
  induction fuel as [| fuel IH]; intros step calls w Hb Hfuel.
  - cbn [event_loop fst]. destruct (pending calls) as [| i rest] eqn:Hp; [reflexivity |].
    assert (Hi : i ∈ pending calls) by (rewrite Hp; left).
    apply pending_spec in Hi as (c & Hc & Hpend).
    pose proof (resume_steps_left c w (Forall_lookup_1 _ _ _ _ Hb Hc) Hpend).
    pose proof (steps_left_le calls i c Hc). lia.
  - cbn [event_loop]. destruct (pending calls) as [| first others] eqn:Hpending;
      [exact Hpending |].
    set (i := nth _ _ _).
    assert (Hi : i ∈ pending calls).
    { rewrite Hpending. apply list_elem_of_In, nth_In, Nat.mod_upper_bound. discriminate. }
    apply pending_spec in Hi as (c & Hc & Hp). rewrite Hc.
    pose proof (resume_steps_left c w (Forall_lookup_1 _ _ _ _ Hb Hc) Hp) as Hless.
    pose proof (resume_in_budget c w (Forall_lookup_1 _ _ _ _ Hb Hc)) as Hb'.
    pose proof (awaits_left_insert calls i c (fst (resume' c w)) Hc) as Hsum.
    destruct (resume' c w) as [c' w']. cbn [fst] in *.
    apply IH; [apply Forall_insert; assumption | lia].
Qed.

(** [Promise.allSettled] reports one result for each call. *)
Lemma allSettled_length (calls : list call) (w : world) :
  Forall in_budget calls ->
  length (fst (allSettled backend read key delay schedule calls w)) = length calls.
Proof.
  intros Hb. unfold allSettled.
  pose proof (event_loop_settles (awaits_left calls) 0 calls w Hb (Nat.le_refl _)) as Hnone.
  pose proof (event_loop_length (awaits_left calls) 0 calls w) as Hlen.
  fold (awaits_left calls).
  destruct (loop (awaits_left calls) 0%nat calls w) as [calls' w']. cbn [fst] in *.
  apply pending_nil_settled, settled_length in Hnone.
  apply (f_equal length) in Hnone. rewrite !length_map in Hnone. lia.
Qed.

(** *** What each call got, and how it ended *)

Lemma answered_app (n : nat) (t u : list event) :
  answered backend n (t ++ u)
  = answered backend n t ++ answered backend (n + requests t) u.
Proof.
  revert n. induction t as [| e t IH]; intros n.
  - cbn. rewrite Nat.add_0_r. reflexivity.
  - destruct e; cbn [app answered]; rewrite IH; unfold requests; cbn [List.filter is_fetch length];
      rewrite ?Nat.add_succ_r; reflexivity.
Qed.

Lemma responses_app (w0 w w' : world) (evs : list event) (model prompt : jsstring) :
  trace w0 `prefix_of` trace w -> trace w' = trace w ++ evs ->
  responses backend w0 w' model prompt
  = responses backend w0 w model prompt
    ++ omap (answer_to model prompt) (answered backend (fetches w) evs).
Proof.
  intros [e He] Hw'. unfold responses, fetches. rewrite Hw', He, <- app_assoc.
  rewrite !drop_app_length, answered_app, omap_app, requests_app. reflexivity.
Qed.

Lemma responses_refl (w0 : world) (model prompt : jsstring) :
  responses backend w0 w0 model prompt = [].
Proof. unfold responses. rewrite drop_all. reflexivity. Qed.

Section Invariant.

Variable w0 : world.

#[local] Abbreviation call_inv := (call_inv backend read key w0).
#[local] Abbreviation calls_inv := (calls_inv backend read key w0).

Lemma call_inv_frame (w w' : world) (c : call) :
  modelCache w' !! call_key c = modelCache w !! call_key c ->
  responses backend w0 w' (call_model c) (call_prompt c)
    = responses backend w0 w (call_model c) (call_prompt c) ->
  call_inv w c -> call_inv w' c.
Proof. unfold call_inv. intros -> ->. exact id. Qed.

Lemma call_key_resume (c : call) (w : world) :
  call_key (fst (resume' c w)) = call_key c.
Proof.
  unfold call_key. destruct (resume_same_call c w) as (-> & -> & _). reflexivity.
Qed.

Lemma answer_to_other (model prompt m p : jsstring) (n : nat) :
  key m p <> key model prompt ->
  omap (answer_to model prompt) (answered backend n [Fetch m p]) = [].
Proof.
  intros Hne. cbn. unfold answer_to. cbn.
  destruct (decide (m = model /\ p = prompt)) as [[-> ->] |]; [contradiction | reflexivity].
Qed.

Lemma answer_to_self (model prompt : jsstring) (n : nat) :
  omap (answer_to model prompt) (answered backend n [Fetch model prompt])
  = [backend n model prompt].
Proof.
  cbn. unfold answer_to. cbn.
  destruct (decide (model = model /\ prompt = prompt)) as [| Hne]; [reflexivity |].
  exfalso. apply Hne. split; reflexivity.
Qed.

(** A step of one call leaves the other calls as they were. *)
Lemma resume_frame (c other : call) (w : world) :
  trace w0 `prefix_of` trace w ->
  call_key other <> call_key c ->
  call_inv w other -> call_inv (snd (resume' c w)) other.
Proof.
  intros Hpre Hne. apply call_inv_frame.
  - unfold resume, attempt_call.
    destruct (call_progress c) as [a r | a | s].
    + destruct (read r); [destruct (a =? call_retries c)%nat |]; cbn [snd modelCache];
        try reflexivity.
      apply lookup_insert_ne. intros Heq. apply Hne. symmetry. exact Heq.
    + destruct (modelCache w !! _); reflexivity.
    + reflexivity.
  - unfold resume, attempt_call.
    destruct (call_progress c) as [a r | a | s].
    + destruct (read r); [destruct (a =? call_retries c)%nat |]; cbn [snd];
        try reflexivity.
      rewrite (responses_app w0 w _ [Delay (delay * (Z.of_nat a + 1))]);
        [apply app_nil_r | exact Hpre | reflexivity].
    + destruct (modelCache w !! _); cbn [snd]; [reflexivity |].
      rewrite (responses_app w0 w _ [Fetch (call_model c) (call_prompt c)]);
        [| exact Hpre | reflexivity].
      rewrite answer_to_other; [apply app_nil_r |].
      intros Heq. apply Hne. symmetry. exact Heq.
    + reflexivity.
Qed.

Lemma resume_world (c : call) (w : world) :
  call_inv w c ->
  trace w `prefix_of` trace (snd (resume' c w)) /\
  modelCache w ⊆ modelCache (snd (resume' c w)).
Proof.
  unfold call_inv, resume, attempt_call. fold (call_key c).
  destruct (call_progress c) as [a r | a | s].
  - intros (_ & Hmiss & _).
    destruct (read r); [destruct (a =? call_retries c)%nat |]; cbn [snd trace modelCache].
    + split; reflexivity.
    + split; [apply prefix_app_r |]; reflexivity.
    + split; [reflexivity | apply insert_subseteq, Hmiss].
  - intros _. destruct (modelCache w !! _); cbn [snd trace modelCache].
    + split; reflexivity.
    + split; [apply prefix_app_r |]; reflexivity.
  - intros _. split; reflexivity.
Qed.

(** The step of a call keeps what holds of it. *)
Lemma resume_self (c : call) (w : world) :
  trace w0 `prefix_of` trace w ->
  call_inv w c -> call_inv (snd (resume' c w)) (fst (resume' c w)).
Proof.
  intros Hpre. unfold call_inv at 1.
  destruct (call_progress c) as [a r | a | s] eqn:Hprogress.
  - intros (Hmiss0 & Hmiss & Ha & failed & Hgot & Hlen & Hfailed).
    unfold resume. rewrite Hprogress.
    destruct (read r) as [e | value] eqn:Hread;
      [destruct (a =? call_retries c)%nat eqn:Hlast |];
      unfold call_inv, call_key; cbn [fst snd call_progress call_model call_prompt
                                       call_retries modelCache];
      fold (call_key c).
    + apply Nat.eqb_eq in Hlast. split; [| discriminate].
      rewrite Hmiss0. exists failed, r. rewrite Hread.
      split; [exact Hgot |]. split; [exact Hfailed |]. split; [reflexivity |].
      split; [lia |]. intros _. lia.
    + apply Nat.eqb_neq in Hlast.
      split; [exact Hmiss0 |]. split; [exact Hmiss |]. split; [lia |].
      rewrite (responses_app w0 w _ [Delay (delay * (Z.of_nat a + 1))]);
        [| exact Hpre | reflexivity].
      cbn [answered omap]. rewrite app_nil_r, Hgot, length_app. cbn [length].
      split; [lia |]. apply Forall_app. split; [exact Hfailed |].
      constructor; [| constructor]. rewrite Hread. exact I.
    + split.
      * rewrite Hmiss0. exists failed, r. rewrite Hread.
        split; [exact Hgot |]. split; [exact Hfailed |]. split; [reflexivity |].
        split; [lia |]. intros [].
      * intros v [= <-]. apply lookup_insert_eq.
  - intros (Hmiss0 & Hmiss & Ha & Hlen & Hfailed).
    unfold resume, attempt_call. rewrite Hprogress. fold (call_key c). rewrite Hmiss.
    unfold call_inv, call_key; cbn [fst snd call_progress call_model call_prompt
                                     call_retries modelCache];
      fold (call_key c).
    split; [exact Hmiss0 |]. split; [exact Hmiss |]. split; [lia |].
    exists (responses backend w0 w (call_model c) (call_prompt c)).
    rewrite (responses_app w0 w _ [Fetch (call_model c) (call_prompt c)]);
      [| exact Hpre | reflexivity].
    rewrite answer_to_self. split; [reflexivity |]. split; [exact Hlen | exact Hfailed].
  - intros H. unfold resume. rewrite Hprogress. cbn [fst snd].
    unfold call_inv. rewrite Hprogress. exact H.
Qed.

Lemma calls_inv_step (calls : list call) (w : world) (i : nat) (c : call) :
  calls_inv calls w -> calls !! i = Some c ->
  calls_inv (<[i := fst (resume' c w)]> calls) (snd (resume' c w)).
Proof.
  intros (Hpre & Hsub & Hdup & Hall) Hc.
  pose proof (resume_world c w (Hall i c Hc)) as [Hpre' Hsub'].
  split; [etransitivity; eassumption |]. split; [etransitivity; eassumption |].
  split.
  - replace (map call_key (<[i := fst (resume' c w)]> calls)) with (map call_key calls);
      [exact Hdup |].
    change (map call_key ?l) with (call_key <$> l).
    rewrite list_fmap_insert, call_key_resume.
    symmetry. apply list_insert_id. rewrite list_lookup_fmap, Hc. reflexivity.
  - intros j other Hj. destruct (decide (j = i)) as [-> | Hne].
    + rewrite list_lookup_insert_eq in Hj by (eapply lookup_lt_Some, Hc).
      injection Hj as <-. apply resume_self; [exact Hpre | apply (Hall i c Hc)].
    + rewrite list_lookup_insert_ne in Hj by congruence.
      apply resume_frame; [exact Hpre | | apply (Hall j other Hj)].
      intros Heq. apply Hne.
      eapply NoDup_lookup; [exact Hdup | |];
        change (map call_key calls) with (call_key <$> calls);
        rewrite list_lookup_fmap.
      * rewrite Hj. reflexivity.
      * rewrite Hc, Heq. reflexivity.
Qed.

Lemma event_loop_calls_inv (fuel step : nat) (calls : list call) (w : world) :
  calls_inv calls w ->
  calls_inv (fst (loop fuel step calls w)) (snd (loop fuel step calls w)).
Proof.
  apply event_loop_invariant. intros cs w' i c Hinv Hc _.
  apply calls_inv_step; assumption.
Qed.

(** What holds once the calls are started. *)

Lemma answers_to_others (model prompt : jsstring) (models : list jsstring)
    (evs : list event) :
  (forall m, m ∈ models -> key m prompt <> key model prompt) ->
  Forall (fun e => exists m, m ∈ models /\ e = Fetch m prompt) evs ->
  forall n, omap (answer_to model prompt) (answered backend n evs) = [].
Proof.
  intros Hne. induction 1 as [| e evs (m & Hm & ->) _ IH]; intros n; [reflexivity |].
  change (Fetch m prompt :: evs) with ([Fetch m prompt] ++ evs).
  rewrite answered_app, omap_app, answer_to_other, IH by (apply Hne, Hm). reflexivity.
Qed.

Lemma start_all_inv (prompt : jsstring) (retries : nat) (models : list jsstring) :
  NoDup (map (fun m => key m prompt) models) ->
  forall w,
    trace w0 `prefix_of` trace w ->
    modelCache w = modelCache w0 ->
    (forall m, m ∈ models -> responses backend w0 w m prompt = []) ->
    modelCache (snd (start_all backend key models prompt retries w)) = modelCache w0 /\
    (exists evs,
        trace (snd (start_all backend key models prompt retries w)) = trace w ++ evs /\
        Forall (fun e => exists m, m ∈ models /\ e = Fetch m prompt) evs) /\
    Forall2 (call_of prompt retries) models
      (fst (start_all backend key models prompt retries w)) /\
    (forall i c,
        fst (start_all backend key models prompt retries w) !! i = Some c ->
        call_inv (snd (start_all backend key models prompt retries w)) c).
Proof.
  induction models as [| model rest IH]; intros Hdup w Hpre Hcache Hnone.
  - cbn. split; [exact Hcache |]. split; [exists []; rewrite app_nil_r; auto |].
    split; [constructor |]. intros i c Hc. discriminate Hc.
  - cbn [map] in Hdup. apply NoDup_cons in Hdup as [Hfresh Hdup].
    assert (Hother : forall m, m ∈ rest -> key m prompt <> key model prompt).
    { intros m Hm Heq. apply Hfresh. rewrite <- Heq.
      apply (list_elem_of_fmap_2 (fun m => key m prompt)), Hm. }
    cbn [start_all]. unfold attempt_call.
    destruct (modelCache w !! key model prompt) as [value |] eqn:Hlookup.
    + destruct (IH Hdup w Hpre Hcache) as (Hcache' & (evs & Hevs & Hall) & Hof & Hinv).
      { intros m Hm. apply Hnone. right. exact Hm. }
      destruct (start_all backend key rest prompt retries w) as [cs w2].
      cbn [fst snd] in *.
      split; [exact Hcache' |]. split.
      { exists evs. split; [exact Hevs |].
        eapply Forall_impl; [exact Hall |]. intros e (m & Hm & ->).
        exists m. split; [right; exact Hm | reflexivity]. }
      split; [constructor; [repeat split | exact Hof] |].
      intros [| i] c Hc; [| apply (Hinv i c Hc)].
      injection Hc as <-. unfold call_inv, call_key.
      cbn [call_progress call_model call_prompt call_retries].
      rewrite (responses_app w0 w w2 evs) by assumption.
      rewrite (answers_to_others model prompt rest evs Hother Hall).
      rewrite Hnone by left. rewrite <- Hcache, Hlookup.
      split; [split; reflexivity |]. intros v [= <-].
      rewrite Hcache', <- Hcache. exact Hlookup.
    + set (w1 := World (modelCache w) (trace w ++ [Fetch model prompt])).
      assert (Hpre1 : trace w0 `prefix_of` trace w1)
        by (etransitivity; [exact Hpre | apply prefix_app_r; reflexivity]).
      destruct (IH Hdup w1 Hpre1 Hcache) as (Hcache' & (evs & Hevs & Hall) & Hof & Hinv).
      { intros m Hm.
        rewrite (responses_app w0 w w1 [Fetch model prompt]) by (assumption || reflexivity).
        rewrite Hnone by (right; exact Hm).
        apply answer_to_other. intros Heq. apply (Hother m Hm). symmetry. exact Heq. }
      destruct (start_all backend key rest prompt retries w1) as [cs w2].
      cbn [fst snd] in *.
      split; [exact Hcache' |]. split.
      { exists (Fetch model prompt :: evs). split.
        - rewrite Hevs. unfold w1. cbn [trace]. rewrite <- app_assoc. reflexivity.
        - constructor; [exists model; split; [left | reflexivity] |].
          eapply Forall_impl; [exact Hall |]. intros e (m & Hm & ->).
          exists m. split; [right; exact Hm | reflexivity]. }
      split; [constructor; [repeat split | exact Hof] |].
      intros [| i] c Hc; [| apply (Hinv i c Hc)].
      injection Hc as <-. unfold call_inv, call_key.
      cbn [call_progress call_model call_prompt call_retries].
      rewrite <- Hcache, Hlookup, Hcache', <- Hcache, Hlookup.
      split; [reflexivity |]. split; [reflexivity |]. split; [lia |].
      exists []. split; [| split; [reflexivity | constructor]].
      rewrite (responses_app w0 w1 w2 evs) by assumption.
      rewrite (answers_to_others model prompt rest evs Hother Hall).
      rewrite (responses_app w0 w w1 [Fetch model prompt]) by (assumption || reflexivity).
      rewrite Hnone by left. rewrite answer_to_self, app_nil_r. reflexivity.
Qed.

End Invariant.

#[local] Abbreviation call_inv := (call_inv backend read key).
#[local] Abbreviation calls_inv := (calls_inv backend read key).
#[local] Abbreviation fan := (fan backend read key delay schedule).

(** *** The fan-out as a whole *)

Lemma event_loop_call_of (prompt : jsstring) (retries : nat) (models : list jsstring)
    (fuel step : nat) (calls : list call) (w : world) :
  Forall2 (call_of prompt retries) models calls ->
  Forall2 (call_of prompt retries) models (fst (loop fuel step calls w)).
Proof.
  apply (event_loop_invariant
           (fun cs _ => Forall2 (call_of prompt retries) models cs)).
  intros cs w' i c Hall Hc _.
  apply Forall2_lookup. intros j. destruct (decide (j = i)) as [-> | Hne].
  - rewrite list_lookup_insert_eq by (eapply lookup_lt_Some, Hc).
    pose proof (Forall2_lookup_r _ _ _ _ _ Hall Hc) as (m & Hm & Hof).
    rewrite Hm. constructor. unfold call_of in *.
    destruct (resume_same_call c w') as (-> & -> & ->). exact Hof.
  - rewrite list_lookup_insert_ne by congruence.
    apply Forall2_lookup. exact Hall.
Qed.

Lemma settled_results (Q : jsstring -> settlement -> Prop)
    (models : list jsstring) (calls : list call) :
  Forall2 (fun m c => exists r, call_progress c = Settled r /\ Q m r) models calls ->
  Forall2 Q models (omap settled calls).
Proof.
  induction 1 as [| m c models calls (r & Hr & HQ) _ IH]; [constructor |].
  change (omap settled (c :: calls))
    with (match settled c with Some r => r :: omap settled calls
          | None => omap settled calls end).
  unfold settled at 1. rewrite Hr. constructor; assumption.
Qed.

Lemma call_of_keys (prompt : jsstring) (retries : nat) (models : list jsstring)
    (calls : list call) :
  Forall2 (call_of prompt retries) models calls ->
  map call_key calls = map (fun m => key m prompt) models.
Proof.
  induction 1 as [| m c models calls (Hm & Hp & _) _ IH]; [reflexivity |].
  cbn [map]. rewrite IH. unfold call_key. rewrite Hm, Hp. reflexivity.
Qed.

Lemma fan_spec (prompt : jsstring) (retries : nat) (models : list jsstring) (w : world) :
  NoDup (map (fun m => key m prompt) models) ->
  trace w `prefix_of` trace (snd (fan prompt retries models w)) /\
  modelCache w ⊆ modelCache (snd (fan prompt retries models w)) /\
  Forall2
    (fun model result =>
       call_outcome backend read key retries prompt w
         (snd (fan prompt retries models w)) model result /\
       (forall value, result = Fulfilled value ->
          modelCache (snd (fan prompt retries models w)) !! key model prompt
          = Some value))
    models (fst (fan prompt retries models w)).
Proof.
  intros Hdup. unfold fan.
  destruct (start_all_inv w prompt retries models Hdup w)
    as (Hcache & (evs & Hevs & _) & Hof & Hinv);
    [reflexivity | reflexivity | intros; apply responses_refl |].
  pose proof (start_all_in_budget models prompt retries w) as Hbudget.
  destruct (start_all backend key models prompt retries w) as [calls w1].
  cbn [fst snd] in *.
  assert (Hstart : calls_inv w calls w1).
  { split; [rewrite Hevs; apply prefix_app_r; reflexivity |].
    split; [rewrite Hcache; reflexivity |].
    split; [rewrite (call_of_keys _ _ _ _ Hof); exact Hdup | exact Hinv]. }
  unfold allSettled. fold (awaits_left calls).
  pose proof (event_loop_calls_inv w (awaits_left calls) 0 calls w1 Hstart)
    as (Hpre & Hsub & _ & Hfinal).
  pose proof (event_loop_settles (awaits_left calls) 0 calls w1 Hbudget (Nat.le_refl _))
    as Hnone.
  pose proof (event_loop_call_of prompt retries models (awaits_left calls) 0 calls w1 Hof)
    as Hof'.
  destruct (loop (awaits_left calls) 0%nat calls w1) as [calls' w']. cbn [fst snd] in *.
  split; [exact Hpre |]. split; [exact Hsub |].
  apply settled_results, Forall2_lookup. intros i.
  apply pending_nil_settled in Hnone.
  destruct (models !! i) as [m |] eqn:Hm, (calls' !! i) as [c |] eqn:Hc.
  - constructor. destruct (Forall2_lookup_lr _ _ _ _ _ _ Hof' Hm Hc) as (Hcm & Hcp & Hcr).
    specialize (Hfinal i c Hc). pose proof (Forall_lookup_1 _ _ _ _ Hnone Hc) as Hsettled.
    unfold is_pending in Hsettled. unfold call_inv, call_key in Hfinal.
    rewrite Hcm, Hcp, Hcr in Hfinal.
    destruct (call_progress c) as [| | r]; try discriminate Hsettled.
    exists r. split; [reflexivity | exact Hfinal].
  - exfalso. apply Forall2_length in Hof'. apply lookup_lt_Some in Hm.
    apply lookup_ge_None in Hc. lia.
  - exfalso. apply Forall2_length in Hof'. apply lookup_lt_Some in Hc.
    apply lookup_ge_None in Hm. lia.
  - constructor.
Qed.

(** Every response a call got is an answer of the service to a request
    for its model and prompt. *)
Lemma responses_from (w w' : world) (model prompt : jsstring) :
  Forall (fun r => exists n, r = backend n model prompt)
    (responses backend w w' model prompt).
Proof.
  unfold responses. generalize (fetches w), (drop (length (trace w)) (trace w')).
  intros n t. revert n. induction t as [| e t IH]; intros n; [constructor |].
  destruct e as [m p | | |]; cbn [answered]; try apply IH.
  change (omap ?f (?a :: ?l))
    with (match f a with Some r => r :: omap f l | None => omap f l end).
  unfold answer_to at 1. cbn [fst snd].
  destruct (decide (m = model /\ p = prompt)) as [[-> ->] |]; [| apply IH].
  constructor; [exists n; reflexivity | apply IH].
Qed.

(** When nothing is cached and the service fails every request, every call
    of the fan-out is rejected, whatever the schedule. *)
Lemma fan_all_rejected (prompt : jsstring) (retries : nat) (models : list jsstring)
    (w : world) :
  NoDup (map (fun m => key m prompt) models) ->
  (forall m, m ∈ models -> modelCache w !! key m prompt = None) ->
  (forall n m, failing (read (backend n m prompt))) ->
  Forall (fun r => is_rejected r = true) (fst (fan prompt retries models w)).
Proof.
  intros Hdup Hmiss Hfail.
  destruct (fan_spec prompt retries models w Hdup) as (_ & _ & Hall).
  apply Forall_lookup. intros i r Hr.
  destruct (Forall2_lookup_r _ _ _ _ _ Hall Hr) as (m & Hm & Hend & _).
  unfold call_outcome, settles_as in Hend.
  rewrite (Hmiss m) in Hend by (eapply list_elem_of_lookup_2, Hm).
  destruct Hend as (failed & last & Hgot & _ & -> & _).
  pose proof (responses_from w (snd (fan prompt retries models w)) m prompt) as Hfrom.
  rewrite Hgot in Hfrom. apply Forall_app in Hfrom as [_ Hlast].
  apply Forall_cons in Hlast as [(n & ->) _].
  specialize (Hfail n m). destruct (read (backend n m prompt)); [reflexivity | contradiction].
Qed.

End CallsInFlightFacts.

(** *** From results to candidates *)

Lemma named_cells_sublist (names : list jsstring) (cells : list (option candidate)) :
  Forall2 named names cells -> sublist (map model (omap id cells)) names.
Proof.
  induction 1 as [| name cell names cells Hcell _ IH]; [constructor |].
  destruct cell as [c |]; cbn.
  - rewrite (Hcell c eq_refl). apply sublist_skip, IH.
  - apply sublist_cons, IH.
Qed.

Lemma kept_cells_sublist (keep : option candidate -> bool) (cells : list (option candidate)) :
  sublist (omap id (List.filter keep cells)) (omap id cells).
Proof.
  induction cells as [| cell cells IH]; [constructor |].
  cbn [List.filter]. destruct (keep cell), cell as [c |]; cbn.
  - apply sublist_skip, IH.
  - exact IH.
  - apply sublist_cons, IH.
  - exact IH.
Qed.

Lemma mapped_results_named (pick : nat -> settlement -> option candidate)
    (results : list settlement) :
  (forall idx r c, pick idx r = Some c -> model c = nth idx MODEL_LIST []) ->
  length results = length MODEL_LIST ->
  Forall2 named MODEL_LIST (imap pick results).
Proof.
  intros Hpick Hlen. apply Forall2_same_length_lookup_2.
  - rewrite length_imap. symmetry. exact Hlen.
  - intros i name cell Hname Hcell c ->.
    rewrite list_lookup_imap in Hcell.
    destruct (results !! i) as [r |]; [| discriminate Hcell].
    injection Hcell as Hcell. rewrite (Hpick i r c Hcell).
    rewrite nth_lookup, Hname. reflexivity.
Qed.

Lemma in_registry_order_of_sublist (candidates : list candidate) :
  sublist (map model candidates) MODEL_LIST -> in_registry_order candidates.
Proof.
  intros Hsub. split; [| split; [| exact Hsub]].
  - apply sublist_length in Hsub. rewrite length_map in Hsub. exact Hsub.
  - apply Forall_forall. intros c Hc.
    eapply elem_of_sublist; [| exact Hsub].
    apply list_elem_of_fmap. exists c. split; [reflexivity | exact Hc].
Qed.

(** *** The two fan-outs *)

Lemma registry_keys_distinct (suffix : jsstring) :
  NoDup (map (fun m => m ++ js "-" ++ suffix) MODEL_LIST).
Proof.
  unfold MODEL_LIST. cbn [map].
  repeat (apply NoDup_cons; split); try apply NoDup_nil_2;
    intros Hin;
    repeat (apply elem_of_cons in Hin as [Hin | Hin];
            [apply (f_equal head) in Hin; vm_compute in Hin; discriminate Hin |]);
    apply elem_of_nil in Hin; exact Hin.
Qed.

Lemma mounted_settle_all_spec (backend : nat -> jsstring -> jsstring -> http)
    (schedule : nat -> nat) (prompt : jsstring) (w : world) :
  trace w `prefix_of` trace (snd (MlControler.settle_all backend schedule prompt w)) /\
  modelCache w ⊆ modelCache (snd (MlControler.settle_all backend schedule prompt w)) /\
  Forall2
    (fun model result =>
       call_outcome backend (MlControler.read_response 100)
         (fun model prompt => model ++ js "-" ++ prompt) 2 prompt w
         (snd (MlControler.settle_all backend schedule prompt w)) model result /\
       (forall value, result = Fulfilled value ->
          modelCache (snd (MlControler.settle_all backend schedule prompt w))
            !! (model ++ js "-" ++ prompt) = Some value))
    MODEL_LIST (fst (MlControler.settle_all backend schedule prompt w)).
Proof.
  apply (fan_spec backend (MlControler.read_response 100)
           (fun model prompt => model ++ js "-" ++ prompt) 2000 schedule prompt 2
           MODEL_LIST w).
  apply registry_keys_distinct.
Qed.

Lemma strict_settle_all_spec (backend : nat -> jsstring -> jsstring -> http)
    (schedule : nat -> nat) (prompt : jsstring) (w : world) :
  trace w `prefix_of` trace (snd (JudgeController.settle_all backend schedule prompt w)) /\
  modelCache w ⊆ modelCache (snd (JudgeController.settle_all backend schedule prompt w)) /\
  Forall2
    (fun model result =>
       call_outcome backend JudgeController.read_response JudgeController.cacheKey
         JudgeController.maxRetries prompt w
         (snd (JudgeController.settle_all backend schedule prompt w)) model result /\
       (forall value, result = Fulfilled value ->
          modelCache (snd (JudgeController.settle_all backend schedule prompt w))
            !! JudgeController.cacheKey model prompt = Some value))
    MODEL_LIST (fst (JudgeController.settle_all backend schedule prompt w)).
Proof.
  apply (fan_spec backend JudgeController.read_response JudgeController.cacheKey
           JudgeController.retryDelay schedule prompt JudgeController.maxRetries
           MODEL_LIST w).
  apply (registry_keys_distinct (base64url prompt)).
Qed.

Lemma mounted_settle_all_length (backend : nat -> jsstring -> jsstring -> http)
    (schedule : nat -> nat) (prompt : jsstring) (w : world) :
  length (fst (MlControler.settle_all backend schedule prompt w)) = length MODEL_LIST.
Proof.
  destruct (mounted_settle_all_spec backend schedule prompt w) as (_ & _ & Hall).
  symmetry. apply (Forall2_length _ _ _ Hall).
Qed.

Lemma strict_settle_all_length (backend : nat -> jsstring -> jsstring -> http)
    (schedule : nat -> nat) (prompt : jsstring) (w : world) :
  length (fst (JudgeController.settle_all backend schedule prompt w)) = length MODEL_LIST.
Proof.
  destruct (strict_settle_all_spec backend schedule prompt w) as (_ & _ & Hall).
  symmetry. apply (Forall2_length _ _ _ Hall).
Qed.

Lemma mounted_fan_out_order (backend : nat -> jsstring -> jsstring -> http)
    (schedule : nat -> nat)
    (prompt : jsstring) (w : world) :
  in_registry_order (fst (MlControler.fan_out backend schedule prompt w)).
Proof.
  apply in_registry_order_of_sublist. unfold MlControler.fan_out.
  pose proof (mounted_settle_all_length backend schedule prompt w) as Hlen.
  destruct (MlControler.settle_all backend schedule prompt w) as [results w']. cbn [fst] in *.
  apply named_cells_sublist, mapped_results_named; [| exact Hlen].
  intros idx r c Hpick. unfold MlControler.to_candidate in Hpick.
  destruct r as [[text |] |]; try discriminate Hpick.
  destruct (truthy_string text); [| discriminate Hpick].
  injection Hpick as <-. reflexivity.
Qed.

Lemma strict_getModelResponses_order (backend : nat -> jsstring -> jsstring -> http)
    (schedule : nat -> nat)
    (prompt : jsstring) (w : world) :
  in_registry_order (fst (JudgeController.getModelResponses backend schedule prompt w)).
Proof.
  apply in_registry_order_of_sublist. unfold JudgeController.getModelResponses.
  pose proof (strict_settle_all_length backend schedule prompt w) as Hlen.
  destruct (JudgeController.settle_all backend schedule prompt w) as [results w']. cbn [fst] in *.
  etransitivity; [apply fmap_sublist, kept_cells_sublist |].
  apply named_cells_sublist, mapped_results_named; [| exact Hlen].
  intros idx r c Hpick. unfold JudgeController.to_candidate in Hpick.
  destruct r as [value |]; [| discriminate Hpick].
  injection Hpick as <-. reflexivity.
Qed.

Lemma mounted_fan_out_survivors (backend : nat -> jsstring -> jsstring -> http)
    (schedule : nat -> nat)
    (prompt : jsstring) (w : world) :
  survivors (fun text => text <> [])
    (fst (MlControler.settle_all backend schedule prompt w))
    (fst (MlControler.fan_out backend schedule prompt w)).
Proof.
  unfold MlControler.fan_out.
  destruct (MlControler.settle_all backend schedule prompt w) as [results w']. cbn [fst].
  intros c. rewrite list_elem_of_omap. split.
  - intros (cell & Hin & Hcell). cbn in Hcell. subst cell.
    apply elem_of_lookup_imap in Hin as (idx & r & Hpick & Hr).
    unfold MlControler.to_candidate in Hpick.
    destruct r as [[text |] |]; try discriminate Hpick.
    destruct text as [| u text]; cbn in Hpick; [discriminate Hpick |].
    injection Hpick as ->. exists idx, (u :: text).
    split; [exact Hr |]. split; [discriminate | reflexivity].
  - intros (idx & text & Hr & Hok & ->). eexists. split; [| reflexivity].
    apply elem_of_lookup_imap. exists idx, (Fulfilled (Some text)).
    split; [| exact Hr]. cbn. destruct text; [contradiction | reflexivity].
Qed.

Lemma strict_getModelResponses_survivors
    (backend : nat -> jsstring -> jsstring -> http)
    (schedule : nat -> nat) (prompt : jsstring) (w : world) :
  survivors (fun text => (20 <= length text)%nat)
    (fst (JudgeController.settle_all backend schedule prompt w))
    (fst (JudgeController.getModelResponses backend schedule prompt w)).
Proof.
  unfold JudgeController.getModelResponses.
  destruct (JudgeController.settle_all backend schedule prompt w) as [results w']. cbn [fst].
  intros c. rewrite list_elem_of_omap. split.
  - intros (cell & Hin & Hcell). cbn in Hcell. subst cell.
    apply list_elem_of_In, filter_In in Hin as [Hin Hkeep].
    apply list_elem_of_In, elem_of_lookup_imap in Hin as (idx & r & Hpick & Hr).
    unfold JudgeController.to_candidate in Hpick.
    destruct r as [value |]; [| discriminate Hpick].
    injection Hpick as ->. unfold JudgeController.long_enough in Hkeep.
    destruct value as [text |]; [| discriminate Hkeep].
    exists idx, text. split; [exact Hr |].
    split; [apply Nat.leb_le, Hkeep | reflexivity].
  - intros (idx & text & Hr & Hok & ->). eexists. split; [| reflexivity].
    apply list_elem_of_In, filter_In. split.
    + apply list_elem_of_In, elem_of_lookup_imap.
      exists idx, (Fulfilled (Some text)). split; [reflexivity | exact Hr].
    + unfold JudgeController.long_enough. apply Nat.leb_le, Hok.
Qed.

(** C2. For every prompt and whatever the order in which the calls are
    resumed, the fan-out of either file ([getModelResponses], and the
    [Promise.allSettled] mapping inside [judgeAndGenerate] of
    [mlcontroler.js]) returns when each of the N calls has run to its end,
    with one result for each model of the registry, in the order of the
    registry: the call for a model is fulfilled with the cached value, or
    with the first of its responses that reads as a result, after at most
    [retries] failed rounds; it is rejected, with the error of the last
    round, when [retries + 1] rounds have failed; and the failure of one
    call changes nothing for the others. The candidates are between 0 and
    N, each under the ID of a registry model and in the order of the
    registry: exactly the calls that were fulfilled with an acceptable text
    (non-empty in [mlcontroler.js], of at least 20 code units in the strict
    controller). *)
Theorem fan_out_in_registry_order
    (backend : nat -> jsstring -> jsstring -> http) (schedule : nat -> nat)
    (prompt : jsstring) (w : world) :
  (length (fst (MlControler.settle_all backend schedule prompt w)) = length MODEL_LIST /\
   Forall2
     (call_outcome backend (MlControler.read_response 100)
        (fun model prompt => model ++ js "-" ++ prompt) 2 prompt w
        (snd (MlControler.settle_all backend schedule prompt w)))
     MODEL_LIST (fst (MlControler.settle_all backend schedule prompt w)) /\
   in_registry_order (fst (MlControler.fan_out backend schedule prompt w)) /\
   survivors (fun text => text <> [])
     (fst (MlControler.settle_all backend schedule prompt w))
     (fst (MlControler.fan_out backend schedule prompt w))) /\
  (length (fst (JudgeController.settle_all backend schedule prompt w)) = length MODEL_LIST /\
   Forall2
     (call_outcome backend JudgeController.read_response JudgeController.cacheKey
        JudgeController.maxRetries prompt w
        (snd (JudgeController.settle_all backend schedule prompt w)))
     MODEL_LIST (fst (JudgeController.settle_all backend schedule prompt w)) /\
   in_registry_order (fst (JudgeController.getModelResponses backend schedule prompt w)) /\
   survivors (fun text => (20 <= length text)%nat)
     (fst (JudgeController.settle_all backend schedule prompt w))
     (fst (JudgeController.getModelResponses backend schedule prompt w))).
Proof.
  split; (split; [| split; [| split]]).
  - apply mounted_settle_all_length.
  - destruct (mounted_settle_all_spec backend schedule prompt w) as (_ & _ & Hall).
    eapply Forall2_impl; [exact Hall |]. intros model result [Hend _]. exact Hend.
  - apply mounted_fan_out_order.
  - apply mounted_fan_out_survivors.
  - apply strict_settle_all_length.
  - destruct (strict_settle_all_spec backend schedule prompt w) as (_ & _ & Hall).
    eapply Forall2_impl; [exact Hall |]. intros model result [Hend _]. exact Hend.
  - apply strict_getModelResponses_order.
  - apply strict_getModelResponses_survivors.
Qed.

(** ** The judge *)

Section JudgeFacts.

Variable judge : jsstring -> list candidate -> judge_reply.
Variable rnd : Q.
Hypothesis rnd_lo : (0 <= rnd)%Q.
Hypothesis rnd_hi : (rnd < 1)%Q.

Lemma mounted_judgeResponses_total (prompt : jsstring) (candidates : list candidate)
    (w : world) :
  candidates <> [] ->
  exists c, fst (MlControler.judgeResponses judge rnd prompt candidates w) = Some c
            /\ c ∈ candidates.
Proof.
  intros Hne. apply length_pos_of_ne_nil in Hne.
  unfold MlControler.judgeResponses.
  destruct (judge prompt candidates); cbn [fst]; apply at_index_in_range.
  - apply random_index_range; assumption.
  - apply mounted_parseBestIndex_range; assumption.
Qed.

Lemma strict_judgeResponses_total (prompt : jsstring) (candidates : list candidate)
    (w : world) :
  candidates <> [] ->
  exists c, fst (JudgeController.judgeResponses judge rnd prompt candidates w) = Some c
            /\ c ∈ candidates.
Proof.
  intros Hne. apply length_pos_of_ne_nil in Hne.
  unfold JudgeController.judgeResponses, JudgeController.weightedRandomSelect.
  destruct (judge prompt candidates); cbn [fst]; apply at_index_in_range.
  - lia.
  - apply strict_parseBestIndex_range; assumption.
Qed.

Variable backend : nat -> jsstring -> jsstring -> http.
Variable schedule : nat -> nat.
Variable development : bool.

Lemma mounted_judge_route_answers (prompt : jsstring) (w : world) :
  truthy_string prompt = true ->
  fst (MlControler.fan_out backend schedule prompt w) <> [] ->
  exists c,
    c ∈ fst (MlControler.fan_out backend schedule prompt w) /\
    fst (MlControler.judgeAndGenerate backend schedule judge rnd development (Some prompt) w)
    = Reply 200 (JudgeBody (content c) (model c)
                   (map model (fst (MlControler.fan_out backend schedule prompt w)))).
Proof.
  intros Hprompt Hne. unfold MlControler.judgeAndGenerate. rewrite Hprompt.
  cbn [negb]. destruct (MlControler.fan_out backend schedule prompt w) as [candidates w1].
  cbn [fst] in *.
  destruct (mounted_judgeResponses_total prompt candidates w1 Hne) as (c & Hbest & Hc).
  destruct (MlControler.judgeResponses judge rnd prompt candidates w1) as [best w2].
  cbn [fst] in Hbest. subst best.
  destruct candidates; [congruence |]. exists c. split; [exact Hc | reflexivity].
Qed.

Lemma strict_judge_route_answers (prompt : jsstring) (w : world) :
  truthy_string (trim prompt) = true ->
  fst (JudgeController.getModelResponses backend schedule prompt w) <> [] ->
  exists c,
    c ∈ fst (JudgeController.getModelResponses backend schedule prompt w) /\
    fst (JudgeController.judgeAndGenerate backend schedule judge rnd development (Some prompt) w)
    = Reply 200 (JudgeBody (content c) (model c)
                   (map model (fst (JudgeController.getModelResponses backend schedule prompt w)))).
Proof.
  intros Hprompt Hne. unfold JudgeController.judgeAndGenerate. rewrite Hprompt.
  cbn [negb]. destruct (JudgeController.getModelResponses backend schedule prompt w)
    as [candidates w1].
  cbn [fst] in *.
  destruct (strict_judgeResponses_total prompt candidates w1 Hne) as (c & Hbest & Hc).
  destruct (JudgeController.judgeResponses judge rnd prompt candidates w1) as [best w2].
  cbn [fst] in Hbest. subst best.
  destruct candidates; [congruence |]. exists c. split; [exact Hc | reflexivity].
Qed.

End JudgeFacts.

(** C7. The judge is advisory. With [rnd] the draw of [Math.random()], a
    number in [0, 1): for every non-empty list of candidates and whatever
    the judge does (its call fails or times out, or it replies a text with
    or without a number in it), [judgeResponses] of either file returns a
    candidate of that list and throws nothing; when the call fails the
    candidate is the one at the random index in [mlcontroler.js] and the
    first one in the strict controller, and when the reply holds no number
    that the parser accepts it is the one at the random index in both. So
    a request whose prompt passed validation and whose fan-out left at
    least one candidate is answered with status 200 and the text and model
    of one of the candidates. *)
Theorem judge_is_advisory
    (backend : nat -> jsstring -> jsstring -> http)
    (schedule : nat -> nat)
    (judge : jsstring -> list candidate -> judge_reply)
    (rnd : Q) (development : bool) (prompt : jsstring) (w : world) :
  (0 <= rnd)%Q -> (rnd < 1)%Q ->
  (forall candidates w', candidates <> [] ->
     (exists c, fst (MlControler.judgeResponses judge rnd prompt candidates w') = Some c
                /\ c ∈ candidates) /\
     (exists c, fst (JudgeController.judgeResponses judge rnd prompt candidates w') = Some c
                /\ c ∈ candidates) /\
     (forall e, judge prompt candidates = JudgeFails e ->
        fst (MlControler.judgeResponses judge rnd prompt candidates w')
          = at_index candidates (random_index rnd (Z.of_nat (length candidates))) /\
        fst (JudgeController.judgeResponses judge rnd prompt candidates w')
          = head candidates) /\
     (forall text, judge prompt candidates = JudgeReplies text ->
        (match_first_digits text = None ->
         fst (MlControler.judgeResponses judge rnd prompt candidates w')
           = at_index candidates (random_index rnd (Z.of_nat (length candidates)))) /\
        (match_all_digits (trim (remove_ci (js "option") (strip_quotes text))) = None ->
         fst (JudgeController.judgeResponses judge rnd prompt candidates w')
           = at_index candidates (random_index rnd (Z.of_nat (length candidates)))))) /\
  (truthy_string prompt = true ->
   fst (MlControler.fan_out backend schedule prompt w) <> [] ->
   exists c,
     c ∈ fst (MlControler.fan_out backend schedule prompt w) /\
     fst (MlControler.judgeAndGenerate backend schedule judge rnd development (Some prompt) w)
     = Reply 200 (JudgeBody (content c) (model c)
                    (map model (fst (MlControler.fan_out backend schedule prompt w))))) /\
  (truthy_string (trim prompt) = true ->
   fst (JudgeController.getModelResponses backend schedule prompt w) <> [] ->
   exists c,
     c ∈ fst (JudgeController.getModelResponses backend schedule prompt w) /\
     fst (JudgeController.judgeAndGenerate backend schedule judge rnd development (Some prompt) w)
     = Reply 200 (JudgeBody (content c) (model c)
                    (map model (fst (JudgeController.getModelResponses backend schedule prompt w))))).
Proof.
  intros Hlo Hhi. split; [| split].
  - intros candidates w' Hne. split; [| split; [| split]].
    + apply mounted_judgeResponses_total; assumption.
    + apply strict_judgeResponses_total; assumption.
    + intros e He.
      unfold MlControler.judgeResponses, JudgeController.judgeResponses,
        JudgeController.weightedRandomSelect.
      rewrite He. cbn [fst]. split; [reflexivity |].
      destruct candidates; reflexivity.
    + intros text Htext.
      unfold MlControler.judgeResponses, JudgeController.judgeResponses,
        MlControler.parseBestIndex, JudgeController.parseBestIndex.
      rewrite Htext. cbn [fst]. cbv zeta.
      split; intros ->; reflexivity.
  - apply mounted_judge_route_answers; assumption.
  - apply strict_judge_route_answers; assumption.
Qed.

Lemma judge_is_advisory_witness :
  status (fst (MlControler.judgeAndGenerate answering in_turn judge_down (1 # 2) false
                 (Some (js "hi")) fresh)) = 200 /\
  status (fst (JudgeController.judgeAndGenerate answering in_turn judge_down (1 # 2) false
                 (Some (js "hi")) fresh)) = 200.
Proof.
  destruct (judge_is_advisory answering in_turn judge_down (1 # 2) false (js "hi") fresh)
    as (_ & Hmounted & Hstrict); [discriminate | reflexivity |].
  destruct Hmounted as (c & _ & ->); [reflexivity | discriminate |].
  destruct Hstrict as (c' & _ & ->); [reflexivity | discriminate |].
  split; reflexivity.
Defined.

(** ** No candidate left *)

(** The strict controller answers 503, without [bestResponse], when the
    fan-out leaves no candidate. *)
Lemma strict_judge_route_unavailable
    (backend : nat -> jsstring -> jsstring -> http)
    (schedule : nat -> nat)
    (judge : jsstring -> list candidate -> judge_reply)
    (rnd : Q) (development : bool) (prompt : jsstring) (w : world) :
  truthy_string (trim prompt) = true ->
  fst (JudgeController.getModelResponses backend schedule prompt w) = [] ->
  fst (JudgeController.judgeAndGenerate backend schedule judge rnd development (Some prompt) w)
  = Reply 503 (ErrorBody (js "All model providers failed")
                 (Some (js "Try again with a different prompt")) None).
Proof.
  intros Hprompt Hnone. unfold JudgeController.judgeAndGenerate. rewrite Hprompt.
  cbn [negb]. destruct (JudgeController.getModelResponses backend schedule prompt w)
    as [candidates w1].
  cbn [fst] in Hnone. subst candidates. reflexivity.
Qed.

(** [mlcontroler.js] answers 500 in that case. *)
Lemma mounted_judge_route_no_candidates
    (backend : nat -> jsstring -> jsstring -> http)
    (schedule : nat -> nat)
    (judge : jsstring -> list candidate -> judge_reply)
    (rnd : Q) (development : bool) (prompt : jsstring) (w : world) :
  truthy_string prompt = true ->
  fst (MlControler.fan_out backend schedule prompt w) = [] ->
  fst (MlControler.judgeAndGenerate backend schedule judge rnd development (Some prompt) w)
  = Reply 500 (ErrorBody (js "All model calls failed") None None).
Proof.
  intros Hprompt Hnone. unfold MlControler.judgeAndGenerate. rewrite Hprompt.
  cbn [negb]. destruct (MlControler.fan_out backend schedule prompt w) as [candidates w1].
  cbn [fst] in Hnone. subst candidates. reflexivity.
Qed.

Lemma survivors_of_rejected (acceptable : jsstring -> Prop) (results : list settlement)
    (candidates : list candidate) :
  Forall (fun r => is_rejected r = true) results ->
  survivors acceptable results candidates -> candidates = [].
Proof.
  intros Hall Hsurv. destruct candidates as [| c cs]; [reflexivity |].
  destruct (proj1 (Hsurv c)) as (idx & text & Hr & _); [left |].
  pose proof (Forall_lookup_1 _ _ _ _ Hall Hr) as Hrej. discriminate Hrej.
Qed.

(** On a service that refuses every request, and with nothing cached, the
    fan-out of either file leaves no candidate, whatever the schedule. *)
Lemma refused_fan_out_empty (schedule : nat -> nat) (prompt : jsstring) :
  fst (MlControler.fan_out refusing schedule prompt fresh) = [] /\
  fst (JudgeController.getModelResponses refusing schedule prompt fresh) = [].
Proof.
  split.
  - eapply survivors_of_rejected; [| apply mounted_fan_out_survivors].
    apply (fan_all_rejected refusing (MlControler.read_response 100)
             (fun model prompt => model ++ js "-" ++ prompt) 2000 schedule
             prompt 2 MODEL_LIST fresh).
    + apply registry_keys_distinct.
    + intros m _. apply lookup_empty.
    + intros n m. exact I.
  - eapply survivors_of_rejected; [| apply strict_getModelResponses_survivors].
    apply (fan_all_rejected refusing JudgeController.read_response
             JudgeController.cacheKey JudgeController.retryDelay schedule
             prompt JudgeController.maxRetries MODEL_LIST fresh).
    + apply (registry_keys_distinct (base64url prompt)).
    + intros m _. apply lookup_empty.
    + intros n m. exact I.
Qed.

(** C3 names a defect of [mlcontroler.js]. When every model fails every
    attempt the fan-out leaves no candidate, whatever the order in which
    the calls are resumed; the strict controller answers 503 with no
    [bestResponse], and [judgeAndGenerate] of [mlcontroler.js], the handler
    the router mounts, answers 500, the status of its generic error. *)
Theorem no_candidate_status (schedule : nat -> nat) :
  fst (MlControler.fan_out refusing schedule (js "hi") fresh) = [] /\
  fst (MlControler.judgeAndGenerate refusing schedule judge_down (1 # 2) false
         (Some (js "hi")) fresh)
  = Reply 500 (ErrorBody (js "All model calls failed") None None) /\
  fst (JudgeController.getModelResponses refusing schedule (js "hi") fresh) = [] /\
  fst (JudgeController.judgeAndGenerate refusing schedule judge_down (1 # 2) false
         (Some (js "hi")) fresh)
  = Reply 503 (ErrorBody (js "All model providers failed")
                 (Some (js "Try again with a different prompt")) None) /\
  has_bestResponse
    (fst (JudgeController.judgeAndGenerate refusing schedule judge_down (1 # 2) false
            (Some (js "hi")) fresh)) = false.
Proof.
  destruct (refused_fan_out_empty schedule (js "hi")) as [Hmounted Hstrict].
  assert (Hunavailable :
    fst (JudgeController.judgeAndGenerate refusing schedule judge_down (1 # 2) false
           (Some (js "hi")) fresh)
    = Reply 503 (ErrorBody (js "All model providers failed")
                   (Some (js "Try again with a different prompt")) None))
    by (apply strict_judge_route_unavailable; [reflexivity | exact Hstrict]).
  split; [exact Hmounted |]. split.
  { apply mounted_judge_route_no_candidates; [reflexivity | exact Hmounted]. }
  split; [exact Hstrict |]. split; [exact Hunavailable |].
  rewrite Hunavailable. reflexivity.
Qed.

(** ** Validation of the prompt *)

(** The strict controller and [llmController] reject a blank prompt with
    status 400 and touch nothing: the world is returned as it was, whatever
    the services would have answered. *)
Lemma strict_judge_route_rejects_blank
    (backend : nat -> jsstring -> jsstring -> http)
    (schedule : nat -> nat)
    (judge : jsstring -> list candidate -> judge_reply)
    (rnd : Q) (development : bool) (prompt : option jsstring) (w : world) :
  blank prompt ->
  JudgeController.judgeAndGenerate backend schedule judge rnd development prompt w
  = (Reply 400 (ErrorBody (js "Non-empty prompt is required") None None), w).
Proof.
  destruct prompt as [text |]; cbn; [| reflexivity].
  intros ->. reflexivity.
Qed.

Lemma llmController_rejects_blank
    (backend : nat -> jsstring -> jsstring -> http)
    (analysis : jsstring -> analysis_reply)
    (development : bool) (prompt : option jsstring) (w : world) :
  blank prompt ->
  MlControler.llmController backend analysis development prompt w
  = (Reply 400 (ErrorBody (js "Prompt required") None None), w).
Proof.
  destruct prompt as [text |]; cbn; [| reflexivity].
  intros ->. reflexivity.
Qed.

(** [judgeAndGenerate] of [mlcontroler.js] rejects a prompt that is missing
    or empty. *)
Lemma mounted_judge_route_rejects_empty
    (backend : nat -> jsstring -> jsstring -> http)
    (schedule : nat -> nat)
    (judge : jsstring -> list candidate -> judge_reply)
    (rnd : Q) (development : bool) (prompt : option jsstring) (w : world) :
  prompt = None \/ prompt = Some [] ->
  MlControler.judgeAndGenerate backend schedule judge rnd development prompt w
  = (Reply 400 (ErrorBody (js "Prompt is required") None None), w).
Proof. intros [-> | ->]; reflexivity. Qed.

(** C9 names a defect of [mlcontroler.js]. For the prompt of three blanks
    the strict controller and [llmController] answer 400 and leave the
    world untouched; [judgeAndGenerate] of [mlcontroler.js], which tests
    [!prompt] without [trim], sends the blanks to the three models (and
    caches their answers) and answers 200. The run shown is the one in
    which the calls are resumed in the order of the registry. *)
Theorem blank_prompt_validation :
  blank (Some (js "   ")) /\
  JudgeController.judgeAndGenerate answering in_turn judge_down (1 # 2) false
    (Some (js "   ")) fresh
  = (Reply 400 (ErrorBody (js "Non-empty prompt is required") None None), fresh) /\
  MlControler.llmController answering (fun _ => AnalysisFails) false
    (Some (js "   ")) fresh
  = (Reply 400 (ErrorBody (js "Prompt required") None None), fresh) /\
  status (fst (MlControler.judgeAndGenerate answering in_turn judge_down (1 # 2) false
                 (Some (js "   ")) fresh)) = 200 /\
  fetches (snd (MlControler.judgeAndGenerate answering in_turn judge_down (1 # 2) false
                  (Some (js "   ")) fresh)) = 3%nat /\
  size (modelCache (snd (MlControler.judgeAndGenerate answering in_turn judge_down (1 # 2)
                           false (Some (js "   ")) fresh))) = 3%nat.
Proof. repeat split; reflexivity. Qed.

(** * Further properties of the controllers *)

(** ** Retries that end well *)

Section RetryRecovery.

Variable backend : nat -> jsstring -> jsstring -> http.
Variable read : http -> error + jsvalue.
Variables key model prompt : jsstring.
Variable delay : Z.

Lemma retry_loop_hit (remaining attempt : nat) (w : world) (value : jsvalue) :
  modelCache w !! key = Some value ->
  retry_loop (cached_call backend read key model prompt) delay remaining attempt w
  = (inr value, w).
Proof.
  intros Hhit. destruct remaining; cbn [retry_loop]; unfold try_catch;
    rewrite (cached_call_hit _ _ _ _ _ _ _ Hhit); reflexivity.
Qed.

Lemma retry_loop_recovers (k : nat) :
  forall (remaining attempt : nat) (w : world) (value : jsvalue),
    (k <= remaining)%nat ->
    modelCache w !! key = None ->
    (forall i, (i < k)%nat -> failing (read (backend (fetches w + i)%nat model prompt))) ->
    read (backend (fetches w + k)%nat model prompt) = inr value ->
    retry_loop (cached_call backend read key model prompt) delay remaining attempt w
    = (inr value,
       World (<[key := value]> (modelCache w))
         (trace w ++ backoff_trace model prompt delay attempt k)).
Proof.
  induction k as [| k IH]; intros remaining attempt w value Hk Hmiss Hfail Hok.
  - rewrite Nat.add_0_r in Hok.
    destruct remaining; cbn [retry_loop]; unfold try_catch;
      rewrite cached_call_cases, Hmiss, Hok; reflexivity.
  - destruct remaining as [| remaining]; [lia |].
    cbn [retry_loop]. unfold try_catch. rewrite cached_call_cases, Hmiss.
    pose proof (Hfail 0%nat ltac:(lia)) as Hfirst. rewrite Nat.add_0_r in Hfirst.
    destruct (read (backend (fetches w) model prompt)) as [e |]; [| contradiction].
    unfold mbind, async_bind, await, log. cbn [modelCache trace].
    rewrite (IH remaining (S attempt) _ value); cbn [modelCache trace].
    + f_equal. f_equal. unfold backoff_trace. cbn [seq flat_map].
      rewrite <- !app_assoc. reflexivity.
    + lia.
    + exact Hmiss.
    + intros i Hi. unfold fetches. cbn [trace]. rewrite !requests_app.
      change (requests [Fetch model prompt]) with 1%nat.
      change (requests [Delay _]) with 0%nat.
      replace (requests (trace w) + 1 + 0 + i)%nat with (fetches w + S i)%nat
        by (unfold fetches; lia).
      apply Hfail. lia.
    + unfold fetches. cbn [trace]. rewrite !requests_app.
      change (requests [Fetch model prompt]) with 1%nat.
      change (requests [Delay _]) with 0%nat.
      replace (requests (trace w) + 1 + 0 + k)%nat with (fetches w + S k)%nat
        by (unfold fetches; lia).
      exact Hok.
Qed.

End RetryRecovery.

Lemma retry_loop_recovery (read : http -> error + jsvalue)
    (key : jsstring -> jsstring -> jsstring) (delay : Z) :
  retry_recovers read key delay
    (fun backend model prompt retries =>
       retry_loop (cached_call backend read (key model prompt) model prompt)
         delay retries 0).
Proof.
  intros backend model prompt retries k value w Hk Hmiss Hfail Hok. cbv beta.
  split; [| split].
  - apply retry_loop_recovers; assumption.
  - apply backoff_trace_requests.
  - apply backoff_trace_delays.
Qed.

(** X1. In both files [callModelWithRetry] recovers from failures within
    its budget: if the pair is not cached, the first k attempts fail and the
    next one is answered, with k at most [retries], the wrapper returns the
    answer after k + 1 requests and waits of 2000 * 1, ..., 2000 * k ms,
    and the answer is stored under the cache key of the pair. *)
Theorem callModelWithRetry_recovers :
  retry_recovers (MlControler.read_response 100)
    (fun model prompt => model ++ js "-" ++ prompt) 2000
    MlControler.callModelWithRetry /\
  retry_recovers JudgeController.read_response JudgeController.cacheKey 2000
    JudgeController.callModelWithRetry.
Proof.
  split.
  - apply (retry_loop_recovery (MlControler.read_response 100)
             (fun model prompt => model ++ js "-" ++ prompt) 2000).
  - apply (retry_loop_recovery JudgeController.read_response
             JudgeController.cacheKey 2000).
Qed.

Lemma callModelWithRetry_recovers_witness :
  MlControler.callModelWithRetry recovering gemma (js "hi") 2 fresh
  = (inr (Some answer),
     World {[ gemma ++ js "-" ++ js "hi" := Some answer ]}
       [Fetch gemma (js "hi"); Delay 2000; Fetch gemma (js "hi"); Delay 4000;
        Fetch gemma (js "hi")]).
Proof.
  refine (proj1 (proj1 callModelWithRetry_recovers recovering gemma (js "hi")
                   2%nat 2%nat (Some answer) fresh _ _ _ _)).
  - lia.
  - reflexivity.
  - intros [| [| i]] Hi; [exact I | exact I | lia].
  - reflexivity.
Defined.

(** X2. In both files [callModelWithRetry] short-circuits on a cached
    pair: whatever the number of retries, the cached value is returned with
    no request sent, no wait and no change to the cache. *)
Theorem callModelWithRetry_short_circuits :
  retry_short_circuits (fun model prompt => model ++ js "-" ++ prompt)
    MlControler.callModelWithRetry /\
  retry_short_circuits JudgeController.cacheKey JudgeController.callModelWithRetry.
Proof.
  split; intros backend model prompt retries value w Hhit;
    apply retry_loop_hit; exact Hhit.
Qed.

Lemma callModelWithRetry_short_circuits_witness :
  JudgeController.callModelWithRetry refusing gemma (js "hi") 3
    (World {[ JudgeController.cacheKey gemma (js "hi") := Some answer ]} [])
  = (inr (Some answer),
     World {[ JudgeController.cacheKey gemma (js "hi") := Some answer ]} []).
Proof.
  apply (proj2 callModelWithRetry_short_circuits refusing gemma (js "hi") 3%nat
           (Some answer)).
  reflexivity.
Defined.

(** ** What a request leaves behind *)

Lemma extends_refl (w : world) : extends w w.
Proof. split; reflexivity. Qed.

Lemma extends_trans (w1 w2 w3 : world) :
  extends w1 w2 -> extends w2 w3 -> extends w1 w3.
Proof. intros [Hc Ht] [Hc' Ht']. split; etransitivity; eassumption. Qed.

Lemma extends_log (w : world) (t : list event) :
  extends w (World (modelCache w) (trace w ++ t)).
Proof. split; [reflexivity | apply prefix_app_r; reflexivity]. Qed.

Lemma extends_lookup (w w' : world) (key : jsstring) (value : jsvalue) :
  extends w w' -> modelCache w !! key = Some value -> modelCache w' !! key = Some value.
Proof. intros [Hc _]. rewrite map_subseteq_spec in Hc. apply Hc. Qed.

Lemma waited_app (t u : list event) : waited (t ++ u) = waited t + waited u.
Proof.
  unfold waited, delays. rewrite flat_map_app.
  induction (flat_map _ t) as [| d ds IH]; cbn; [reflexivity | rewrite IH; lia].
Qed.

Lemma cached_call_extends (backend : nat -> jsstring -> jsstring -> http)
    (read : http -> error + jsvalue) (key model prompt : jsstring) (w : world) :
  extends w (snd (cached_call backend read key model prompt w)).
Proof.
  rewrite cached_call_cases.
  destruct (modelCache w !! key) eqn:Hk; [apply extends_refl |].
  destruct (read _); cbn [snd]; [apply extends_log |].
  split; cbn; [apply insert_subseteq, Hk | apply prefix_app_r; reflexivity].
Qed.

Lemma cached_call_spends (backend : nat -> jsstring -> jsstring -> http)
    (read : http -> error + jsvalue) (key model prompt : jsstring) (w : world) :
  (fetches (snd (cached_call backend read key model prompt w)) <= fetches w + 1)%nat /\
  waited (trace (snd (cached_call backend read key model prompt w))) = waited (trace w).
Proof.
  rewrite cached_call_cases.
  destruct (modelCache w !! key); [cbn; split; [lia | reflexivity] |].
  destruct (read _); cbn [snd trace]; rewrite fetches_after_fetch, waited_app;
    cbn; split; lia.
Qed.

Section RetryEffects.

Variable backend : nat -> jsstring -> jsstring -> http.
Variable read : http -> error + jsvalue.
Variables key model prompt : jsstring.
Variable delay : Z.

Abbreviation retrying remaining attempt :=
  (retry_loop (cached_call backend read key model prompt) delay remaining attempt).

Lemma retry_loop_unfold (remaining attempt : nat) (w : world) :
  retrying remaining attempt w =
    match cached_call backend read key model prompt w with
    | (inl e, w') =>
        match remaining with
        | O => (inl e, w')
        | S remaining' =>
            retrying remaining' (S attempt)
              (World (modelCache w')
                 (trace w' ++ [Delay (delay * (Z.of_nat attempt + 1))]))
        end
    | settled => settled
    end.
Proof.
  destruct remaining; cbn [retry_loop]; unfold try_catch;
    destruct (cached_call backend read key model prompt w) as [[e | v] w'];
    reflexivity.
Qed.

Lemma retry_loop_extends (remaining : nat) :
  forall attempt w, extends w (snd (retrying remaining attempt w)).
Proof.
  induction remaining as [| remaining IH]; intros attempt w;
    rewrite retry_loop_unfold;
    pose proof (cached_call_extends backend read key model prompt w) as Hcall;
    destruct (cached_call backend read key model prompt w) as [[e | v] w'];
    cbn [snd] in *; try exact Hcall.
  eapply extends_trans; [exact Hcall |].
  eapply extends_trans; [apply (extends_log w') | apply IH].
Qed.

Lemma retry_loop_stored (remaining : nat) :
  forall attempt w w' value,
    retrying remaining attempt w = (inr value, w') ->
    modelCache w' !! key = Some value.
Proof.
  induction remaining as [| remaining IH]; intros attempt w w' value;
    rewrite retry_loop_unfold;
    destruct (cached_call backend read key model prompt w) as [[e | v] w1] eqn:Hcall.
  - discriminate.
  - intros [= <- <-]. eapply cached_call_success_stored, Hcall.
  - apply IH.
  - intros [= <- <-]. eapply cached_call_success_stored, Hcall.
Qed.

Hypothesis delay_nonneg : 0 <= delay.

Lemma backoff_budget_nonneg (remaining : nat) :
  forall attempt, 0 <= backoff_budget delay remaining attempt.
Proof.
  induction remaining as [| remaining IH]; intros attempt; cbn; [lia |].
  specialize (IH (S attempt)). nia.
Qed.

Lemma retry_loop_spends (remaining : nat) :
  forall attempt,
    spends (fun w => retrying remaining attempt w) (remaining + 1)
      (backoff_budget delay remaining attempt).
Proof.
  induction remaining as [| remaining IH]; intros attempt w; cbv beta;
    rewrite retry_loop_unfold;
    pose proof (cached_call_spends backend read key model prompt w) as [Hn Hms];
    destruct (cached_call backend read key model prompt w) as [[e | v] w'];
    cbn [snd backoff_budget] in *; try (split; lia).
  - pose proof (backoff_budget_nonneg remaining (S attempt)) as Hpos.
    specialize (IH (S attempt)
      (World (modelCache w') (trace w' ++ [Delay (delay * (Z.of_nat attempt + 1))]))).
    cbv beta in IH. destruct IH as [IHn IHms].
    unfold fetches in *. cbn [trace] in *.
    rewrite requests_app in IHn. rewrite waited_app in IHms.
    change (requests [Delay _]) with 0%nat in IHn.
    change (waited [Delay (delay * (Z.of_nat attempt + 1))])
      with (delay * (Z.of_nat attempt + 1) + 0) in IHms.
    split; lia.
  - pose proof (backoff_budget_nonneg remaining (S attempt)) as Hpos.
    split; [lia | nia].
Qed.

End RetryEffects.

(** ** A call on its own *)

(** With no other call in flight, the call that the loop takes from one
    [await] to the next is [callModelWithRetry] taken as one step: the same
    result, the same world. *)
Section CallAlone.

Variable backend : nat -> jsstring -> jsstring -> http.
Variable read : http -> error + jsvalue.
Variable key : jsstring -> jsstring -> jsstring.
Variable delay : Z.
Variable schedule : nat -> nat.
Variables model prompt : jsstring.
Variable retries : nat.

#[local] Abbreviation loop := (event_loop backend read key delay schedule).
#[local] Abbreviation whole remaining attempt :=
  (retry_loop (cached_call backend read (key model prompt) model prompt)
     delay remaining attempt).

Lemma event_loop_single (c : call) (w : world) (fuel step : nat) :
  is_pending c = true ->
  loop (S fuel) step [c] w
  = loop fuel (S step) [fst (resume backend read key delay c w)]
      (snd (resume backend read key delay c w)).
Proof.
  intros Hp. cbn [event_loop]. unfold pending.
  cbn [length seq List.filter lookup list_lookup]. rewrite Hp.
  cbn [length]. rewrite Nat.mod_1_r. cbn [nth lookup list_lookup].
  destruct (resume backend read key delay c w) as [c' w']. reflexivity.
Qed.

Lemma event_loop_single_settled (c : call) (w : world) (fuel step : nat) :
  is_pending c = false -> loop fuel step [c] w = ([c], w).
Proof.
  intros Hp. destruct fuel; [reflexivity |]. cbn [event_loop]. unfold pending.
  cbn [length seq List.filter lookup list_lookup]. rewrite Hp. reflexivity.
Qed.

Lemma steps_left_attempt_call (attempt : nat) (w : world) :
  (steps_left (fst (attempt_call backend key model prompt retries attempt w))
   <= 2 * (retries - attempt) + 1)%nat /\
  (modelCache w !! key model prompt = None ->
   steps_left (fst (attempt_call backend key model prompt retries attempt w))
   = 2 * (retries - attempt) + 1)%nat.
Proof.
  unfold attempt_call, steps_left. destruct (modelCache w !! _); cbn [fst call_progress call_retries].
  - split; [lia | discriminate].
  - split; [lia | reflexivity].
Qed.

Lemma call_alone_from (remaining : nat) :
  forall attempt fuel step w,
    (steps_left (fst (attempt_call backend key model prompt retries attempt w))
     <= fuel)%nat ->
    (attempt + remaining = retries)%nat ->
    loop fuel step
      [fst (attempt_call backend key model prompt retries attempt w)]
      (snd (attempt_call backend key model prompt retries attempt w))
    = ([Call model prompt retries
          (Settled (settlement_of (fst (whole remaining attempt w))))],
       snd (whole remaining attempt w)).
Proof.
  induction remaining as [| remaining IH]; intros attempt fuel step w Hfuel Hsum;
    rewrite retry_loop_unfold, cached_call_cases;
    pose proof (steps_left_attempt_call attempt w) as [_ Hsteps];
    revert Hfuel Hsteps; unfold attempt_call;
    destruct (modelCache w !! key model prompt) as [value |] eqn:Hlookup;
    cbn [fst snd]; intros Hfuel Hsteps.
  - apply event_loop_single_settled. reflexivity.
  - rewrite (Hsteps eq_refl) in Hfuel.
    destruct fuel as [| fuel]; [lia |].
    rewrite event_loop_single by reflexivity. unfold resume.
    cbn [call_progress call_model call_prompt call_retries].
    destruct (read (backend (fetches w) model prompt)) as [e | result]; cbn [fst snd].
    + replace (attempt =? retries)%nat with true by (symmetry; apply Nat.eqb_eq; lia).
      cbn [fst snd]. apply event_loop_single_settled. reflexivity.
    + apply event_loop_single_settled. reflexivity.
  - apply event_loop_single_settled. reflexivity.
  - rewrite (Hsteps eq_refl) in Hfuel.
    destruct fuel as [| fuel]; [lia |].
    rewrite event_loop_single by reflexivity. unfold resume.
    cbn [call_progress call_model call_prompt call_retries].
    destruct (read (backend (fetches w) model prompt)) as [e | result]; cbn [fst snd].
    + replace (attempt =? retries)%nat with false by (symmetry; apply Nat.eqb_neq; lia).
      cbn [fst snd]. destruct fuel as [| fuel]; [lia |].
      rewrite event_loop_single by reflexivity. unfold resume at 1 2.
      cbn [call_progress call_model call_prompt call_retries].
      apply IH; [| lia].
      match goal with
      | |- context [attempt_call _ _ _ _ _ _ ?w'] =>
          pose proof (steps_left_attempt_call (S attempt) w') as [Hle _]
      end.
      lia.
    + apply event_loop_single_settled. reflexivity.
Qed.

Lemma call_alone (w : world) :
  fan backend read key delay schedule prompt retries [model] w
  = ([settlement_of (fst (whole retries 0%nat w))], snd (whole retries 0%nat w)).
Proof.
  unfold fan, allSettled. cbn [start_all].
  pose proof (call_alone_from retries 0%nat) as Hloop.
  destruct (attempt_call backend key model prompt retries 0 w) as [c w1] eqn:Hstart.
  cbn [map foldr].
  specialize (Hloop (steps_left c + 0)%nat 0%nat w). rewrite Hstart in Hloop.
  cbn [fst snd] in Hloop. rewrite Hloop by lia. reflexivity.
Qed.

End CallAlone.

(** X16. A call that is alone in flight is [callModelWithRetry] taken as
    one step. In either file, when the event loop has one call of
    [callModelWithRetry] to resume, from one [await] to the next, the result
    reported and the world left are those of the call run from beginning to
    end, whatever the schedule and the number of retries. *)
Theorem callModelWithRetry_alone
    (backend : nat -> jsstring -> jsstring -> http) (schedule : nat -> nat)
    (model prompt : jsstring) (retries : nat) (w : world) :
  fan backend (MlControler.read_response 100)
    (fun model prompt => model ++ js "-" ++ prompt) 2000 schedule
    prompt retries [model] w
  = ([settlement_of (fst (MlControler.callModelWithRetry backend model prompt retries w))],
     snd (MlControler.callModelWithRetry backend model prompt retries w)) /\
  fan backend JudgeController.read_response JudgeController.cacheKey
    JudgeController.retryDelay schedule prompt retries [model] w
  = ([settlement_of
        (fst (JudgeController.callModelWithRetry backend model prompt retries w))],
     snd (JudgeController.callModelWithRetry backend model prompt retries w)).
Proof. split; apply call_alone. Qed.

(** ** Two calls for one pair *)

Section Overlap.

Variable backend : nat -> jsstring -> jsstring -> http.
Variable read : http -> error + jsvalue.
Variable key : jsstring -> jsstring -> jsstring.
Variable delay : Z.
Variable schedule : nat -> nat.

#[local] Abbreviation loop := (event_loop backend read key delay schedule).

Lemma event_loop_step (fuel step : nat) (calls : list call) (w : world)
    (first : nat) (others : list nat) (c : call) :
  pending calls = first :: others ->
  calls !! nth (schedule step mod S (length others)) (first :: others) first = Some c ->
  loop (S fuel) step calls w
  = loop fuel (S step)
      (<[nth (schedule step mod S (length others)) (first :: others) first
         := fst (resume backend read key delay c w)]> calls)
      (snd (resume backend read key delay c w)).
Proof.
  intros Hpending Hc. cbn [event_loop]. rewrite Hpending. cbn [length]. rewrite Hc.
  destruct (resume backend read key delay c w) as [c' w']. reflexivity.
Qed.

Lemma event_loop_done (fuel step : nat) (calls : list call) (w : world) :
  pending calls = [] -> loop fuel step calls w = (calls, w).
Proof.
  intros Hnone. destruct fuel; [reflexivity |]. cbn [event_loop]. rewrite Hnone.
  reflexivity.
Qed.

(** Two calls for one pair in flight together, nothing cached: both miss
    and both ask; the call resumed first stores its result, and the one
    resumed last stores its own over it. *)
Lemma overlapping_run (model prompt : jsstring) (retries : nat) (w : world)
    (first second : jsvalue) :
  modelCache w !! key model prompt = None ->
  read (backend (fetches w) model prompt) = inr first ->
  read (backend (S (fetches w)) model prompt) = inr second ->
  fan backend read key delay schedule prompt retries [model; model] w
  = ([Fulfilled first; Fulfilled second],
     World (<[key model prompt := if (schedule 0 mod 2 =? 0)%nat then second else first]>
              (<[key model prompt := if (schedule 0 mod 2 =? 0)%nat then first else second]>
                 (modelCache w)))
       ((trace w ++ [Fetch model prompt]) ++ [Fetch model prompt])).
Proof.
  intros Hmiss Hfirst Hsecond. unfold fan. cbn [start_all]. unfold attempt_call.
  rewrite Hmiss. cbn [modelCache trace]. rewrite Hmiss. cbn [fst snd].
  rewrite fetches_after_fetch.
  unfold allSettled. cbn [map foldr].
  unfold steps_left at 1 2. cbn [call_progress call_retries].
  replace (2 * (retries - 0) + 1 + (2 * (retries - 0) + 1 + 0))%nat
    with (S (S (4 * retries)))%nat by lia.
  set (c0 := Call model prompt retries (AwaitsResponse 0 (backend (fetches w) model prompt))).
  set (c1 := Call model prompt retries
               (AwaitsResponse 0 (backend (S (fetches w)) model prompt))).
  assert (Hpending : pending [c0; c1] = [0%nat; 1%nat]) by reflexivity.
  pose proof (Nat.mod_upper_bound (schedule 0%nat) 2 ltac:(lia)) as Hbound.
  destruct (schedule 0%nat mod 2)%nat as [| [| k]] eqn:Hpick; [| | lia].
  - rewrite (event_loop_step _ _ _ _ 0%nat [1%nat] c0 Hpending)
      by (cbn [length]; rewrite Hpick; reflexivity).
    cbn [length]. rewrite Hpick. cbn [nth]. unfold resume at 1 2.
    cbn [call_progress c0]. rewrite Hfirst. cbn [fst snd].
    cbn [call_model call_prompt call_retries c0].
    change (<[0%nat := ?c]> [c0; c1]) with [c; c1].
    match goal with |- context [loop _ _ ?cs ?w'] =>
      assert (Hp : pending cs = [1%nat]) by reflexivity;
      rewrite (event_loop_step _ _ cs w' 1%nat [] c1 Hp)
        by (cbn [length]; rewrite Nat.mod_1_r; reflexivity)
    end.
    cbn [length]. rewrite Nat.mod_1_r. cbn [nth]. unfold resume at 1 2.
    cbn [call_progress c1]. rewrite Hsecond. cbn [fst snd].
    cbn [call_model call_prompt call_retries c1 modelCache trace].
    match goal with |- context [loop ?f ?s ?cs ?w'] =>
      rewrite (event_loop_done f s cs w') by reflexivity
    end.
    reflexivity.
  - rewrite (event_loop_step _ _ _ _ 0%nat [1%nat] c1 Hpending)
      by (cbn [length]; rewrite Hpick; reflexivity).
    cbn [length]. rewrite Hpick. cbn [nth]. unfold resume at 1 2.
    cbn [call_progress c1]. rewrite Hsecond. cbn [fst snd].
    cbn [call_model call_prompt call_retries c1].
    change (<[1%nat := ?c]> [c0; c1]) with [c0; c].
    match goal with |- context [loop _ _ ?cs ?w'] =>
      assert (Hp : pending cs = [0%nat]) by reflexivity;
      rewrite (event_loop_step _ _ cs w' 0%nat [] c0 Hp)
        by (cbn [length]; rewrite Nat.mod_1_r; reflexivity)
    end.
    cbn [length]. rewrite Nat.mod_1_r. cbn [nth]. unfold resume at 1 2.
    cbn [call_progress c0]. rewrite Hfirst. cbn [fst snd].
    cbn [call_model call_prompt call_retries c0 modelCache trace].
    match goal with |- context [loop ?f ?s ?cs ?w'] =>
      rewrite (event_loop_done f s cs w') by reflexivity
    end.
    reflexivity.
Qed.

End Overlap.

(** X15. The cache does not keep two calls that overlap from both asking.
    When two calls of [callModelWithRetry] for one model and prompt are in
    flight together (as two requests for the same prompt handled at once
    make them) and nothing is cached for the pair, both miss and both send
    a request; if both are answered each is fulfilled with its own answer,
    and the entry of the cache is first the answer of the call resumed
    first and in the end the answer of the call resumed last. In both
    files. *)
Theorem overlapping_calls_both_ask
    (backend : nat -> jsstring -> jsstring -> http) (schedule : nat -> nat)
    (model prompt : jsstring) (retries : nat) (w : world) (first second : jsvalue) :
  (modelCache w !! (model ++ js "-" ++ prompt) = None ->
   MlControler.read_response 100 (backend (fetches w) model prompt) = inr first ->
   MlControler.read_response 100 (backend (S (fetches w)) model prompt) = inr second ->
   fan backend (MlControler.read_response 100)
     (fun model prompt => model ++ js "-" ++ prompt) 2000 schedule
     prompt retries [model; model] w
   = ([Fulfilled first; Fulfilled second],
      World (<[model ++ js "-" ++ prompt
               := if (schedule 0%nat mod 2 =? 0)%nat then second else first]>
               (<[model ++ js "-" ++ prompt
                  := if (schedule 0%nat mod 2 =? 0)%nat then first else second]>
                  (modelCache w)))
        ((trace w ++ [Fetch model prompt]) ++ [Fetch model prompt]))) /\
  (modelCache w !! JudgeController.cacheKey model prompt = None ->
   JudgeController.read_response (backend (fetches w) model prompt) = inr first ->
   JudgeController.read_response (backend (S (fetches w)) model prompt) = inr second ->
   fan backend JudgeController.read_response JudgeController.cacheKey
     JudgeController.retryDelay schedule prompt retries [model; model] w
   = ([Fulfilled first; Fulfilled second],
      World (<[JudgeController.cacheKey model prompt
               := if (schedule 0%nat mod 2 =? 0)%nat then second else first]>
               (<[JudgeController.cacheKey model prompt
                  := if (schedule 0%nat mod 2 =? 0)%nat then first else second]>
                  (modelCache w)))
        ((trace w ++ [Fetch model prompt]) ++ [Fetch model prompt]))).
Proof.
  split; intros Hmiss Hfirst Hsecond.
  - exact (overlapping_run backend (MlControler.read_response 100)
             (fun model prompt => model ++ js "-" ++ prompt) 2000 schedule
             model prompt retries w first second Hmiss Hfirst Hsecond).
  - exact (overlapping_run backend JudgeController.read_response
             JudgeController.cacheKey JudgeController.retryDelay schedule
             model prompt retries w first second Hmiss Hfirst Hsecond).
Qed.

Lemma overlapping_calls_both_ask_witness :
  fst (fan changing (MlControler.read_response 100)
         (fun model prompt => model ++ js "-" ++ prompt) 2000 in_turn
         (js "hi") 2 [gemma; gemma] fresh)
    = [Fulfilled (Some (js "An early answer, soon replaced.")); Fulfilled (Some answer)] /\
  fetches (snd (fan changing (MlControler.read_response 100)
                  (fun model prompt => model ++ js "-" ++ prompt) 2000 in_turn
                  (js "hi") 2 [gemma; gemma] fresh)) = 2%nat /\
  modelCache (snd (fan changing (MlControler.read_response 100)
                     (fun model prompt => model ++ js "-" ++ prompt) 2000 in_turn
                     (js "hi") 2 [gemma; gemma] fresh))
    !! (gemma ++ js "-" ++ js "hi") = Some (Some answer).
Proof.
  rewrite (proj1 (overlapping_calls_both_ask changing in_turn gemma (js "hi") 2 fresh
                    (Some (js "An early answer, soon replaced.")) (Some answer)))
    by reflexivity.
  repeat split; reflexivity.
Defined.

(** ** What a fan-out costs *)

Section FanOutCost.

Variable backend : nat -> jsstring -> jsstring -> http.
Variable read : http -> error + jsvalue.
Variable key : jsstring -> jsstring -> jsstring.
Variable delay : Z.
Variable schedule : nat -> nat.

#[local] Abbreviation resume' := (resume backend read key delay).
#[local] Abbreviation loop := (event_loop backend read key delay schedule).
#[local] Abbreviation fan := (fan backend read key delay schedule).
#[local] Abbreviation waits_left := (waits_left delay).
#[local] Abbreviation to_wait := (to_wait delay).
#[local] Abbreviation within := (within delay).
#[local] Abbreviation misses := (misses key).

Lemma to_send_insert (calls : list call) (i : nat) (c c' : call) :
  calls !! i = Some c ->
  (to_send (<[i := c']> calls) + requests_left c = to_send calls + requests_left c')%nat.
Proof.
  revert i. induction calls as [| x calls IH]; intros [| i] Hc; try discriminate Hc.
  - injection Hc as ->. unfold to_send.
    change (<[0%nat := c']> (c :: calls)) with (c' :: calls). cbn [map foldr]. lia.
  - change ((x :: calls) !! S i) with (calls !! i) in Hc. specialize (IH i Hc).
    change (<[S i := c']> (x :: calls)) with (x :: <[i := c']> calls).
    unfold to_send in *. cbn [map foldr]. lia.
Qed.

Lemma to_wait_insert (calls : list call) (i : nat) (c c' : call) :
  calls !! i = Some c ->
  to_wait (<[i := c']> calls) + waits_left c = to_wait calls + waits_left c'.
Proof.
  revert i. induction calls as [| x calls IH]; intros [| i] Hc; try discriminate Hc.
  - injection Hc as ->. unfold to_wait.
    change (<[0%nat := c']> (c :: calls)) with (c' :: calls). cbn [map foldr]. lia.
  - change ((x :: calls) !! S i) with (calls !! i) in Hc. specialize (IH i Hc).
    change (<[S i := c']> (x :: calls)) with (x :: <[i := c']> calls).
    unfold to_wait in *. cbn [map foldr]. lia.
Qed.

Hypothesis delay_nonneg : 0 <= delay.

Lemma waits_left_nonneg (c : call) : 0 <= waits_left c.
Proof.
  unfold waits_left. destruct (call_progress c);
    try apply backoff_budget_nonneg; try exact delay_nonneg; lia.
Qed.

(** A step sends and waits no more than the call had left. *)
Lemma resume_cost (c : call) (w : world) :
  in_budget c ->
  (fetches (snd (resume' c w)) + requests_left (fst (resume' c w))
   <= fetches w + requests_left c)%nat /\
  waited (trace (snd (resume' c w))) + waits_left (fst (resume' c w))
  <= waited (trace w) + waits_left c.
Proof.
  pose proof (waits_left_nonneg c) as Hpos. revert Hpos.
  unfold in_budget, requests_left, waits_left, resume, attempt_call.
  destruct (call_progress c) as [a r | a | s] eqn:Hprogress; intros Hpos Hb.
  - destruct (read r); [destruct (a =? call_retries c)%nat eqn:Hlast |];
      unfold fetches; cbn [fst snd call_progress call_retries trace]; try (split; lia).
    apply Nat.eqb_neq in Hlast.
    rewrite requests_app, waited_app.
    change (requests [Delay _]) with 0%nat.
    change (waited [Delay (delay * (Z.of_nat a + 1))]) with (delay * (Z.of_nat a + 1) + 0).
    replace (call_retries c - a)%nat with (S (call_retries c - S a)) by lia.
    cbn [backoff_budget]. split; lia.
  - destruct (modelCache w !! _); cbn [fst snd call_progress call_retries trace];
      [split; lia |].
    unfold fetches. cbn [trace]. rewrite requests_app, waited_app.
    change (requests [Fetch _ _]) with 1%nat.
    change (waited [Fetch (call_model c) (call_prompt c)]) with 0.
    split; lia.
  - cbn [fst snd]. rewrite Hprogress. split; lia.
Qed.

Lemma event_loop_within (n : nat) (ms : Z) (fuel step : nat) (calls : list call)
    (w : world) :
  within n ms calls w ->
  within n ms (fst (loop fuel step calls w)) (snd (loop fuel step calls w)).
Proof.
  apply event_loop_invariant. intros cs w' i c (Hb & Hn & Hms) Hc _.
  pose proof (Forall_lookup_1 _ _ _ _ Hb Hc) as Hbc.
  pose proof (resume_cost c w' Hbc) as [Hn' Hms'].
  pose proof (to_send_insert cs i c (fst (resume' c w')) Hc).
  pose proof (to_wait_insert cs i c (fst (resume' c w')) Hc).
  split; [apply Forall_insert; [exact Hb | apply resume_in_budget, Hbc] |].
  split; lia.
Qed.

Lemma to_wait_nonneg (calls : list call) : 0 <= to_wait calls.
Proof.
  unfold to_wait. induction calls as [| c calls IH]; cbn [map foldr]; [lia |].
  pose proof (waits_left_nonneg c). lia.
Qed.

Lemma start_all_cost (prompt : jsstring) (retries : nat) (models : list jsstring) :
  forall w,
    modelCache (snd (start_all backend key models prompt retries w)) = modelCache w /\
    (fetches (snd (start_all backend key models prompt retries w))
     + to_send (fst (start_all backend key models prompt retries w))
     = fetches w + (retries + 1) * misses prompt models w)%nat /\
    waited (trace (snd (start_all backend key models prompt retries w)))
    + to_wait (fst (start_all backend key models prompt retries w))
    = waited (trace w)
      + Z.of_nat (misses prompt models w) * backoff_budget delay retries 0.
Proof.
  induction models as [| model rest IH]; intros w.
  - unfold misses, to_send, to_wait. cbn. split; [reflexivity |]. split; lia.
  - cbn [start_all]. unfold attempt_call, misses. cbn [List.filter].
    destruct (modelCache w !! key model prompt) as [value |] eqn:Hlookup.
    + rewrite bool_decide_eq_false_2 by discriminate.
      specialize (IH w). destruct (start_all backend key rest prompt retries w) as [cs w2].
      cbn [fst snd] in *. destruct IH as (Hcache & Hn & Hms).
      unfold to_send, to_wait, misses in *. cbn [map foldr].
      unfold requests_left at 1, waits_left at 1. cbn [call_progress].
      split; [exact Hcache |]. split; lia.
    + rewrite bool_decide_eq_true_2 by reflexivity.
      specialize (IH (World (modelCache w) (trace w ++ [Fetch model prompt]))).
      destruct (start_all backend key rest prompt retries _) as [cs w2].
      cbn [fst snd modelCache trace] in *. destruct IH as (Hcache & Hn & Hms).
      unfold to_send, to_wait, misses, fetches in *.
      cbn [map foldr length trace modelCache] in *.
      unfold requests_left at 1, waits_left at 1.
      cbn [call_progress call_retries].
      rewrite requests_app in Hn. rewrite waited_app in Hms.
      change (requests [Fetch model prompt]) with 1%nat in Hn.
      change (waited [Fetch model prompt]) with 0 in Hms.
      rewrite Nat.sub_0_r. split; [exact Hcache |]. split; [lia | nia].
Qed.

(** A fan-out sends at most [retries + 1] requests, and waits at most the
    whole back-off, for each model that has nothing cached. *)
Lemma fan_cost (prompt : jsstring) (retries : nat) (models : list jsstring) (w : world) :
  (fetches (snd (fan prompt retries models w))
   <= fetches w + (retries + 1) * misses prompt models w)%nat /\
  waited (trace (snd (fan prompt retries models w)))
  <= waited (trace w) + Z.of_nat (misses prompt models w) * backoff_budget delay retries 0.
Proof.
  unfold fan. pose proof (start_all_cost prompt retries models w) as (_ & Hn & Hms).
  pose proof (start_all_in_budget backend key models prompt retries w) as Hbudget.
  destruct (start_all backend key models prompt retries w) as [calls w1].
  cbn [fst snd] in *. unfold allSettled.
  pose proof (event_loop_within
                (fetches w + (retries + 1) * misses prompt models w)%nat
                (waited (trace w)
                 + Z.of_nat (misses prompt models w) * backoff_budget delay retries 0)
                (foldr Nat.add 0%nat (map steps_left calls)) 0 calls w1) as Hloop.
  destruct (loop _ 0%nat calls w1) as [calls' w']. cbn [fst snd] in *.
  destruct Hloop as (_ & Hn' & Hms'); [split; [exact Hbudget | split; lia] |].
  pose proof (to_wait_nonneg calls'). split; lia.
Qed.

End FanOutCost.

Lemma misses_le (key : jsstring -> jsstring -> jsstring) (prompt : jsstring)
    (models : list jsstring) (w : world) :
  (misses key prompt models w <= length models)%nat.
Proof. unfold misses. apply List.filter_length_le. Qed.

Section HandlerEffects.

Variable backend : nat -> jsstring -> jsstring -> http.
Variable schedule : nat -> nat.
Variable judge : jsstring -> list candidate -> judge_reply.
Variable analysis : jsstring -> analysis_reply.
Variable rnd : Q.
Variable development : bool.

Lemma mounted_settle_all_extends (prompt : jsstring) (w : world) :
  extends w (snd (MlControler.settle_all backend schedule prompt w)).
Proof.
  destruct (mounted_settle_all_spec backend schedule prompt w) as (Hpre & Hsub & _).
  split; assumption.
Qed.

Lemma strict_settle_all_extends (prompt : jsstring) (w : world) :
  extends w (snd (JudgeController.settle_all backend schedule prompt w)).
Proof.
  destruct (strict_settle_all_spec backend schedule prompt w) as (Hpre & Hsub & _).
  split; assumption.
Qed.

Lemma mounted_settle_all_spends (prompt : jsstring) :
  spends (MlControler.settle_all backend schedule prompt) 9 18000.
Proof.
  intros w.
  pose proof (fan_cost backend (MlControler.read_response 100)
                (fun model prompt => model ++ js "-" ++ prompt) 2000 schedule
                ltac:(lia) prompt 2 MODEL_LIST w) as [Hn Hms].
  pose proof (misses_le (fun model prompt => model ++ js "-" ++ prompt)
                prompt MODEL_LIST w) as Hmiss.
  change (length MODEL_LIST) with 3%nat in Hmiss.
  change (backoff_budget 2000 2 0) with 6000 in Hms.
  split; [etransitivity; [exact Hn | lia] | etransitivity; [exact Hms | lia]].
Qed.

Lemma strict_settle_all_spends (prompt : jsstring) :
  spends (JudgeController.settle_all backend schedule prompt) 12 36000.
Proof.
  intros w.
  pose proof (fan_cost backend JudgeController.read_response JudgeController.cacheKey
                JudgeController.retryDelay schedule ltac:(unfold JudgeController.retryDelay; lia)
                prompt JudgeController.maxRetries MODEL_LIST w) as [Hn Hms].
  pose proof (misses_le JudgeController.cacheKey prompt MODEL_LIST w) as Hmiss.
  change (length MODEL_LIST) with 3%nat in Hmiss.
  change (backoff_budget JudgeController.retryDelay JudgeController.maxRetries 0)
    with 12000 in Hms.
  change JudgeController.maxRetries with 3%nat in Hn.
  split; [etransitivity; [exact Hn | lia] | etransitivity; [exact Hms | lia]].
Qed.

(** Where a request to the judge route of [mlcontroler.js] leaves the
    world: untouched, or after the fan-out, or after the fan-out and one
    call to the judge. *)
Lemma mounted_judge_route_world (prompt : option jsstring) (w : world) :
  snd (MlControler.judgeAndGenerate backend schedule judge rnd development prompt w) = w \/
  exists text,
    prompt = Some text /\
    (snd (MlControler.judgeAndGenerate backend schedule judge rnd development prompt w)
     = snd (MlControler.settle_all backend schedule text w) \/
     snd (MlControler.judgeAndGenerate backend schedule judge rnd development prompt w)
     = World (modelCache (snd (MlControler.settle_all backend schedule text w)))
         (trace (snd (MlControler.settle_all backend schedule text w)) ++ [AskGemini])).
Proof.
  destruct prompt as [text |]; [| left; reflexivity].
  unfold MlControler.judgeAndGenerate, MlControler.fan_out.
  destruct (truthy_string text); cbn [negb]; [| left; reflexivity].
  right. exists text. split; [reflexivity |].
  destruct (MlControler.settle_all backend schedule text w) as [results w1]. cbn [snd].
  destruct (omap id (imap MlControler.to_candidate results)) as [| c cs];
    [left; reflexivity | right].
  unfold MlControler.judgeResponses.
  destruct (judge text (c :: cs)); cbn [snd fst];
    match goal with |- context [at_index ?l ?i] => destruct (at_index l i) end;
    reflexivity.
Qed.

Lemma strict_judge_route_world (prompt : option jsstring) (w : world) :
  snd (JudgeController.judgeAndGenerate backend schedule judge rnd development prompt w) = w \/
  exists text,
    prompt = Some text /\
    (snd (JudgeController.judgeAndGenerate backend schedule judge rnd development prompt w)
     = snd (JudgeController.settle_all backend schedule text w) \/
     snd (JudgeController.judgeAndGenerate backend schedule judge rnd development prompt w)
     = World (modelCache (snd (JudgeController.settle_all backend schedule text w)))
         (trace (snd (JudgeController.settle_all backend schedule text w))
          ++ [RemoveTokens JudgeChannel 1; AskGemini])).
Proof.
  destruct prompt as [text |]; [| left; reflexivity].
  unfold JudgeController.judgeAndGenerate, JudgeController.getModelResponses.
  destruct (truthy_string (trim text)); cbn [negb]; [| left; reflexivity].
  right. exists text. split; [reflexivity |].
  destruct (JudgeController.settle_all backend schedule text w) as [results w1]. cbn [snd].
  destruct (omap id (List.filter JudgeController.long_enough
                       (imap JudgeController.to_candidate results))) as [| c cs];
    [left; reflexivity | right].
  unfold JudgeController.judgeResponses, JudgeController.weightedRandomSelect.
  destruct (judge text (c :: cs)); cbn [snd fst];
    match goal with |- context [at_index ?l ?i] => destruct (at_index l i) end;
    reflexivity.
Qed.

(** Where a request to [llmController] leaves the world: untouched, or
    after the analysis, or after the analysis and one invocation of the
    chosen model. *)
Lemma llmController_world (prompt : option jsstring) (w : world) :
  snd (MlControler.llmController backend analysis development prompt w) = w \/
  exists text,
    prompt = Some text /\
    let analysed := World (modelCache w)
                      (trace w ++ [RemoveTokens AnalysisChannel 1; AskGemini]) in
    (snd (MlControler.llmController backend analysis development prompt w) = analysed \/
     exists modelId,
       snd (MlControler.llmController backend analysis development prompt w)
       = snd (MlControler.generateWithNvidia backend modelId text
                (World (modelCache w)
                   (trace analysed ++ [RemoveTokens ModelChannel 1])))).
Proof.
  destruct prompt as [text |]; [| left; reflexivity].
  unfold MlControler.llmController, MlControler.analyzeWithGemini.
  destruct (truthy_string (trim text)); cbn [negb]; [| left; reflexivity].
  right. exists text. split; [reflexivity |]. cbv zeta. cbn [modelCache trace].
  rewrite <- !app_assoc. cbn [app].
  destruct (match analysis text with
            | AnalysisFails => Some (Requirements 50 50 50 50)
            | AnalysisParsed value => value
            end) as [requirements |]; [right | left; reflexivity].
  exists (MlControler.selectOptimalModel requirements).
  destruct (MlControler.generateWithNvidia backend _ text _) as [[e | response] w4];
    [reflexivity |].
  destruct (MlControler.model_info _); reflexivity.
Qed.

End HandlerEffects.

(** X3. A request handled with no other request in flight removes and
    changes nothing that was cached. After [judgeAndGenerate] of either
    file, whatever the order in which the calls of its fan-out are resumed,
    or after [llmController], every entry that was in [modelCache] is still
    there with the same value, and the effects logged before the request
    are the beginning of the log after it: a call writes under its own key
    only, after a miss, and the keys of the calls of a fan-out are
    distinct. (Two requests in flight together are another matter: see
    X15.) *)
Theorem requests_extend_the_world
    (backend : nat -> jsstring -> jsstring -> http)
    (schedule : nat -> nat)
    (judge : jsstring -> list candidate -> judge_reply)
    (analysis : jsstring -> analysis_reply)
    (rnd : Q) (development : bool) (prompt : option jsstring) (w : world) :
  extends w (snd (MlControler.judgeAndGenerate backend schedule judge rnd development prompt w)) /\
  extends w (snd (JudgeController.judgeAndGenerate backend schedule judge rnd development prompt w)) /\
  extends w (snd (MlControler.llmController backend analysis development prompt w)).
Proof.
  split; [| split].
  - destruct (mounted_judge_route_world backend schedule judge rnd development prompt w)
      as [-> | (text & _ & [-> | ->])].
    + apply extends_refl.
    + apply mounted_settle_all_extends.
    + eapply extends_trans; [apply mounted_settle_all_extends | apply extends_log].
  - destruct (strict_judge_route_world backend schedule judge rnd development prompt w)
      as [-> | (text & _ & [-> | ->])].
    + apply extends_refl.
    + apply strict_settle_all_extends.
    + eapply extends_trans; [apply strict_settle_all_extends | apply extends_log].
  - destruct (llmController_world backend analysis development prompt w)
      as [-> | (text & _ & [-> | (modelId & ->)])].
    + apply extends_refl.
    + apply extends_log.
    + eapply extends_trans; [| apply cached_call_extends].
      cbn [trace]. rewrite <- app_assoc. apply extends_log.
Qed.

(** X4. The cost of one request is bounded, whatever the order in which
    the calls are resumed: [judgeAndGenerate] of [mlcontroler.js] sends at
    most 9 chat-completion requests (3 models, 3 attempts each) and sets
    back-off timers of at most 18000 ms in all; the strict controller at
    most 12 requests (4 attempts each) and 36000 ms; [llmController] sends
    at most one request, never retries and never waits. *)
Theorem requests_are_bounded
    (backend : nat -> jsstring -> jsstring -> http)
    (schedule : nat -> nat)
    (judge : jsstring -> list candidate -> judge_reply)
    (analysis : jsstring -> analysis_reply)
    (rnd : Q) (development : bool) (prompt : option jsstring) :
  spends (MlControler.judgeAndGenerate backend schedule judge rnd development prompt) 9 18000 /\
  spends (JudgeController.judgeAndGenerate backend schedule judge rnd development prompt) 12 36000 /\
  spends (MlControler.llmController backend analysis development prompt) 1 0.
Proof.
  split; [| split]; intros w.
  - pose proof (mounted_settle_all_spends backend schedule) as Hfan.
    destruct (mounted_judge_route_world backend schedule judge rnd development prompt w)
      as [-> | (text & _ & [-> | ->])]; [split; lia | apply Hfan |].
    destruct (Hfan text w) as [Hn Hms].
    destruct (MlControler.settle_all backend schedule text w) as [results w1].
    unfold fetches in *. cbn [snd trace] in *.
    rewrite requests_app, waited_app.
    change (requests [AskGemini]) with 0%nat. change (waited [AskGemini]) with 0.
    split; lia.
  - pose proof (strict_settle_all_spends backend schedule) as Hfan.
    destruct (strict_judge_route_world backend schedule judge rnd development prompt w)
      as [-> | (text & _ & [-> | ->])]; [split; lia | apply Hfan |].
    destruct (Hfan text w) as [Hn Hms].
    destruct (JudgeController.settle_all backend schedule text w) as [results w1].
    unfold fetches in *. cbn [snd trace] in *.
    rewrite requests_app, waited_app.
    change (requests [RemoveTokens JudgeChannel 1; AskGemini]) with 0%nat.
    change (waited [RemoveTokens JudgeChannel 1; AskGemini]) with 0.
    split; lia.
  - destruct (llmController_world backend analysis development prompt w)
      as [-> | (text & _ & [-> | (modelId & ->)])]; [split; lia | |].
    + unfold fetches. cbn [trace]. rewrite requests_app, waited_app.
      change (requests [RemoveTokens AnalysisChannel 1; AskGemini]) with 0%nat.
      change (waited [RemoveTokens AnalysisChannel 1; AskGemini]) with 0.
      split; lia.
    + match goal with
      | |- context [MlControler.generateWithNvidia _ _ _ ?w0] =>
          destruct (cached_call_spends backend (MlControler.read_response 200)
                      (modelId ++ js "-" ++ base64url text) modelId text w0)
            as [Hn Hms]
      end.
      unfold MlControler.generateWithNvidia. rewrite Hms.
      unfold fetches in *. cbn [trace] in *.
      rewrite !requests_app in Hn. rewrite !waited_app.
      change (requests [RemoveTokens AnalysisChannel 1; AskGemini]) with 0%nat in Hn.
      change (requests [RemoveTokens ModelChannel 1]) with 0%nat in Hn.
      change (waited [RemoveTokens AnalysisChannel 1; AskGemini]) with 0.
      change (waited [RemoveTokens ModelChannel 1]) with 0.
      split; lia.
Qed.

(** ** A request repeated *)

Section Repeat.

Variable backend : nat -> jsstring -> jsstring -> http.
Variable read : http -> error + jsvalue.
Variable key : jsstring -> jsstring -> jsstring.
Variable prompt : jsstring.
Variable delay : Z.
Variable retries : nat.
Hypothesis delay_nonneg : 0 <= delay.

#[local] Abbreviation fan schedule :=
  (fan backend read key delay schedule prompt retries).

(** The models with nothing cached are among those whose call was not
    fulfilled. *)
Lemma misses_rejections (models : list jsstring) (results : list settlement)
    (w : world) :
  Forall2 (fun model result =>
             forall value, result = Fulfilled value ->
               modelCache w !! key model prompt = Some value) models results ->
  (misses key prompt models w <= rejections results)%nat.
Proof.
  unfold misses, rejections.
  induction 1 as [| model result models results Hcached _ IH]; [reflexivity |].
  cbn [List.filter]. destruct result as [value | e]; cbn [is_rejected].
  - rewrite bool_decide_eq_false_2; [exact IH |].
    rewrite (Hcached value eq_refl). discriminate.
  - destruct (bool_decide _); cbn [length]; lia.
Qed.

(** A second fan-out over the same models, from the world the first one
    left, whatever the two schedules: what the first fulfilled the second
    fulfils from the cache, and only the other models are asked. *)
Lemma repeated_fan (first later : nat -> nat) (models : list jsstring) (w : world) :
  NoDup (map (fun m => key m prompt) models) ->
  Forall2 persists (fst (fan first models w))
    (fst (fan later models (snd (fan first models w)))) /\
  (fetches (snd (fan later models (snd (fan first models w))))
   <= fetches (snd (fan first models w))
      + (retries + 1) * rejections (fst (fan first models w)))%nat.
Proof.
  intros Hdup.
  destruct (fan_spec backend read key delay first prompt retries models w Hdup)
    as (_ & _ & Hfirst).
  destruct (fan_spec backend read key delay later prompt retries models
              (snd (fan first models w)) Hdup) as (_ & _ & Hlater).
  pose proof (fan_cost backend read key delay later delay_nonneg prompt retries models
                (snd (fan first models w))) as [Hn _].
  destruct (fan first models w) as [results w1]. cbn [fst snd] in *.
  destruct (fan later models w1) as [results' w2]. cbn [fst snd] in *.
  split.
  - apply Forall2_same_length_lookup_2.
    + apply Forall2_length in Hfirst, Hlater. congruence.
    + intros i r r' Hr Hr' value ->.
      destruct (Forall2_lookup_r _ _ _ _ _ Hfirst Hr) as (model & Hmodel & _ & Hcached).
      destruct (Forall2_lookup_lr _ _ _ _ _ _ Hlater Hmodel Hr') as [Hend _].
      unfold call_outcome, settles_as in Hend.
      rewrite (Hcached value eq_refl) in Hend. apply Hend.
  - assert (misses key prompt models w1 <= rejections results)%nat as Hmiss.
    { apply misses_rejections. eapply Forall2_impl; [exact Hfirst |].
      intros model result [_ Hcached]. exact Hcached. }
    eapply Nat.le_trans; [exact Hn |].
    apply Nat.add_le_mono_l, Nat.mul_le_mono_l, Hmiss.
Qed.

End Repeat.

Lemma persisting_cells_sublist (first second : list (option candidate)) :
  Forall2 (fun a b => a = None \/ a = b) first second ->
  sublist (omap id first) (omap id second).
Proof.
  induction 1 as [| a b first second Hab _ IH]; [constructor |].
  destruct Hab as [-> | ->]; cbn.
  - destruct b; [apply sublist_cons, IH | exact IH].
  - destruct b; [apply sublist_skip, IH | exact IH].
Qed.

Lemma kept_cells_omap (keep : option candidate -> bool) (cells : list (option candidate)) :
  omap id (List.filter keep cells)
  = omap id (map (fun cell => if keep cell then cell else None) cells).
Proof.
  induction cells as [| cell cells IH]; [reflexivity |].
  cbn [List.filter map]. destruct (keep cell); cbn; rewrite IH; reflexivity.
Qed.

Lemma persisting_results_cells (pick : nat -> settlement -> option candidate)
    (first second : list settlement) :
  (forall idx e, pick idx (Rejected e) = None) ->
  Forall2 persists first second ->
  Forall2 (fun a b => a = None \/ a = b) (imap pick first) (imap pick second).
Proof.
  intros Hpick Hpers. revert pick Hpick.
  induction Hpers as [| r1 r2 first second Hr _ IH]; intros pick Hpick;
    [constructor |].
  cbn [imap]. constructor.
  - destruct r1 as [value | e]; [right | left; apply Hpick].
    rewrite (Hr value eq_refl). reflexivity.
  - apply IH. intros idx e. apply Hpick.
Qed.

(** X5. A repeated fan-out for the same prompt only asks the models that
    failed the first time. In either file, when the fan-out is run again
    from the world the first run left, whatever the order in which the
    calls of either run are resumed: every call fulfilled in the first run
    is fulfilled with the same value, from the cache; the requests sent are
    at most (retries + 1) for each call the first run saw rejected (3 each
    in [mlcontroler.js], 4 each in the strict controller), so none at all
    when every model had answered; and the candidates of the first run are,
    in order, among the candidates of the second. *)
Theorem repeated_fan_out
    (backend : nat -> jsstring -> jsstring -> http) (schedule later : nat -> nat)
    (prompt : jsstring) (w : world) :
  (Forall2 persists
     (fst (MlControler.settle_all backend schedule prompt w))
     (fst (again (MlControler.settle_all backend schedule prompt)
             (MlControler.settle_all backend later prompt) w)) /\
   (fetches (snd (again (MlControler.settle_all backend schedule prompt)
                    (MlControler.settle_all backend later prompt) w))
    <= fetches (snd (MlControler.settle_all backend schedule prompt w))
       + 3 * rejections (fst (MlControler.settle_all backend schedule prompt w)))%nat /\
   sublist (fst (MlControler.fan_out backend schedule prompt w))
     (fst (again (MlControler.fan_out backend schedule prompt)
             (MlControler.fan_out backend later prompt) w))) /\
  (Forall2 persists
     (fst (JudgeController.settle_all backend schedule prompt w))
     (fst (again (JudgeController.settle_all backend schedule prompt)
             (JudgeController.settle_all backend later prompt) w)) /\
   (fetches (snd (again (JudgeController.settle_all backend schedule prompt)
                    (JudgeController.settle_all backend later prompt) w))
    <= fetches (snd (JudgeController.settle_all backend schedule prompt w))
       + 4 * rejections (fst (JudgeController.settle_all backend schedule prompt w)))%nat /\
   sublist (fst (JudgeController.getModelResponses backend schedule prompt w))
     (fst (again (JudgeController.getModelResponses backend schedule prompt)
             (JudgeController.getModelResponses backend later prompt) w))).
Proof.
  split.
  - assert (Hrep :
      Forall2 persists
        (fst (MlControler.settle_all backend schedule prompt w))
        (fst (again (MlControler.settle_all backend schedule prompt)
                (MlControler.settle_all backend later prompt) w)) /\
      (fetches (snd (again (MlControler.settle_all backend schedule prompt)
                       (MlControler.settle_all backend later prompt) w))
       <= fetches (snd (MlControler.settle_all backend schedule prompt w))
          + 3 * rejections (fst (MlControler.settle_all backend schedule prompt w)))%nat)
      by exact (repeated_fan backend (MlControler.read_response 100)
                  (fun model prompt => model ++ js "-" ++ prompt) prompt 2000 2
                  ltac:(lia) schedule later MODEL_LIST w
                  (registry_keys_distinct prompt)).
    destruct Hrep as [Hpers Hcost].
    split; [exact Hpers |]. split; [exact Hcost |]. clear Hcost.
    unfold again, MlControler.fan_out in *.
    destruct (MlControler.settle_all backend schedule prompt w) as [first w1].
    cbn [fst snd] in *.
    destruct (MlControler.settle_all backend later prompt w1) as [second w2].
    cbn [fst] in *.
    apply persisting_cells_sublist, persisting_results_cells;
      [reflexivity | exact Hpers].
  - assert (Hrep :
      Forall2 persists
        (fst (JudgeController.settle_all backend schedule prompt w))
        (fst (again (JudgeController.settle_all backend schedule prompt)
                (JudgeController.settle_all backend later prompt) w)) /\
      (fetches (snd (again (JudgeController.settle_all backend schedule prompt)
                       (JudgeController.settle_all backend later prompt) w))
       <= fetches (snd (JudgeController.settle_all backend schedule prompt w))
          + 4 * rejections (fst (JudgeController.settle_all backend schedule prompt w)))%nat)
      by exact (repeated_fan backend JudgeController.read_response
                  JudgeController.cacheKey prompt 2000 3
                  ltac:(lia) schedule later MODEL_LIST w
                  (registry_keys_distinct (base64url prompt))).
    destruct Hrep as [Hpers Hcost].
    split; [exact Hpers |]. split; [exact Hcost |]. clear Hcost.
    unfold again, JudgeController.getModelResponses in *.
    destruct (JudgeController.settle_all backend schedule prompt w) as [first w1].
    cbn [fst snd] in *.
    destruct (JudgeController.settle_all backend later prompt w1) as [second w2].
    cbn [fst] in *. rewrite !kept_cells_omap.
    apply persisting_cells_sublist.
    pose proof (persisting_results_cells JudgeController.to_candidate first second
                  ltac:(reflexivity) Hpers) as Hcells.
    induction Hcells as [| a b cs1 cs2 Hab _ IH]; [constructor |].
    cbn [map]. constructor; [| exact IH].
    destruct Hab as [-> | ->]; [left | right]; reflexivity.
Qed.

(** ** Cache keys *)

Lemma registry_prefix_free (m1 m2 : jsstring) (rest1 rest2 : jsstring) :
  m1 ∈ MODEL_LIST -> m2 ∈ MODEL_LIST ->
  m1 ++ js "-" ++ rest1 = m2 ++ js "-" ++ rest2 ->
  m1 = m2 /\ rest1 = rest2.
Proof.
  unfold MODEL_LIST. intros H1 H2 Heq.
  repeat (apply elem_of_cons in H1 as [-> | H1]);
    try (apply elem_of_nil in H1; contradiction);
    repeat (apply elem_of_cons in H2 as [-> | H2]);
    try (apply elem_of_nil in H2; contradiction);
    try (exfalso; apply (f_equal head) in Heq; vm_compute in Heq; discriminate Heq);
    (split; [reflexivity |]);
    apply app_inv_head in Heq; apply app_inv_head in Heq; exact Heq.
Qed.

(** X6. The cache keys of the judge pipeline keep the registry models
    apart. For models of [MODEL_LIST]: two calls of [callModel] in
    [mlcontroler.js] share a cache key only if they are for the same model
    and the same prompt; two calls of [callModel] in the strict controller,
    or of [generateWithNvidia], share a key only if they are for the same
    model and prompts with the same base64url text. *)
Theorem cache_keys_separate_models (m1 m2 p1 p2 : jsstring) :
  m1 ∈ MODEL_LIST -> m2 ∈ MODEL_LIST ->
  (m1 ++ js "-" ++ p1 = m2 ++ js "-" ++ p2 -> m1 = m2 /\ p1 = p2) /\
  (JudgeController.cacheKey m1 p1 = JudgeController.cacheKey m2 p2 ->
   m1 = m2 /\ base64url p1 = base64url p2) /\
  (m1 ++ js "-" ++ base64url p1 = m2 ++ js "-" ++ base64url p2 ->
   m1 = m2 /\ base64url p1 = base64url p2).
Proof.
  intros H1 H2. unfold JudgeController.cacheKey.
  split; [| split]; apply (registry_prefix_free _ _ _ _ H1 H2).
Qed.

Lemma cache_keys_separate_models_witness :
  (gemma ++ js "-" ++ js "hi" = gemma ++ js "-" ++ js "hi" ->
   gemma = gemma /\ js "hi" = js "hi") /\
  (JudgeController.cacheKey gemma (js "hi") = JudgeController.cacheKey gemma (js "hi") ->
   gemma = gemma /\ base64url (js "hi") = base64url (js "hi")) /\
  (gemma ++ js "-" ++ base64url (js "hi") = gemma ++ js "-" ++ base64url (js "hi") ->
   gemma = gemma /\ base64url (js "hi") = base64url (js "hi")).
Proof.
  apply (cache_keys_separate_models gemma gemma (js "hi") (js "hi"));
    unfold MODEL_LIST, gemma; repeat constructor.
Defined.

(** X7. In [mlcontroler.js] the two routes share [modelCache] under two
    key schemes, and the schemes overlap: once [callModel] (judge route) has
    stored an answer for a model and the prompt that is the base64url text
    of [prompt], [generateWithNvidia] (llm route) called for that model
    and [prompt] finds it under its own key and returns it, the answer to
    another prompt, without sending a request. *)
Theorem routes_share_cache_entries
    (backend : nat -> jsstring -> jsstring -> http) (model prompt : jsstring)
    (w w1 : world) (value : jsvalue) :
  MlControler.callModel backend model (base64url prompt) w = (inr value, w1) ->
  MlControler.generateWithNvidia backend model prompt w1 = (inr value, w1).
Proof.
  intros Hcall. apply cached_call_hit.
  eapply cached_call_success_stored, Hcall.
Qed.

Lemma routes_share_cache_entries_witness :
  MlControler.callModel answering gemma (js "aGk") fresh
    = (inr (Some answer),
       World {[ gemma ++ js "-" ++ js "aGk" := Some answer ]}
         [Fetch gemma (js "aGk")]) /\
  MlControler.generateWithNvidia answering gemma (js "hi")
    (World {[ gemma ++ js "-" ++ js "aGk" := Some answer ]} [Fetch gemma (js "aGk")])
    = (inr (Some answer),
       World {[ gemma ++ js "-" ++ js "aGk" := Some answer ]}
         [Fetch gemma (js "aGk")]).
Proof.
  split; [reflexivity |].
  apply (routes_share_cache_entries answering gemma (js "hi") fresh).
  reflexivity.
Defined.

(** ** The analysis route *)

Lemma EXPERT_MODELS_info (k : nat) (entry : jsstring * expert) :
  MlControler.EXPERT_MODELS !! k = Some entry ->
  MlControler.model_info (fst entry) = Some (snd entry) /\ fst entry ∈ MODEL_LIST.
Proof.
  destruct k as [| [| [| k]]]; cbn [lookup list_lookup MlControler.EXPERT_MODELS];
    intros H; try discriminate H; injection H as <-;
    (split; [vm_compute; reflexivity | unfold MODEL_LIST; cbn [fst]; repeat constructor]).
Qed.

(** X8. Whatever the requirements (NaN and infinities included),
    [selectOptimalModel] returns the ID of a model of the registry, so the
    lookup [EXPERT_MODELS[modelId]] that follows in [llmController] always
    finds its descriptor; the ID is also one of [MODEL_LIST]. *)
Theorem selectOptimalModel_in_registry (req : requirements) :
  exists info,
    MlControler.model_info (MlControler.selectOptimalModel req) = Some info /\
    (MlControler.selectOptimalModel req, info) ∈ MlControler.EXPERT_MODELS /\
    MlControler.selectOptimalModel req ∈ MODEL_LIST.
Proof.
  unfold MlControler.selectOptimalModel.
  destruct (select_from_spec req MlControler.EXPERT_MODELS)
    as [(k & entry & Hwin & ->) | [_ ->]].
  - destruct Hwin as [Hk _].
    rewrite (EXPERT_MODELS_ids_truthy k entry Hk).
    destruct (EXPERT_MODELS_info k entry Hk) as [Hinfo Hin].
    exists (snd entry). split; [exact Hinfo |]. split; [| exact Hin].
    rewrite <- surjective_pairing. eapply list_elem_of_lookup_2, Hk.
  - eexists. split; [vm_compute; reflexivity |].
    split; [| unfold MODEL_LIST; repeat constructor].
    unfold MlControler.EXPERT_MODELS. apply list_elem_of_here.
Qed.

Section AnalysisRoute.

Variable backend : nat -> jsstring -> jsstring -> http.
Variable analysis : jsstring -> analysis_reply.
Variable development : bool.

Lemma llmController_unfold (text : jsstring) (w : world) :
  truthy_string (trim text) = true ->
  MlControler.llmController backend analysis development (Some text) w =
    match analysed analysis text with
    | None =>
        (MlControler.processing_error development "Processing failed" TypeError,
         World (modelCache w) (trace w ++ [RemoveTokens AnalysisChannel 1; AskGemini]))
    | Some req =>
        match MlControler.generateWithNvidia backend
                (MlControler.selectOptimalModel req) text (before_generation w) with
        | (inl e, w') =>
            (MlControler.processing_error development "Processing failed" e, w')
        | (inr response, w') =>
            match MlControler.model_info (MlControler.selectOptimalModel req) with
            | Some info =>
                (Reply 200 (LlmBody response (MlControler.selectOptimalModel req) info req),
                 w')
            | None =>
                (MlControler.processing_error development "Processing failed" TypeError,
                 w')
            end
        end
    end.
Proof.
  intros Hok. unfold MlControler.llmController, MlControler.analyzeWithGemini,
    analysed, before_generation.
  rewrite Hok. cbn [negb modelCache trace]. rewrite <- !app_assoc. cbn [app].
  destruct (match analysis text with
            | AnalysisFails => _
            | AnalysisParsed value => value
            end); reflexivity.
Qed.

End AnalysisRoute.

(** X9. The outcome of [llmController] on a prompt that is not blank, when
    the analysis yields requirements [req] (parsed, or the neutral vector
    after a failure). The handler takes a token of the analysis channel,
    asks the analysis, takes a token of the model channel, and invokes the
    model [selectOptimalModel req] once, with no retry. Both tokens are
    taken even when the answer is in the cache, in which case no request is
    sent. The reply is 200, with the answer, the ID and descriptor of that
    registry model and [req], exactly when the invocation succeeds; when it
    throws, the reply is 500 and nothing is cached. *)
Theorem llmController_outcome
    (backend : nat -> jsstring -> jsstring -> http)
    (analysis : jsstring -> analysis_reply) (development : bool)
    (text : jsstring) (req : requirements) (w : world) :
  truthy_string (trim text) = true ->
  analysed analysis text = Some req ->
  let modelId := MlControler.selectOptimalModel req in
  let key := modelId ++ js "-" ++ base64url text in
  let outcome := MlControler.llmController backend analysis development (Some text) w in
  match modelCache w !! key with
  | Some cached =>
      exists info,
        (modelId, info) ∈ MlControler.EXPERT_MODELS /\
        outcome = (Reply 200 (LlmBody cached modelId info req), before_generation w)
  | None =>
      match MlControler.read_response 200
              (backend (fetches w) modelId text) with
      | inr response =>
          exists info,
            (modelId, info) ∈ MlControler.EXPERT_MODELS /\
            outcome
            = (Reply 200 (LlmBody response modelId info req),
               World (<[key := response]> (modelCache w))
                 (trace (before_generation w) ++ [Fetch modelId text]))
      | inl e =>
          outcome
          = (Reply 500 (ErrorBody (js "Processing failed") None
                          (if development then Some e else None)),
             World (modelCache w)
               (trace (before_generation w) ++ [Fetch modelId text]))
      end
  end.
Proof.
  intros Hok Hreq modelId key outcome. subst outcome.
  rewrite (llmController_unfold backend analysis development text w Hok), Hreq.
  destruct (selectOptimalModel_in_registry req) as (info & Hinfo & Hin & _).
  fold modelId in Hinfo, Hin |- *. rewrite Hinfo.
  unfold MlControler.generateWithNvidia. fold key. rewrite cached_call_cases.
  assert (Hfetches : fetches (before_generation w) = fetches w).
  { unfold fetches, before_generation. cbn [trace]. rewrite requests_app.
    change (requests [RemoveTokens AnalysisChannel 1; AskGemini;
                      RemoveTokens ModelChannel 1]) with 0%nat. lia. }
  rewrite Hfetches. cbn [modelCache before_generation].
  destruct (modelCache w !! key) as [cached |].
  - exists info. split; [exact Hin | reflexivity].
  - destruct (MlControler.read_response 200 (backend (fetches w) modelId text))
      as [e | response].
    + reflexivity.
    + exists info. split; [exact Hin | reflexivity].
Qed.

Lemma llmController_outcome_witness :
  exists info,
    (MlControler.selectOptimalModel scenario, info) ∈ MlControler.EXPERT_MODELS /\
    MlControler.llmController answering (fun _ => AnalysisParsed (Some scenario)) false
      (Some (js "hi")) fresh
    = (Reply 200 (LlmBody (Some answer) (MlControler.selectOptimalModel scenario)
                    info scenario),
       World (<[MlControler.selectOptimalModel scenario ++ js "-" ++ base64url (js "hi")
                := Some answer]> ∅)
         (trace (before_generation fresh)
          ++ [Fetch (MlControler.selectOptimalModel scenario) (js "hi")])).
Proof.
  exact (llmController_outcome answering (fun _ => AnalysisParsed (Some scenario))
           false (js "hi") scenario fresh eq_refl eq_refl).
Defined.

(** X10. A failed analysis never fails the request. When the analysis
    call throws (or its text is no JSON), [llmController] goes on with the
    neutral requirements (50, 50, 50, 50), for which the selection always
    picks deepseek-ai/deepseek-r1-distill-llama-8b; when the analysis text
    parses to [null], the handler answers 500 before any token of the model
    channel is taken and before any request is sent. *)
Theorem llmController_analysis_failure
    (backend : nat -> jsstring -> jsstring -> http)
    (analysis : jsstring -> analysis_reply) (development : bool)
    (text : jsstring) (w : world) :
  truthy_string (trim text) = true ->
  (analysis text = AnalysisFails ->
   analysed analysis text = Some (Requirements 50 50 50 50) /\
   MlControler.selectOptimalModel (Requirements 50 50 50 50)
     = js "deepseek-ai/deepseek-r1-distill-llama-8b" /\
   forall response w',
     MlControler.generateWithNvidia backend
       (js "deepseek-ai/deepseek-r1-distill-llama-8b") text (before_generation w)
     = (inr response, w') ->
     exists info,
       MlControler.llmController backend analysis development (Some text) w
       = (Reply 200 (LlmBody response (js "deepseek-ai/deepseek-r1-distill-llama-8b")
                       info (Requirements 50 50 50 50)), w')) /\
  (analysis text = AnalysisParsed None ->
   MlControler.llmController backend analysis development (Some text) w
   = (Reply 500 (ErrorBody (js "Processing failed") None
                   (if development then Some TypeError else None)),
      World (modelCache w) (trace w ++ [RemoveTokens AnalysisChannel 1; AskGemini]))).
Proof.
  intros Hok. split; intros Hana;
    rewrite (llmController_unfold backend analysis development text w Hok);
    unfold analysed; rewrite Hana; [| reflexivity].
  split; [reflexivity |].
  assert (Hmodel : MlControler.selectOptimalModel (Requirements 50 50 50 50)
                   = js "deepseek-ai/deepseek-r1-distill-llama-8b")
    by (vm_compute; reflexivity).
  split; [exact Hmodel |]. intros response w' Hgen.
  rewrite Hmodel, Hgen. eexists.
  change (MlControler.model_info (js "deepseek-ai/deepseek-r1-distill-llama-8b"))
    with (Some (Expert (js "Technical Coding & Mathematics")
                  (Benchmarks 91.6 94.2 93.4 128000))).
  reflexivity.
Qed.

Lemma llmController_analysis_failure_witness :
  status (fst (MlControler.llmController answering analysis_down false
                 (Some (js "hi")) fresh)) = 200.
Proof.
  destruct (llmController_analysis_failure answering analysis_down false (js "hi")
              fresh eq_refl) as [Hfails _].
  destruct (Hfails eq_refl) as (_ & _ & Hreply).
  destruct (Hreply (Some answer) _ eq_refl) as (info & ->). reflexivity.
Defined.

(** ** Replies that are a number and nothing else *)

Lemma digit_not_space (c : N) : is_digit c = true -> is_space c = false.
Proof.
  unfold is_digit, is_space. intros H.
  apply andb_true_iff in H as [Hlo Hhi].
  apply N.leb_le in Hlo, Hhi.
  repeat match goal with
  | |- context [(?a <=? ?b)%N] => destruct (N.leb_spec a b)
  | |- context [(?a =? ?b)%N] => destruct (N.eqb_spec a b)
  end; try reflexivity; lia.
Qed.

Lemma digit_not_letter_o (c : N) :
  is_digit c = true -> (fold_case 111 =? fold_case c)%N = false.
Proof.
  unfold is_digit, fold_case. intros H.
  apply andb_true_iff in H as [Hlo Hhi]. apply N.leb_le in Hlo, Hhi.
  change ((97 <=? 111)%N && (111 <=? 122)%N) with true. cbn [N.sub].
  destruct ((97 <=? c)%N && (c <=? 122)%N) eqn:Hc.
  - apply andb_true_iff in Hc as [Hc _]. apply N.leb_le in Hc. lia.
  - apply N.eqb_neq. cbn. lia.
Qed.

Lemma digit_not_quote (c : N) : is_digit c = true -> c <> 34%N /\ c <> 39%N.
Proof.
  unfold is_digit. intros H. apply andb_true_iff in H as [Hlo _].
  apply N.leb_le in Hlo. lia.
Qed.

Lemma numeral_leading_digits (text : jsstring) :
  Forall (fun c => is_digit c = true) text -> leading_digits text = text.
Proof.
  induction 1 as [| c rest Hc _ IH]; [reflexivity |].
  cbn. rewrite Hc, IH. reflexivity.
Qed.

Lemma numeral_skip_to_digit (text : jsstring) :
  Forall (fun c => is_digit c = true) text -> skip_to_digit text = text.
Proof. destruct 1 as [| c rest Hc _]; [reflexivity |]. cbn. rewrite Hc. reflexivity. Qed.

Lemma numeral_strip_quotes (text : jsstring) :
  Forall (fun c => is_digit c = true) text -> strip_quotes text = text.
Proof.
  unfold strip_quotes. induction 1 as [| c rest Hc _ IH]; [reflexivity |].
  rewrite filter_cons_True by (apply digit_not_quote, Hc). rewrite IH. reflexivity.
Qed.

Lemma numeral_remove_option (text : jsstring) :
  Forall (fun c => is_digit c = true) text -> remove_ci (js "option") text = text.
Proof.
  unfold remove_ci. induction 1 as [| c rest Hc _ IH]; [reflexivity |].
  cbn [remove_ci_from].
  replace (starts_with_ci (js "option") (c :: rest)) with false.
  - rewrite IH. reflexivity.
  - change (js "option") with (111%N :: js "ption"). cbn [starts_with_ci].
    rewrite (digit_not_letter_o c Hc). reflexivity.
Qed.

Lemma numeral_trimStart (text : jsstring) :
  Forall (fun c => is_digit c = true) text -> trimStart text = text.
Proof.
  destruct 1 as [| c rest Hc _]; [reflexivity |].
  cbn. rewrite (digit_not_space c Hc). reflexivity.
Qed.

Lemma numeral_forallb (text : jsstring) :
  Forall (fun c => is_digit c = true) text -> forallb is_digit text = true.
Proof.
  intros Hd. apply forallb_forall. intros c Hc. rewrite Forall_forall in Hd.
  apply Hd, list_elem_of_In, Hc.
Qed.

Lemma numeral_trim (text : jsstring) :
  Forall (fun c => is_digit c = true) text -> trim text = text.
Proof.
  intros Hd. unfold trim, trimEnd. rewrite (numeral_trimStart text Hd).
  rewrite (numeral_trimStart (rev text)) by (apply Forall_rev, Hd).
  apply rev_involutive.
Qed.

Lemma parseInt_from_nonneg (digits : jsstring) :
  Forall (fun c => is_digit c = true) digits ->
  forall acc, 0 <= acc ->
    0 <= fold_left (fun acc c => 10 * acc + (Z.of_N c - 48)) digits acc.
Proof.
  induction 1 as [| c rest Hc _ IH]; intros acc Hacc; [exact Hacc |].
  cbn [fold_left]. apply IH.
  unfold is_digit in Hc. apply andb_true_iff in Hc as [Hlo _].
  apply N.leb_le in Hlo. lia.
Qed.

(** X11. On a reply that is a number and nothing else the two parsers
    agree, and never fall back to the random index: both return the number
    itself when it is below the number of candidates, and the index of the
    last candidate when it is not. *)
Theorem parseBestIndex_on_numeral (rnd : Q) (text : jsstring) (n : Z) :
  numeral text -> 1 <= n ->
  MlControler.parseBestIndex rnd text n = Z.min (parseInt text) (n - 1) /\
  JudgeController.parseBestIndex rnd text n = Z.min (parseInt text) (n - 1) /\
  0 <= parseInt text.
Proof.
  intros [Hne Hd] Hn.
  assert (Hpos : 0 <= parseInt text)
    by (apply (parseInt_from_nonneg text Hd 0); lia).
  unfold MlControler.parseBestIndex, JudgeController.parseBestIndex,
    match_first_digits. cbv zeta.
  rewrite (numeral_skip_to_digit text Hd), (numeral_leading_digits text Hd).
  rewrite (numeral_strip_quotes text Hd), (numeral_remove_option text Hd),
    (numeral_trim text Hd).
  unfold match_all_digits. rewrite (numeral_forallb text Hd).
  destruct text as [| c rest]; [congruence |].
  unfold clamp. repeat split; lia.
Qed.

Lemma parseBestIndex_on_numeral_witness :
  MlControler.parseBestIndex (1 # 2) (js "2") 3 = Z.min (parseInt (js "2")) (3 - 1) /\
  JudgeController.parseBestIndex (1 # 2) (js "2") 3 = Z.min (parseInt (js "2")) (3 - 1) /\
  0 <= parseInt (js "2").
Proof.
  apply (parseBestIndex_on_numeral (1 # 2) (js "2") 3); [| lia].
  split; [discriminate | repeat constructor].
Defined.

(** ** The reply of the judge route *)

Lemma at_index_elem_of {A} (xs : list A) (i : Z) (x : A) :
  at_index xs i = Some x -> x ∈ xs.
Proof.
  unfold at_index. destruct (i <? 0); [discriminate |].
  apply list_elem_of_lookup_2.
Qed.

Lemma mounted_judgeResponses_elem_of (judge : jsstring -> list candidate -> judge_reply)
    (rnd : Q) (prompt : jsstring) (candidates : list candidate) (w : world)
    (best : candidate) :
  fst (MlControler.judgeResponses judge rnd prompt candidates w) = Some best ->
  best ∈ candidates.
Proof.
  unfold MlControler.judgeResponses.
  destruct (judge prompt candidates); cbn [fst]; apply at_index_elem_of.
Qed.

Lemma strict_judgeResponses_elem_of (judge : jsstring -> list candidate -> judge_reply)
    (rnd : Q) (prompt : jsstring) (candidates : list candidate) (w : world)
    (best : candidate) :
  fst (JudgeController.judgeResponses judge rnd prompt candidates w) = Some best ->
  best ∈ candidates.
Proof.
  unfold JudgeController.judgeResponses, JudgeController.weightedRandomSelect.
  destruct (judge prompt candidates); cbn [fst]; apply at_index_elem_of.
Qed.

(** X12. A 200 reply of the judge route is well formed, whatever the
    judge and the random draw did: [bestResponse] is a text, not empty in
    [mlcontroler.js] and of at least 20 code units in the strict
    controller; [chosenModel] is one of the IDs listed in [candidates];
    and [candidates] lists registry models in registry order. *)
Theorem judge_route_reply_well_formed
    (backend : nat -> jsstring -> jsstring -> http)
    (schedule : nat -> nat)
    (judge : jsstring -> list candidate -> judge_reply)
    (rnd : Q) (development : bool) (prompt : option jsstring) (w : world) :
  (status (fst (MlControler.judgeAndGenerate backend schedule judge rnd development prompt w)) = 200 ->
   exists text chosen listed,
     json (fst (MlControler.judgeAndGenerate backend schedule judge rnd development prompt w))
       = JudgeBody (Some text) chosen listed /\
     text <> [] /\ chosen ∈ listed /\ sublist listed MODEL_LIST) /\
  (status (fst (JudgeController.judgeAndGenerate backend schedule judge rnd development prompt w)) = 200 ->
   exists text chosen listed,
     json (fst (JudgeController.judgeAndGenerate backend schedule judge rnd development prompt w))
       = JudgeBody (Some text) chosen listed /\
     (20 <= length text)%nat /\ chosen ∈ listed /\ sublist listed MODEL_LIST).
Proof.
  split.
  - destruct prompt as [text |]; [| discriminate].
    unfold MlControler.judgeAndGenerate.
    destruct (truthy_string text); cbn [negb]; [| discriminate].
    pose proof (mounted_fan_out_order backend schedule text w) as (_ & _ & Hsub).
    pose proof (mounted_fan_out_survivors backend schedule text w) as Hsurv.
    destruct (MlControler.fan_out backend schedule text w) as [candidates w1].
    cbn [fst] in *. destruct candidates as [| c cs] eqn:Hcs; [discriminate |].
    rewrite <- Hcs in *.
    pose proof (mounted_judgeResponses_elem_of judge rnd text candidates w1) as Hin.
    destruct (MlControler.judgeResponses judge rnd text candidates w1) as [[best |] w2];
      [| discriminate].
    cbn [fst status json]. intros _. specialize (Hin best eq_refl).
    apply Hsurv in Hin as Hbest. destruct Hbest as (idx & answer & _ & Hok & ->).
    exists answer, (nth idx MODEL_LIST []), (map model candidates).
    split; [reflexivity |]. split; [exact Hok |]. split; [| exact Hsub].
    apply list_elem_of_fmap. eexists. split; [| exact Hin]. reflexivity.
  - destruct prompt as [text |]; [| discriminate].
    unfold JudgeController.judgeAndGenerate.
    destruct (truthy_string (trim text)); cbn [negb]; [| discriminate].
    pose proof (strict_getModelResponses_order backend schedule text w) as (_ & _ & Hsub).
    pose proof (strict_getModelResponses_survivors backend schedule text w) as Hsurv.
    destruct (JudgeController.getModelResponses backend schedule text w) as [candidates w1].
    cbn [fst] in *. destruct candidates as [| c cs] eqn:Hcs; [discriminate |].
    rewrite <- Hcs in *.
    pose proof (strict_judgeResponses_elem_of judge rnd text candidates w1) as Hin.
    destruct (JudgeController.judgeResponses judge rnd text candidates w1)
      as [[best |] w2]; [| discriminate].
    cbn [fst status json]. intros _. specialize (Hin best eq_refl).
    apply Hsurv in Hin as Hbest. destruct Hbest as (idx & answer & _ & Hok & ->).
    exists answer, (nth idx MODEL_LIST []), (map model candidates).
    split; [reflexivity |]. split; [exact Hok |]. split; [| exact Hsub].
    apply list_elem_of_fmap. eexists. split; [| exact Hin]. reflexivity.
Qed.

Lemma judge_route_reply_well_formed_witness :
  status (fst (JudgeController.judgeAndGenerate answering in_turn judge_down (1 # 2) false
                 (Some (js "hi")) fresh)) = 200 /\
  exists text chosen listed,
    json (fst (JudgeController.judgeAndGenerate answering in_turn judge_down (1 # 2) false
                 (Some (js "hi")) fresh))
      = JudgeBody (Some text) chosen listed /\
    (20 <= length text)%nat /\ chosen ∈ listed /\ sublist listed MODEL_LIST.
Proof.
  split; [reflexivity |].
  apply (proj2 (judge_route_reply_well_formed answering in_turn judge_down (1 # 2) false
                  (Some (js "hi")) fresh)).
  reflexivity.
Defined.

(** ** The encoded prompt of the cache keys *)

Section Encoding.

#[local] Open Scope N_scope.

Lemma N_quotient_part (r s k : N) : s < k -> (r * k + s) / k = r.
Proof. intros H. symmetry. apply (N.div_unique _ k r s); lia. Qed.
Lemma N_remainder_part (r s k : N) : s < k -> (r * k + s) mod k = s.
Proof. intros H. symmetry. apply (N.mod_unique _ k r s); lia. Qed.
Lemma N_div_below (a k m : N) : k <> 0 -> a < k * m -> a / k < m.
Proof. intros. apply N.Div0.div_lt_upper_bound; lia. Qed.
Lemma N_div_mod_sum (a k : N) : (a / k) * k + a mod k = a.
Proof. pose proof (N.div_mod' a k). lia. Qed.
Lemma N_mod_below (a k : N) : k <> 0 -> a mod k < k.
Proof. apply N.mod_lt. Qed.

Lemma base64url_value_digit (d : N) : d < 64 -> base64url_value (base64url_digit d) = d.
Proof.
  intros Hd. unfold base64url_value, base64url_digit.
  repeat match goal with
  | |- context [(?a <? ?b)] => destruct (N.ltb_spec a b)
  | |- context [(?a <=? ?b)] => destruct (N.leb_spec a b)
  | |- context [(?a =? ?b)] => destruct (N.eqb_spec a b)
  | |- _ => progress cbn [andb]
  end; lia.
Qed.

Lemma triple_ind (P : list N -> Prop) :
  P [] -> (forall a, P [a]) -> (forall a b, P [a; b]) ->
  (forall a b c rest, P rest -> P (a :: b :: c :: rest)) ->
  forall l, P l.
Proof.
  intros H0 H1 H2 H3 l.
  enough (P l /\ (forall a, P (a :: l)) /\ (forall a b, P (a :: b :: l))) by tauto.
  induction l as [| x l (IH0 & IH1 & IH2)]; [auto |].
  split; [apply IH1 |]. split; [intros a; apply IH2 |].
  intros a b. apply H3, IH0.
Qed.

Lemma bytes_of_base64url_of_bytes (bytes : list N) :
  Forall (fun b => b < 256) bytes -> bytes_of_base64url (base64url_of_bytes bytes) = bytes.
Proof.
  induction bytes as [| a | a b | a b c rest IH] using triple_ind; intros Hb.
  - reflexivity.
  - apply Forall_cons in Hb as [Ha _]. cbn [base64url_of_bytes bytes_of_base64url].
    assert (a / 4 < 64) by (apply N_div_below; lia).
    pose proof (N_mod_below a 4).
    rewrite !base64url_value_digit by lia.
    rewrite N.div_mul by lia. f_equal. apply N_div_mod_sum.
  - apply Forall_cons in Hb as [Ha Hb]. apply Forall_cons in Hb as [Hb _].
    cbn [base64url_of_bytes bytes_of_base64url].
    assert (a / 4 < 64) by (apply N_div_below; lia).
    assert (b / 16 < 16) by (apply N_div_below; lia).
    pose proof (N_mod_below a 4). pose proof (N_mod_below b 16).
    rewrite !base64url_value_digit by lia.
    rewrite N_quotient_part, N_remainder_part by lia. rewrite N.div_mul by lia.
    f_equal; [apply N_div_mod_sum | f_equal; apply N_div_mod_sum].
  - apply Forall_cons in Hb as [Ha Hb]. apply Forall_cons in Hb as [Hb Hc].
    apply Forall_cons in Hc as [Hc Hrest].
    cbn [base64url_of_bytes app bytes_of_base64url].
    assert (a / 4 < 64) by (apply N_div_below; lia).
    assert (b / 16 < 16) by (apply N_div_below; lia).
    assert (c / 64 < 4) by (apply N_div_below; lia).
    pose proof (N_mod_below a 4). pose proof (N_mod_below b 16). pose proof (N_mod_below c 64).
    rewrite !base64url_value_digit by lia.
    rewrite (N_quotient_part (a mod 4)), (N_remainder_part (a mod 4)) by lia.
    rewrite (N_quotient_part (b mod 16)), (N_remainder_part (b mod 16)) by lia.
    rewrite IH by exact Hrest.
    cbn [app]. f_equal; [apply N_div_mod_sum | f_equal; [apply N_div_mod_sum | f_equal; apply N_div_mod_sum]].
Qed.

Lemma N_add_sub_left (a x : N) : a + x - a = x.
Proof. lia. Qed.

Lemma decode_code_point (cp : N) (tail : list N) :
  cp < 1114112 ->
  utf16_of_utf8 (utf8_of_code_point cp ++ tail) =
    (if cp <? 65536 then [cp]
     else [55296 + (cp - 65536) / 1024; 56320 + (cp - 65536) mod 1024])
    ++ utf16_of_utf8 tail.
Proof.
  intros Hcp. unfold utf8_of_code_point.
  pose proof (N_div_mod_sum cp 64) as E0.
  pose proof (N_div_mod_sum (cp / 64) 64) as E1.
  pose proof (N_div_mod_sum (cp / 64 / 64) 64) as E2.
  pose proof (N_mod_below cp 64 ltac:(lia)) as L0.
  pose proof (N_mod_below (cp / 64) 64 ltac:(lia)) as L1.
  pose proof (N_mod_below (cp / 64 / 64) 64 ltac:(lia)) as L2.
  replace (cp / 64 / 64 / 64) with (cp / 262144) in E2
    by (rewrite !N.Div0.div_div; reflexivity).
  replace (cp / 64 / 64) with (cp / 4096) in E1, E2, L2
    by (rewrite !N.Div0.div_div; reflexivity).
  set (q1 := cp / 64) in *. set (q2 := cp / 4096) in *. set (q3 := cp / 262144) in *.
  set (r0 := cp mod 64) in *. set (r1 := q1 mod 64) in *. set (r2 := q2 mod 64) in *.
  clearbody q1 q2 q3 r0 r1 r2.
  destruct (N.ltb_spec cp 128) as [Hc1 | Hc1].
  { cbn [app utf16_of_utf8]. destruct (N.ltb_spec cp 128); [| lia].
    destruct (N.ltb_spec cp 65536); [reflexivity | lia]. }
  destruct (N.ltb_spec cp 2048) as [Hc2 | Hc2].
  { cbn [app utf16_of_utf8].
    destruct (N.ltb_spec (192 + q1) 128); [lia |].
    destruct (N.ltb_spec (192 + q1) 224); [| lia].
    destruct (N.ltb_spec cp 65536); [| lia].
    rewrite !N_add_sub_left. cbn [app]. f_equal. lia. }
  destruct (N.ltb_spec cp 65536) as [Hc3 | Hc3].
  { cbn [app utf16_of_utf8].
    destruct (N.ltb_spec (224 + q2) 128); [lia |].
    destruct (N.ltb_spec (224 + q2) 224); [lia |].
    destruct (N.ltb_spec (224 + q2) 240); [| lia].
    rewrite !N_add_sub_left. cbn [app]. f_equal. lia. }
  cbn [app utf16_of_utf8].
  destruct (N.ltb_spec (240 + q3) 128); [lia |].
  destruct (N.ltb_spec (240 + q3) 224); [lia |].
  destruct (N.ltb_spec (240 + q3) 240); [lia |].
  cbv zeta. rewrite !N_add_sub_left.
  replace (q3 * 262144 + r2 * 4096 + r1 * 64 + r0) with cp by lia. reflexivity.
Qed.

Lemma surrogate_pair (hi lo : N) :
  is_high_surrogate hi = true -> is_low_surrogate lo = true ->
  let cp := 65536 + (hi - 55296) * 1024 + (lo - 56320) in
  cp < 1114112 /\ (cp <? 65536) = false /\
  55296 + (cp - 65536) / 1024 = hi /\ 56320 + (cp - 65536) mod 1024 = lo.
Proof.
  intros Hhi Hlo cp. unfold is_high_surrogate, is_low_surrogate in Hhi, Hlo.
  apply andb_true_iff in Hhi as [Hh1 Hh2]. apply andb_true_iff in Hlo as [Hl1 Hl2].
  apply N.leb_le in Hh1, Hh2, Hl1, Hl2.
  assert (Hcp : cp - 65536 = (hi - 55296) * 1024 + (lo - 56320)) by (subst cp; lia).
  rewrite Hcp, N_quotient_part, N_remainder_part by lia.
  split; [subst cp; lia |]. split; [apply N.ltb_ge; subst cp; lia |]. lia.
Qed.

Lemma pair_ind (P : list N -> Prop) :
  P [] -> (forall a, P [a]) ->
  (forall a b rest, P rest -> P (b :: rest) -> P (a :: b :: rest)) ->
  forall l, P l.
Proof.
  intros H0 H1 H2 l.
  enough (P l /\ forall a, P (a :: l)) by tauto.
  induction l as [| x l (IH0 & IH1)]; [auto |].
  split; [apply IH1 |]. intros a. apply H2; [exact IH0 | apply IH1].
Qed.

Lemma isWellFormed_cases (a : N) (rest : jsstring) :
  isWellFormed (a :: rest) = true ->
  (is_high_surrogate a = true /\
   exists lo rest', rest = lo :: rest' /\ is_low_surrogate lo = true /\
                    isWellFormed rest' = true) \/
  (is_high_surrogate a = false /\ is_low_surrogate a = false /\ a < 65536 /\
   isWellFormed rest = true).
Proof.
  cbn [isWellFormed]. destruct (is_high_surrogate a).
  - destruct rest as [| lo rest']; [discriminate |]. intros H.
    apply andb_true_iff in H as [H1 H2]. left. split; [reflexivity |].
    exists lo, rest'. auto.
  - intros H. apply andb_true_iff in H as [H H3]. apply andb_true_iff in H as [H1 H2].
    apply negb_true_iff in H1. apply N.ltb_lt in H2. right. auto.
Qed.

Lemma utf8_scalar (a : N) (rest : jsstring) :
  is_high_surrogate a = false -> is_low_surrogate a = false ->
  utf8 (a :: rest) = utf8_of_code_point a ++ utf8 rest.
Proof. intros Hhigh Hlow. cbn [utf8]. rewrite Hhigh, Hlow. reflexivity. Qed.

Lemma utf8_pair (a b : N) (rest : jsstring) :
  is_high_surrogate a = true -> is_low_surrogate b = true ->
  utf8 (a :: b :: rest) =
  utf8_of_code_point (65536 + (a - 55296) * 1024 + (b - 56320)) ++ utf8 rest.
Proof. intros Hhigh Hlow. cbn [utf8]. rewrite Hhigh, Hlow. reflexivity. Qed.

Lemma utf16_of_utf8_of_utf16 (s : jsstring) :
  isWellFormed s = true -> utf16_of_utf8 (utf8 s) = s.
Proof.
  induction s as [| a | a b rest IH0 IH1] using pair_ind; intros Hwf.
  - reflexivity.
  - apply isWellFormed_cases in Hwf
      as [(_ & lo & rest' & Hrest & _) | (Hhigh & Hlow & Ha & _)]; [discriminate |].
    rewrite utf8_scalar by assumption. cbn [utf8].
    rewrite decode_code_point by lia.
    destruct (N.ltb_spec a 65536); [reflexivity | lia].
  - apply isWellFormed_cases in Hwf
      as [(Hhigh & lo & rest' & Hrest & Hlow & Hwf) | (Hhigh & Hlow & Ha & Hwf)].
    + injection Hrest as <- <-. rewrite utf8_pair by assumption.
      destruct (surrogate_pair a b Hhigh Hlow) as (Hcp & Hbig & Hhi & Hlo).
      cbv zeta in *. rewrite decode_code_point by exact Hcp.
      rewrite Hbig, Hhi, Hlo, IH0 by exact Hwf. reflexivity.
    + rewrite utf8_scalar by assumption.
      rewrite decode_code_point by lia.
      destruct (N.ltb_spec a 65536); [| lia].
      rewrite IH1 by exact Hwf. reflexivity.
Qed.

Lemma utf8_of_code_point_bytes (cp : N) :
  cp < 1114112 -> Forall (fun b => b < 256) (utf8_of_code_point cp).
Proof.
  intros Hcp. unfold utf8_of_code_point.
  pose proof (N_mod_below cp 64 ltac:(lia)).
  pose proof (N_mod_below (cp / 64) 64 ltac:(lia)).
  pose proof (N_mod_below (cp / 4096) 64 ltac:(lia)).
  destruct (N.ltb_spec cp 128); [repeat constructor; lia |].
  destruct (N.ltb_spec cp 2048).
  { assert (cp / 64 < 32) by (apply N_div_below; lia). repeat constructor; lia. }
  destruct (N.ltb_spec cp 65536).
  { assert (cp / 4096 < 16) by (apply N_div_below; lia). repeat constructor; lia. }
  assert (cp / 262144 < 5) by (apply N_div_below; lia). repeat constructor; lia.
Qed.

Lemma utf8_bytes (s : jsstring) :
  isWellFormed s = true -> Forall (fun b => b < 256) (utf8 s).
Proof.
  induction s as [| a | a b rest IH0 IH1] using pair_ind; intros Hwf.
  - constructor.
  - apply isWellFormed_cases in Hwf
      as [(_ & lo & rest' & Hrest & _) | (Hhigh & Hlow & Ha & _)]; [discriminate |].
    rewrite utf8_scalar by assumption. apply Forall_app. split; [| constructor].
    apply utf8_of_code_point_bytes. lia.
  - apply isWellFormed_cases in Hwf
      as [(Hhigh & lo & rest' & Hrest & Hlow & Hwf) | (Hhigh & Hlow & Ha & Hwf)].
    + injection Hrest as <- <-. rewrite utf8_pair by assumption.
      apply Forall_app. split; [| apply IH0, Hwf].
      apply utf8_of_code_point_bytes, (surrogate_pair a b Hhigh Hlow).
    + rewrite utf8_scalar by assumption. apply Forall_app. split; [| apply IH1, Hwf].
      apply utf8_of_code_point_bytes. lia.
Qed.

Lemma base64url_inj (p1 p2 : jsstring) :
  isWellFormed p1 = true -> isWellFormed p2 = true ->
  base64url p1 = base64url p2 -> p1 = p2.
Proof.
  intros H1 H2 Heq. unfold base64url in Heq.
  apply (f_equal bytes_of_base64url) in Heq.
  rewrite !bytes_of_base64url_of_bytes in Heq by (apply utf8_bytes; assumption).
  apply (f_equal utf16_of_utf8) in Heq.
  rewrite !utf16_of_utf8_of_utf16 in Heq by assumption. exact Heq.
Qed.

Lemma lone_surrogate_utf8 (c : N) (rest : jsstring) :
  is_low_surrogate c = true -> utf8 (c :: rest) = utf8 (65533 :: rest).
Proof.
  intros Hlow. cbn [utf8]. rewrite Hlow.
  replace (is_high_surrogate c) with false; [reflexivity |].
  unfold is_high_surrogate, is_low_surrogate in *.
  apply andb_true_iff in Hlow as [H1 H2]. apply N.leb_le in H1.
  symmetry. apply andb_false_iff. right. apply N.leb_gt. lia.
Qed.

End Encoding.

(** X13. The prompt-encoded cache keys lose nothing on well-formed prompts.
    The key built by [callModel] of the strict controller, which is also the
    key built by [generateWithNvidia], is the same for two registry models
    and two well-formed prompts only if the models are the same and the
    prompts are the same: base64url over UTF-8 can be read back. *)
Theorem encoded_cache_key_determines_prompt (m1 m2 p1 p2 : jsstring) :
  m1 ∈ MODEL_LIST -> m2 ∈ MODEL_LIST ->
  isWellFormed p1 = true -> isWellFormed p2 = true ->
  JudgeController.cacheKey m1 p1 = JudgeController.cacheKey m2 p2 ->
  m1 = m2 /\ p1 = p2.
Proof.
  intros H1 H2 Hp1 Hp2 Hkey. unfold JudgeController.cacheKey in Hkey.
  destruct (registry_prefix_free _ _ _ _ H1 H2 Hkey) as [Hm Hp].
  split; [exact Hm |]. apply base64url_inj; assumption.
Qed.

Lemma encoded_cache_key_determines_prompt_witness :
  gemma = gemma /\ js "hi" = js "hi".
Proof.
  apply (encoded_cache_key_determines_prompt gemma gemma (js "hi") (js "hi"));
    try reflexivity; unfold MODEL_LIST, gemma; repeat constructor.
Defined.

(** X14. A lone surrogate in a prompt is encoded as U+FFFD, so the encoded
    keys do not tell the two apart: once [callModel] of the strict controller
    has an answer for a prompt that starts with U+FFFD, the prompt that has a
    lone low surrogate in its place is answered from the cache, with the
    answer to the other prompt and without a request. *)
Theorem lone_surrogate_shares_cache_entry
    (backend : nat -> jsstring -> jsstring -> http) (model rest : jsstring)
    (c : N) (w w1 : world) (value : jsvalue) :
  is_low_surrogate c = true ->
  JudgeController.callModel backend model (65533%N :: rest) w = (inr value, w1) ->
  JudgeController.callModel backend model (c :: rest) w1 = (inr value, w1).
Proof.
  intros Hlow Hcall. unfold JudgeController.callModel, JudgeController.cacheKey in *.
  apply cached_call_hit. unfold base64url. rewrite (lone_surrogate_utf8 c rest Hlow).
  eapply cached_call_success_stored, Hcall.
Qed.

Lemma lone_surrogate_shares_cache_entry_witness :
  JudgeController.callModel answering gemma [56320%N]
    (snd (JudgeController.callModel answering gemma [65533%N] fresh))
  = (inr (Some answer), snd (JudgeController.callModel answering gemma [65533%N] fresh)).
Proof.
  apply (lone_surrogate_shares_cache_entry answering gemma [] 56320%N fresh);
    reflexivity.
Defined.
